(** * Blink monitor: a shallow embedding of [Untitled-1.ts]

    The page keeps its detector in React refs (mutable cells), publishes
    state through a reducer, and runs two handlers: the FaceMesh
    [onResults] callback (one call per processed frame) and a 100 ms
    [setInterval] monitor.  Both handlers are embedded as functions from the
    ref cells to the new ref cells and the ordered list of side effects
    (dispatches, beeps, notifications) they perform.

    Numbers.  Everything computed from an eye aspect ratio is binary64, as
    in the source: [dist], [ear], the running maximum, the sample filter
    [curEar > max * 0.8], the sum and the quotient of the baseline, and the
    two thresholds [baseline * 0.62] and [baseline * 0.82], each with its
    rounding, its NaN and its infinities ([spec_float] with precision 53
    and maximal exponent 1024; the literals are the doubles the source text
    denotes).  Time stamps, and what is computed from time stamps only
    (elapsed seconds, the rate per minute), are exact rationals ([Q]); the
    constants they are compared with are the integers of the source.  The
    counters are integers ([Z]). *)

From Stdlib Require Import ZArith QArith Qminmax Bool List String Lia Lqa.
From Stdlib Require Import Floats.SpecFloat.
Import ListNotations.

Set Implicit Arguments.

(** ** Binary64 and the geometry helpers *)

Module Geometry.

Definition prec : Z := 53.
Definition emax : Z := 1024.

Definition float : Type := spec_float.

Definition fadd : float -> float -> float := SFadd prec emax.
Definition fsub : float -> float -> float := SFsub prec emax.
Definition fmul : float -> float -> float := SFmul prec emax.
Definition fdiv : float -> float -> float := SFdiv prec emax.
Definition fsqrt : float -> float := SFsqrt prec emax.

Definition pzero : float := S754_zero false.
Definition pinf : float := S754_infinity false.

(** The literal [2]. *)
Definition two : float := S754_finite false 4503599627370496 (-51).

(** The literal [1e-6], that is the double [0x1.0c6f7a0b5ed8dp-20]. *)
Definition epsilon : float := S754_finite false 4722366482869645 (-72).

(** [Number.MAX_VALUE], the largest finite double. *)
Definition MAX_VALUE : float := S754_finite false 9007199254740991 971.

Definition is_infinite (x : float) : bool :=
  match x with S754_infinity _ => true | _ => false end.

Definition is_nan (x : float) : bool :=
  match x with S754_nan => true | _ => false end.

Definition is_zero (x : float) : bool :=
  match x with S754_zero _ => true | _ => false end.

(** [Number.isFinite]. *)
Definition isFinite (x : float) : bool :=
  match x with
  | S754_zero _ | S754_finite _ _ _ => true
  | S754_infinity _ | S754_nan => false
  end.

(** [v < 0] as JavaScript evaluates it (false on NaN). *)
Definition isNegative (v : float) : bool := SFltb v pzero.

(** The sign bit is clear, or the value is NaN. *)
Definition signClear (v : float) : bool :=
  match v with
  | S754_nan => true
  | S754_zero s | S754_infinity s | S754_finite s _ _ => negb s
  end.

(** The value is a double: a finite one has the one mantissa and exponent
    binary64 gives it.  Every number of the program is one. *)
Definition valid (v : float) : bool := valid_binary prec emax v.

(** The value is finite and its magnitude is below [2 ^ k]. *)
Definition magBelow (k : Z) (v : float) : bool :=
  match v with
  | S754_zero _ => true
  | S754_finite _ m e => (Zdigits2 (Z.pos m) + e <=? k)%Z
  | S754_infinity _ | S754_nan => false
  end.

(** The value is finite and its magnitude is at least [2 ^ (k - 1)]. *)
Definition magAtLeast (k : Z) (v : float) : bool :=
  match v with
  | S754_finite _ m e => (k <=? Zdigits2 (Z.pos m) + e)%Z
  | _ => false
  end.

(** *** [Math.hypot]

    ECMAScript fixes what [Math.hypot] returns when an argument is
    infinite (+Infinity), otherwise when one is NaN (NaN), and when all
    are zeros (+0).  In every other case the result is
    "implementation-approximated": engines differ in the last bits, and
    they scale so that the squares do not overflow.  The engine's function
    for that case is a parameter of the model, [hypot_general], of which
    only this much is assumed: its result is never negative and is a
    double; on arguments that are not NaN it is not NaN; it depends on the
    magnitudes of its arguments only; and on arguments below [2 ^ k] in
    magnitude, for [k] between -537 and 510, it is finite and below
    [2 ^ (k + 3)] (the exact value is below [2 ^ (k + 1)]). *)
Class HypotEngine : Type := {
  hypot_general : float -> float -> float;
  hypot_signClear : forall u v, signClear (hypot_general u v) = true;
  hypot_valid : forall u v,
      valid u = true -> valid v = true -> valid (hypot_general u v) = true;
  hypot_not_nan : forall u v,
      is_nan u = false -> is_nan v = false ->
      is_nan (hypot_general u v) = false;
  hypot_abs : forall u v,
      hypot_general u v = hypot_general (SFabs u) (SFabs v);
  hypot_bounded : forall u v k,
      (-537 <= k)%Z -> (k <= 510)%Z ->
      valid u = true -> valid v = true ->
      magBelow k u = true -> magBelow k v = true ->
      magBelow (k + 3) (hypot_general u v) = true
}.

(** [Math.hypot] with two arguments. *)
Definition Math_hypot {E : HypotEngine} (x y : float) : float :=
  if is_infinite x || is_infinite y then pinf
  else if is_nan x || is_nan y then S754_nan
  else if is_zero x && is_zero y then pzero
  else hypot_general x y.

(** The textbook formula, rounded at each step: one function that meets
    the assumptions above (it is not what engines compute: its squares
    overflow and underflow, and it can differ from them in the last
    bit). *)
Definition textbook_hypot (x y : float) : float :=
  fsqrt (fadd (fmul x x) (fmul y y)).

Record Point : Type := { x : float; y : float }.

Definition dist {E : HypotEngine} (a b : Point) : float :=
  Math_hypot (fsub (x a) (x b)) (fsub (y a) (y b)).

Definition ear {E : HypotEngine} (p1 p2 p3 p4 p5 p6 : Point) : float :=
  let denom := fmul two (dist p1 p4) in
  if SFleb denom epsilon then pzero
  else fdiv (fadd (dist p2 p6) (dist p3 p5)) denom.

(** The EAR of a frame: the mean of the left and the right eye, each from
    its six contour landmarks ([lm] gives the landmark at an index). *)
Definition curEar {E : HypotEngine} (lm : nat -> Point) : float :=
  let left := ear (lm 33%nat) (lm 160%nat) (lm 159%nat)
                  (lm 133%nat) (lm 145%nat) (lm 144%nat) in
  let right := ear (lm 362%nat) (lm 387%nat) (lm 386%nat)
                   (lm 263%nat) (lm 374%nat) (lm 373%nat) in
  fdiv (fadd left right) two.

(** A point whose two coordinates are finite numbers. *)
Definition finitePoint (p : Point) : bool := isFinite (x p) && isFinite (y p).

(** A point whose two coordinates are doubles below [2 ^ 508] (about
    8.4e152) in magnitude. *)
Definition moderatePoint (p : Point) : bool :=
  valid (x p) && valid (y p) && magBelow 508 (x p) && magBelow 508 (y p).

(** *** What the handlers do with an EAR *)

(** [Math.max] of two numbers: NaN if either is NaN, and +0 above -0. *)
Definition Math_max (a b : float) : float :=
  if is_nan a || is_nan b then S754_nan
  else if SFltb a b then b
  else if SFltb b a then a
  else match a, b with
       | S754_zero sa, S754_zero sb => S754_zero (sa && sb)
       | _, _ => a
       end.

(** The Number of an array length (an integer below [2 ^ 32], exact). *)
Definition ofLength {A : Type} (l : list A) : float :=
  binary_normalize prec emax (Z.of_nat (List.length l)) 0 false.

(** The literal [0.8]: the double [0x1.999999999999ap-1]. *)
Definition lit_0_8 : float := S754_finite false 7205759403792794 (-53).

(** [!v] for a number: true on 0, -0 and NaN. *)
Definition falsyNumber (v : float) : bool := is_zero v || is_nan v.

(** *** Rounding, seen on integers *)

(** The record [mrs] is what [k] right shifts leave of [X]: the quotient,
    a round bit that says the remainder is at least half of [2 ^ k], and
    a sticky bit that says the remainder is neither 0 nor that half. *)
Definition shifted (X k : Z) (mrs : shr_record) : Prop :=
  (shr_m mrs = X / 2 ^ k /\
   (shr_r mrs = true <-> 2 ^ k <= 2 * (X mod 2 ^ k)) /\
   (shr_s mrs = true <-> (2 * (X mod 2 ^ k)) mod 2 ^ k <> 0))%Z.

(** [q] is [X / P] rounded to the nearest integer, ties to even. *)
Definition nearestEven (X P q : Z) : Prop :=
  ((2 * (X mod P) < P /\ q = X / P) \/
   (P < 2 * (X mod P) /\ q = X / P + 1) \/
   (2 * (X mod P) = P /\ q = X / P + (X / P) mod 2))%Z.

(** The mantissa and the exponent [binary_round_aux] arrives at for an
    exact [m * 2 ^ e], before it tests for zero and for overflow. *)
Definition roundedPair (m e : Z) : Z * Z :=
  let '(mrs1, e1) := shr_fexp prec emax m e loc_Exact in
  let '(mrs2, e2) :=
    shr_fexp prec emax
      (round_nearest_even (shr_m mrs1) (loc_of_shr_record mrs1)) e1 loc_Exact in
  (shr_m mrs2, e2).

End Geometry.

(** ** Published state and its reducer *)

Inductive NotifPermission : Type := PermDefault | PermGranted | PermDenied.

Record UiState : Type := {
  running : bool;
  calibrating : bool;
  blinks : Z;
  blinksPerMin : Q;
  secondsSinceBlink : Q;
  alertOn : bool;
  noBlinkThreshold : Q;
  agreed : bool;
  error : option string;
  notifEnabled : bool;
  notifPermission : NotifPermission
}.

Inductive Action : Type :=
| START
| STOP
| CALIBRATION_DONE
| SET_BLINKS (n : Z)
| SET_BPM (bpm : Q)
| SET_SECONDS (seconds : Q)
| ALERT_ON
| ALERT_OFF
| SET_THRESHOLD (seconds : Q)
| AGREE
| ERROR (message : string)
| CLEAR_ERROR
| SET_NOTIF_ENABLED (enabled : bool)
| SET_NOTIF_PERMISSION (perm : NotifPermission).

Definition initialState : UiState :=
  {| running := false;
     calibrating := false;
     blinks := 0;
     blinksPerMin := 0;
     secondsSinceBlink := 0;
     alertOn := false;
     noBlinkThreshold := 10;
     agreed := false;
     error := None;
     notifEnabled := true;
     notifPermission := PermDefault |}.

Definition reducer (state : UiState) (action : Action) : UiState :=
  match action with
  | START =>
      {| running := true;
         calibrating := true;
         blinks := blinks initialState;
         blinksPerMin := blinksPerMin initialState;
         secondsSinceBlink := secondsSinceBlink initialState;
         alertOn := alertOn initialState;
         noBlinkThreshold := noBlinkThreshold state;
         agreed := agreed state;
         error := error initialState;
         notifEnabled := notifEnabled state;
         notifPermission := notifPermission state |}
  | STOP =>
      {| running := false; calibrating := false; blinks := blinks state;
         blinksPerMin := blinksPerMin state;
         secondsSinceBlink := secondsSinceBlink state; alertOn := false;
         noBlinkThreshold := noBlinkThreshold state; agreed := agreed state;
         error := error state; notifEnabled := notifEnabled state;
         notifPermission := notifPermission state |}
  | CALIBRATION_DONE =>
      {| running := running state; calibrating := false; blinks := blinks state;
         blinksPerMin := blinksPerMin state;
         secondsSinceBlink := 0; alertOn := false;
         noBlinkThreshold := noBlinkThreshold state; agreed := agreed state;
         error := error state; notifEnabled := notifEnabled state;
         notifPermission := notifPermission state |}
  | SET_BLINKS n =>
      {| running := running state; calibrating := calibrating state; blinks := n;
         blinksPerMin := blinksPerMin state;
         secondsSinceBlink := secondsSinceBlink state; alertOn := alertOn state;
         noBlinkThreshold := noBlinkThreshold state; agreed := agreed state;
         error := error state; notifEnabled := notifEnabled state;
         notifPermission := notifPermission state |}
  | SET_BPM bpm =>
      {| running := running state; calibrating := calibrating state;
         blinks := blinks state; blinksPerMin := bpm;
         secondsSinceBlink := secondsSinceBlink state; alertOn := alertOn state;
         noBlinkThreshold := noBlinkThreshold state; agreed := agreed state;
         error := error state; notifEnabled := notifEnabled state;
         notifPermission := notifPermission state |}
  | SET_SECONDS seconds =>
      {| running := running state; calibrating := calibrating state;
         blinks := blinks state; blinksPerMin := blinksPerMin state;
         secondsSinceBlink := seconds; alertOn := alertOn state;
         noBlinkThreshold := noBlinkThreshold state; agreed := agreed state;
         error := error state; notifEnabled := notifEnabled state;
         notifPermission := notifPermission state |}
  | ALERT_ON =>
      {| running := running state; calibrating := calibrating state;
         blinks := blinks state; blinksPerMin := blinksPerMin state;
         secondsSinceBlink := secondsSinceBlink state; alertOn := true;
         noBlinkThreshold := noBlinkThreshold state; agreed := agreed state;
         error := error state; notifEnabled := notifEnabled state;
         notifPermission := notifPermission state |}
  | ALERT_OFF =>
      {| running := running state; calibrating := calibrating state;
         blinks := blinks state; blinksPerMin := blinksPerMin state;
         secondsSinceBlink := secondsSinceBlink state; alertOn := false;
         noBlinkThreshold := noBlinkThreshold state; agreed := agreed state;
         error := error state; notifEnabled := notifEnabled state;
         notifPermission := notifPermission state |}
  | SET_THRESHOLD seconds =>
      {| running := running state; calibrating := calibrating state;
         blinks := blinks state; blinksPerMin := blinksPerMin state;
         secondsSinceBlink := secondsSinceBlink state; alertOn := alertOn state;
         noBlinkThreshold := seconds; agreed := agreed state;
         error := error state; notifEnabled := notifEnabled state;
         notifPermission := notifPermission state |}
  | AGREE =>
      {| running := running state; calibrating := calibrating state;
         blinks := blinks state; blinksPerMin := blinksPerMin state;
         secondsSinceBlink := secondsSinceBlink state; alertOn := alertOn state;
         noBlinkThreshold := noBlinkThreshold state; agreed := true;
         error := error state; notifEnabled := notifEnabled state;
         notifPermission := notifPermission state |}
  | ERROR message =>
      {| running := false; calibrating := false;
         blinks := blinks state; blinksPerMin := blinksPerMin state;
         secondsSinceBlink := secondsSinceBlink state; alertOn := false;
         noBlinkThreshold := noBlinkThreshold state; agreed := agreed state;
         error := Some message; notifEnabled := notifEnabled state;
         notifPermission := notifPermission state |}
  | CLEAR_ERROR =>
      {| running := running state; calibrating := calibrating state;
         blinks := blinks state; blinksPerMin := blinksPerMin state;
         secondsSinceBlink := secondsSinceBlink state; alertOn := alertOn state;
         noBlinkThreshold := noBlinkThreshold state; agreed := agreed state;
         error := None; notifEnabled := notifEnabled state;
         notifPermission := notifPermission state |}
  | SET_NOTIF_ENABLED enabled =>
      {| running := running state; calibrating := calibrating state;
         blinks := blinks state; blinksPerMin := blinksPerMin state;
         secondsSinceBlink := secondsSinceBlink state; alertOn := alertOn state;
         noBlinkThreshold := noBlinkThreshold state; agreed := agreed state;
         error := error state; notifEnabled := enabled;
         notifPermission := notifPermission state |}
  | SET_NOTIF_PERMISSION perm =>
      {| running := running state; calibrating := calibrating state;
         blinks := blinks state; blinksPerMin := blinksPerMin state;
         secondsSinceBlink := secondsSinceBlink state; alertOn := alertOn state;
         noBlinkThreshold := noBlinkThreshold state; agreed := agreed state;
         error := error state; notifEnabled := notifEnabled state;
         notifPermission := perm |}
  end.

(** ** The ref cells of a session *)

Inductive EyeState : Type := OPEN | CLOSED.

Record Refs : Type := {
  (* Calibration *)
  baselineEarRef : option Geometry.float;
  calibStartRef : option Q;
  maxEarRef : Geometry.float;
  openSamplesRef : list Geometry.float;
  (* Blink detection *)
  eyeStateRef : EyeState;
  closedFramesRef : Z;
  lastBlinkMsRef : Q;
  (* Monitoring *)
  lastBlinkAtRef : option Q;
  lastAlertAtRef : Q;
  (* Stats *)
  sessionStartRef : option Q;
  blinkCountRef : Z;
  lastBpmUpdateRef : Q;
  (* Notifications *)
  lastNotifAtRef : Q;
  lastAlertOnRef : bool
}.

Definition resetRefs : Refs :=
  {| baselineEarRef := None;
     calibStartRef := None;
     maxEarRef := Geometry.pzero;
     openSamplesRef := [];
     eyeStateRef := OPEN;
     closedFramesRef := 0;
     lastBlinkMsRef := 0;
     lastBlinkAtRef := None;
     lastAlertAtRef := 0;
     sessionStartRef := None;
     blinkCountRef := 0;
     lastBpmUpdateRef := 0;
     lastNotifAtRef := 0;
     lastAlertOnRef := false |}.

(** Assignments to single cells. *)

Definition set_baselineEar (v : option Geometry.float) (r : Refs) : Refs :=
  {| baselineEarRef := v; calibStartRef := calibStartRef r;
     maxEarRef := maxEarRef r; openSamplesRef := openSamplesRef r;
     eyeStateRef := eyeStateRef r; closedFramesRef := closedFramesRef r;
     lastBlinkMsRef := lastBlinkMsRef r; lastBlinkAtRef := lastBlinkAtRef r;
     lastAlertAtRef := lastAlertAtRef r; sessionStartRef := sessionStartRef r;
     blinkCountRef := blinkCountRef r; lastBpmUpdateRef := lastBpmUpdateRef r;
     lastNotifAtRef := lastNotifAtRef r; lastAlertOnRef := lastAlertOnRef r |}.

Definition set_calibStart (v : option Q) (r : Refs) : Refs :=
  {| baselineEarRef := baselineEarRef r; calibStartRef := v;
     maxEarRef := maxEarRef r; openSamplesRef := openSamplesRef r;
     eyeStateRef := eyeStateRef r; closedFramesRef := closedFramesRef r;
     lastBlinkMsRef := lastBlinkMsRef r; lastBlinkAtRef := lastBlinkAtRef r;
     lastAlertAtRef := lastAlertAtRef r; sessionStartRef := sessionStartRef r;
     blinkCountRef := blinkCountRef r; lastBpmUpdateRef := lastBpmUpdateRef r;
     lastNotifAtRef := lastNotifAtRef r; lastAlertOnRef := lastAlertOnRef r |}.

Definition set_maxEar (v : Geometry.float) (r : Refs) : Refs :=
  {| baselineEarRef := baselineEarRef r; calibStartRef := calibStartRef r;
     maxEarRef := v; openSamplesRef := openSamplesRef r;
     eyeStateRef := eyeStateRef r; closedFramesRef := closedFramesRef r;
     lastBlinkMsRef := lastBlinkMsRef r; lastBlinkAtRef := lastBlinkAtRef r;
     lastAlertAtRef := lastAlertAtRef r; sessionStartRef := sessionStartRef r;
     blinkCountRef := blinkCountRef r; lastBpmUpdateRef := lastBpmUpdateRef r;
     lastNotifAtRef := lastNotifAtRef r; lastAlertOnRef := lastAlertOnRef r |}.

Definition set_openSamples (v : list Geometry.float) (r : Refs) : Refs :=
  {| baselineEarRef := baselineEarRef r; calibStartRef := calibStartRef r;
     maxEarRef := maxEarRef r; openSamplesRef := v;
     eyeStateRef := eyeStateRef r; closedFramesRef := closedFramesRef r;
     lastBlinkMsRef := lastBlinkMsRef r; lastBlinkAtRef := lastBlinkAtRef r;
     lastAlertAtRef := lastAlertAtRef r; sessionStartRef := sessionStartRef r;
     blinkCountRef := blinkCountRef r; lastBpmUpdateRef := lastBpmUpdateRef r;
     lastNotifAtRef := lastNotifAtRef r; lastAlertOnRef := lastAlertOnRef r |}.

Definition set_eyeState (v : EyeState) (r : Refs) : Refs :=
  {| baselineEarRef := baselineEarRef r; calibStartRef := calibStartRef r;
     maxEarRef := maxEarRef r; openSamplesRef := openSamplesRef r;
     eyeStateRef := v; closedFramesRef := closedFramesRef r;
     lastBlinkMsRef := lastBlinkMsRef r; lastBlinkAtRef := lastBlinkAtRef r;
     lastAlertAtRef := lastAlertAtRef r; sessionStartRef := sessionStartRef r;
     blinkCountRef := blinkCountRef r; lastBpmUpdateRef := lastBpmUpdateRef r;
     lastNotifAtRef := lastNotifAtRef r; lastAlertOnRef := lastAlertOnRef r |}.

Definition set_closedFrames (v : Z) (r : Refs) : Refs :=
  {| baselineEarRef := baselineEarRef r; calibStartRef := calibStartRef r;
     maxEarRef := maxEarRef r; openSamplesRef := openSamplesRef r;
     eyeStateRef := eyeStateRef r; closedFramesRef := v;
     lastBlinkMsRef := lastBlinkMsRef r; lastBlinkAtRef := lastBlinkAtRef r;
     lastAlertAtRef := lastAlertAtRef r; sessionStartRef := sessionStartRef r;
     blinkCountRef := blinkCountRef r; lastBpmUpdateRef := lastBpmUpdateRef r;
     lastNotifAtRef := lastNotifAtRef r; lastAlertOnRef := lastAlertOnRef r |}.

Definition set_lastBlinkMs (v : Q) (r : Refs) : Refs :=
  {| baselineEarRef := baselineEarRef r; calibStartRef := calibStartRef r;
     maxEarRef := maxEarRef r; openSamplesRef := openSamplesRef r;
     eyeStateRef := eyeStateRef r; closedFramesRef := closedFramesRef r;
     lastBlinkMsRef := v; lastBlinkAtRef := lastBlinkAtRef r;
     lastAlertAtRef := lastAlertAtRef r; sessionStartRef := sessionStartRef r;
     blinkCountRef := blinkCountRef r; lastBpmUpdateRef := lastBpmUpdateRef r;
     lastNotifAtRef := lastNotifAtRef r; lastAlertOnRef := lastAlertOnRef r |}.

Definition set_lastBlinkAt (v : option Q) (r : Refs) : Refs :=
  {| baselineEarRef := baselineEarRef r; calibStartRef := calibStartRef r;
     maxEarRef := maxEarRef r; openSamplesRef := openSamplesRef r;
     eyeStateRef := eyeStateRef r; closedFramesRef := closedFramesRef r;
     lastBlinkMsRef := lastBlinkMsRef r; lastBlinkAtRef := v;
     lastAlertAtRef := lastAlertAtRef r; sessionStartRef := sessionStartRef r;
     blinkCountRef := blinkCountRef r; lastBpmUpdateRef := lastBpmUpdateRef r;
     lastNotifAtRef := lastNotifAtRef r; lastAlertOnRef := lastAlertOnRef r |}.

Definition set_lastAlertAt (v : Q) (r : Refs) : Refs :=
  {| baselineEarRef := baselineEarRef r; calibStartRef := calibStartRef r;
     maxEarRef := maxEarRef r; openSamplesRef := openSamplesRef r;
     eyeStateRef := eyeStateRef r; closedFramesRef := closedFramesRef r;
     lastBlinkMsRef := lastBlinkMsRef r; lastBlinkAtRef := lastBlinkAtRef r;
     lastAlertAtRef := v; sessionStartRef := sessionStartRef r;
     blinkCountRef := blinkCountRef r; lastBpmUpdateRef := lastBpmUpdateRef r;
     lastNotifAtRef := lastNotifAtRef r; lastAlertOnRef := lastAlertOnRef r |}.

Definition set_sessionStart (v : option Q) (r : Refs) : Refs :=
  {| baselineEarRef := baselineEarRef r; calibStartRef := calibStartRef r;
     maxEarRef := maxEarRef r; openSamplesRef := openSamplesRef r;
     eyeStateRef := eyeStateRef r; closedFramesRef := closedFramesRef r;
     lastBlinkMsRef := lastBlinkMsRef r; lastBlinkAtRef := lastBlinkAtRef r;
     lastAlertAtRef := lastAlertAtRef r; sessionStartRef := v;
     blinkCountRef := blinkCountRef r; lastBpmUpdateRef := lastBpmUpdateRef r;
     lastNotifAtRef := lastNotifAtRef r; lastAlertOnRef := lastAlertOnRef r |}.

Definition set_blinkCount (v : Z) (r : Refs) : Refs :=
  {| baselineEarRef := baselineEarRef r; calibStartRef := calibStartRef r;
     maxEarRef := maxEarRef r; openSamplesRef := openSamplesRef r;
     eyeStateRef := eyeStateRef r; closedFramesRef := closedFramesRef r;
     lastBlinkMsRef := lastBlinkMsRef r; lastBlinkAtRef := lastBlinkAtRef r;
     lastAlertAtRef := lastAlertAtRef r; sessionStartRef := sessionStartRef r;
     blinkCountRef := v; lastBpmUpdateRef := lastBpmUpdateRef r;
     lastNotifAtRef := lastNotifAtRef r; lastAlertOnRef := lastAlertOnRef r |}.

Definition set_lastBpmUpdate (v : Q) (r : Refs) : Refs :=
  {| baselineEarRef := baselineEarRef r; calibStartRef := calibStartRef r;
     maxEarRef := maxEarRef r; openSamplesRef := openSamplesRef r;
     eyeStateRef := eyeStateRef r; closedFramesRef := closedFramesRef r;
     lastBlinkMsRef := lastBlinkMsRef r; lastBlinkAtRef := lastBlinkAtRef r;
     lastAlertAtRef := lastAlertAtRef r; sessionStartRef := sessionStartRef r;
     blinkCountRef := blinkCountRef r; lastBpmUpdateRef := v;
     lastNotifAtRef := lastNotifAtRef r; lastAlertOnRef := lastAlertOnRef r |}.

Definition set_lastNotifAt (v : Q) (r : Refs) : Refs :=
  {| baselineEarRef := baselineEarRef r; calibStartRef := calibStartRef r;
     maxEarRef := maxEarRef r; openSamplesRef := openSamplesRef r;
     eyeStateRef := eyeStateRef r; closedFramesRef := closedFramesRef r;
     lastBlinkMsRef := lastBlinkMsRef r; lastBlinkAtRef := lastBlinkAtRef r;
     lastAlertAtRef := lastAlertAtRef r; sessionStartRef := sessionStartRef r;
     blinkCountRef := blinkCountRef r; lastBpmUpdateRef := lastBpmUpdateRef r;
     lastNotifAtRef := v; lastAlertOnRef := lastAlertOnRef r |}.

Definition set_lastAlertOn (v : bool) (r : Refs) : Refs :=
  {| baselineEarRef := baselineEarRef r; calibStartRef := calibStartRef r;
     maxEarRef := maxEarRef r; openSamplesRef := openSamplesRef r;
     eyeStateRef := eyeStateRef r; closedFramesRef := closedFramesRef r;
     lastBlinkMsRef := lastBlinkMsRef r; lastBlinkAtRef := lastBlinkAtRef r;
     lastAlertAtRef := lastAlertAtRef r; sessionStartRef := sessionStartRef r;
     blinkCountRef := blinkCountRef r; lastBpmUpdateRef := lastBpmUpdateRef r;
     lastNotifAtRef := lastNotifAtRef r; lastAlertOnRef := v |}.

(** ** Tunables *)

Definition NOTIF_COOLDOWN_MS : Q := 5000.
Definition CALIBRATION_MS : Q := 3000.
(** [0.62] and [0.82]: the doubles [0x1.3d70a3d70a3d7p-1] and
    [0x1.a3d70a3d70a3dp-1]. *)
Definition CLOSE_RATIO : Geometry.float :=
  S754_finite false 5584463537939415 (-53).
Definition OPEN_RATIO : Geometry.float :=
  S754_finite false 7385903388887613 (-53).
Definition MIN_CLOSED_FRAMES : Z := 2.
Definition MIN_BLINK_GAP_MS : Q := 350.
Definition ALERT_REPEAT_MS : Q := 2000.
Definition BPM_UPDATE_MS : Q := 400.

(** ** Side effects and handler inputs *)

Inductive Effect : Type :=
| Dispatch (a : Action)
| Beep
| Notify.

(** What [onResults] reads when a face is present: [performance.now()] and
    the averaged EAR of the two eyes, the double [Geometry.curEar] computes
    from the landmarks (any double: it can be NaN or Infinity). *)
Record FrameInput : Type := { f_now : Q; f_ear : Geometry.float }.

(** What a monitor tick reads from its environment: [performance.now()],
    [Date.now()], whether [Notification] exists in [window], and
    [Notification.permission]. *)
Record TickEnv : Type := {
  perfNow : Q;
  dateNow : Q;
  notificationInWindow : bool;
  permission : NotifPermission
}.

(** The render values captured by the closures that [start] installs. *)
Record Closure : Type := {
  cl_noBlinkThreshold : Q;
  cl_notifEnabled : bool;
  cl_mounted : bool
}.

Definition Qlt_bool (a b : Q) : bool :=
  (Qnum a * QDen b <? Qnum b * QDen a)%Z.

Definition isGranted (p : NotifPermission) : bool :=
  match p with PermGranted => true | _ => false end.

(** [!baselineEarRef.current]: true on [null] and on the numbers 0, -0
    and NaN. *)
Definition falsy (v : option Geometry.float) : bool :=
  match v with
  | None => true
  | Some b => Geometry.falsyNumber b
  end.

(** [samples.reduce((a, b) => a + b, 0)]: the sum from the left, each
    addition rounded. *)
Definition reduce_sum (samples : list Geometry.float) : Geometry.float :=
  fold_left Geometry.fadd samples Geometry.pzero.

(** ** The [onResults] callback *)

(** The calibration block, entered while [baselineEarRef.current === null]. *)
Definition calibrationBlock (r : Refs) (now : Q) (curEar : Geometry.float)
  : Refs * list Effect :=
  let r1 := match calibStartRef r with
            | None => set_calibStart (Some now) r
            | Some _ => r
            end in
  let r2 := set_maxEar (Geometry.Math_max (maxEarRef r1) curEar) r1 in
  let r3 := if SFltb (Geometry.fmul (maxEarRef r2) Geometry.lit_0_8) curEar
            then set_openSamples (openSamplesRef r2 ++ [curEar]) r2
            else r2 in
  let started := match calibStartRef r3 with Some c => c | None => now end in
  if Qle_bool CALIBRATION_MS (now - started) then
    let samples := openSamplesRef r3 in
    let baseline := if (0 <? List.length samples)%nat
                    then Geometry.fdiv (reduce_sum samples)
                                       (Geometry.ofLength samples)
                    else maxEarRef r3 in
    (set_lastBlinkAt (Some now) (set_baselineEar (Some baseline) r3),
     [Dispatch CALIBRATION_DONE; Dispatch (SET_SECONDS 0); Dispatch ALERT_OFF])
  else (r3, []).

(** The blink detection state machine. *)
Definition blinkStateMachine (r : Refs) (now : Q)
  (curEar baseline : Geometry.float) : Refs * list Effect :=
  let closeThr := Geometry.fmul baseline CLOSE_RATIO in
  let openThr := Geometry.fmul baseline OPEN_RATIO in
  match eyeStateRef r with
  | OPEN =>
      if SFltb curEar closeThr
      then (set_eyeState CLOSED (set_closedFrames 1%Z r), [])
      else (r, [])
  | CLOSED =>
      let r1 := if SFltb curEar closeThr
                then set_closedFrames (closedFramesRef r + 1)%Z r
                else r in
      if SFltb openThr curEar then
        let longEnough := (MIN_CLOSED_FRAMES <=? closedFramesRef r1)%Z in
        let farEnough := Qle_bool MIN_BLINK_GAP_MS (now - lastBlinkMsRef r1) in
        let '(r2, effs) :=
          if longEnough && farEnough then
            let r' := set_blinkCount (blinkCountRef r1 + 1)%Z r1 in
            (set_lastBlinkAt (Some now) (set_lastBlinkMs now r'),
             [Dispatch (SET_BLINKS (blinkCountRef r'));
              Dispatch (SET_SECONDS 0); Dispatch ALERT_OFF])
          else (r1, []) in
        (set_closedFrames 0%Z (set_eyeState OPEN r2), effs)
      else (r1, [])
  end.

(** Blinks per minute, published at most every [BPM_UPDATE_MS]. *)
Definition blinksPerMinute (r : Refs) (now : Q) : Refs * list Effect :=
  let r1 := match sessionStartRef r with
            | None => set_sessionStart (Some now) r
            | Some _ => r
            end in
  let started := match sessionStartRef r1 with Some s => s | None => now end in
  let minutes := (now - started) / 60000 in
  let bpm := if Qlt_bool 0 minutes
             then inject_Z (blinkCountRef r1) / minutes
             else 0 in
  if Qle_bool BPM_UPDATE_MS (now - lastBpmUpdateRef r1)
  then (set_lastBpmUpdate now r1, [Dispatch (SET_BPM bpm)])
  else (r1, []).

Definition onResults (r : Refs) (res : option FrameInput) : Refs * list Effect :=
  match res with
  | None => (r, [])
  | Some f =>
      match baselineEarRef r with
      | None => calibrationBlock r (f_now f) (f_ear f)
      | Some baseline =>
          let '(r1, effs1) := blinkStateMachine r (f_now f) (f_ear f) baseline in
          let '(r2, effs2) := blinksPerMinute r1 (f_now f) in
          (r2, effs1 ++ effs2)
      end
  end.

(** ** The monitor interval *)

Definition showAlertNotification (cl : Closure) (r : Refs) (env : TickEnv)
  : Refs * list Effect :=
  if negb (cl_notifEnabled cl) then (r, [])
  else if negb (cl_mounted cl) then (r, [])
  else if negb (notificationInWindow env) then (r, [])
  else if negb (isGranted (permission env)) then (r, [])
  else if Qlt_bool (dateNow env - lastNotifAtRef r) NOTIF_COOLDOWN_MS then (r, [])
  else (set_lastNotifAt (dateNow env) r, [Notify]).

Definition monitorTick (cl : Closure) (r : Refs) (env : TickEnv)
  : Refs * list Effect :=
  if falsy (baselineEarRef r) then (r, [])
  else
    let now := perfNow env in
    let last := match lastBlinkAtRef r with Some l => l | None => now end in
    let sec := Qmax 0 ((now - last) / 1000) in
    if Qle_bool (cl_noBlinkThreshold cl) sec then
      let '(r1, notif) :=
        if negb (lastAlertOnRef r)
        then showAlertNotification cl (set_lastAlertOn true r) env
        else showAlertNotification cl r env in
      let '(r2, beeps) :=
        if Qle_bool ALERT_REPEAT_MS (now - lastAlertAtRef r1)
        then (set_lastAlertAt now r1, [Beep])
        else (r1, []) in
      (r2, [Dispatch (SET_SECONDS sec); Dispatch ALERT_ON] ++ notif ++ beeps)
    else
      (set_lastAlertOn false r, [Dispatch (SET_SECONDS sec); Dispatch ALERT_OFF]).

(** ** Sessions: the two handlers interleaved by the event loop *)

Record Session : Type := { refs : Refs; ui : UiState }.

Inductive Event : Type :=
| Results (res : option FrameInput)
| Tick (env : TickEnv).

Definition applyEffect (u : UiState) (e : Effect) : UiState :=
  match e with
  | Dispatch a => reducer u a
  | Beep | Notify => u
  end.

Definition publish (u : UiState) (effs : list Effect) : UiState :=
  fold_left applyEffect effs u.

Definition handle (cl : Closure) (r : Refs) (ev : Event) : Refs * list Effect :=
  match ev with
  | Results res => onResults r res
  | Tick env => monitorTick cl r env
  end.

Definition step (cl : Closure) (s : Session) (ev : Event) : Session :=
  let '(r, effs) := handle cl (refs s) ev in
  {| refs := r; ui := publish (ui s) effs |}.

Definition effectsOf (cl : Closure) (s : Session) (ev : Event) : list Effect :=
  snd (handle cl (refs s) ev).

(** One handler call, with the session before and after it. *)
Record Step : Type := {
  before : Session;
  event : Event;
  effects : list Effect;
  after : Session
}.

Fixpoint run (cl : Closure) (s : Session) (evs : list Event) : list Step :=
  match evs with
  | [] => []
  | ev :: rest =>
      {| before := s; event := ev; effects := effectsOf cl s ev;
         after := step cl s ev |} :: run cl (step cl s ev) rest
  end.

Definition exec (cl : Closure) (s : Session) (evs : list Event) : Session :=
  fold_left (step cl) evs s.

(** The synchronous prefix of [start]: clear the error, reset the refs,
    dispatch [START]. *)
Definition startSession (u : UiState) : Session :=
  {| refs := resetRefs; ui := reducer (reducer u CLEAR_ERROR) START |}.

(** The closures of [start] capture the values of the render it was called
    from. *)
Definition closureOf (u : UiState) (mounted : bool) : Closure :=
  {| cl_noBlinkThreshold := noBlinkThreshold u;
     cl_notifEnabled := notifEnabled u;
     cl_mounted := mounted |}.

(** A blink event is the guarded block that dispatches [SET_BLINKS]. *)
Definition isBlinkDispatch (e : Effect) : bool :=
  match e with Dispatch (SET_BLINKS _) => true | _ => false end.

Definition blinkEmitted (effs : list Effect) : bool := existsb isBlinkDispatch effs.

Definition isBeep (e : Effect) : bool :=
  match e with Beep => true | _ => false end.

Definition isNotify (e : Effect) : bool :=
  match e with Notify => true | _ => false end.

Definition isAlertOn (e : Effect) : bool :=
  match e with Dispatch ALERT_ON => true | _ => false end.

(** The time stamp a handler call reads from [performance.now()], if any. *)
Definition stampOf (ev : Event) : option Q :=
  match ev with
  | Results None => None
  | Results (Some f) => Some (f_now f)
  | Tick env => Some (perfNow env)
  end.

(** [performance.now()] is monotonic: the stamps of successive handler calls
    never decrease, starting from [t]. *)
Fixpoint chronological (t : Q) (evs : list Event) : Prop :=
  match evs with
  | [] => True
  | ev :: rest =>
      match stampOf ev with
      | Some t' => t <= t' /\ chronological t' rest
      | None => chronological t rest
      end
  end.

(** ** Start-up and teardown *)

Definition Track : Type := nat.

(** A media stream, as the list [getTracks()] returns. *)
Definition MediaStream : Type := list Track.

(** The [script] tag for the FaceMesh source as [querySelector] finds it:
    none; one whose [_loaded] flag is set; one without the flag that is
    still loading; one without the flag whose error event has fired.  The
    source never removes a tag, and a tag fires its load or error event
    once: on a failed tag no event fires again. *)
Inductive ScriptTag : Type := NoTag | TagLoaded | TagUnsettled | TagFailed.

(** The resource refs of the page, together with what is live in the
    browser: the script tag, camera tracks not yet stopped, animation-frame
    callbacks requested and not cancelled, interval timers set and not
    cleared. *)
Record Browser : Type := {
  streamRef : option MediaStream;
  rafRef : option Z;
  timerRef : option Z;
  scriptTag : ScriptTag;
  liveTracks : list Track;
  pendingFrames : list Z;
  activeIntervals : list Z
}.

Record Page : Type := {
  p_ui : UiState;
  p_refs : Refs;
  p_browser : Browser
}.

(** A thrown value, as the [catch] block inspects it: [e?.message]. *)
Record Thrown : Type := { message : option string }.

(** How an awaited step ends: it returns, it throws, or its promise never
    settles. *)
Inductive Outcome (A : Type) : Type :=
| Returned (a : A)
| Threw (e : Thrown)
| Pending.

Arguments Returned {A} a.
Arguments Threw {A} e.
Arguments Pending {A}.

(** Which event of the script tag fires once its listeners are attached. *)
Inductive TagEvent : Type := LoadFires | ErrorFires | NothingFires.

(** What the collaborators of [start] answer. *)
Record StartEnv : Type := {
  scriptEvent : TagEvent;
  userMedia : Outcome MediaStream;
  videoReady : bool;
  canvasReady : bool;
  played : Outcome unit;
  context2d : bool;
  faceMeshPresent : bool;
  meshCreated : Outcome unit;
  rafId : Z;
  timerId : Z
}.

(** A computation of the [try] block: it updates the page and returns,
    throws, or stays suspended. *)
Definition Try (A : Type) : Type := Page -> Page * Outcome A.

Definition ret {A : Type} (a : A) : Try A := fun p => (p, Returned a).

Definition throw {A : Type} (e : Thrown) : Try A := fun p => (p, Threw e).

Definition bind {A B : Type} (m : Try A) (k : A -> Try B) : Try B :=
  fun p =>
    match m p with
    | (p', Returned a) => k a p'
    | (p', Threw e) => (p', Threw e)
    | (p', Pending) => (p', Pending)
    end.

Notation "x <- m ;; k" := (bind m (fun x => k))
  (at level 61, m at next level, right associativity).
Notation "m ;;; k" := (bind m (fun _ => k))
  (at level 61, right associativity).

(** [await] of a promise that settles, or not, with the given outcome. *)
Definition await {A : Type} (o : Outcome A) : Try A := fun p => (p, o).

(** [new Error(msg)]. *)
Definition Error (msg : string) : Thrown := {| message := Some msg |}.

Definition modifyBrowser (f : Browser -> Browser) : Try unit :=
  fun p => ({| p_ui := p_ui p; p_refs := p_refs p; p_browser := f (p_browser p) |},
            Returned tt).

Definition faceMeshScript : string :=
  "https://cdn.jsdelivr.net/npm/@mediapipe/face_mesh/face_mesh.js".

Definition assignScriptTag (tag : ScriptTag) (b : Browser) : Browser :=
  {| streamRef := streamRef b; rafRef := rafRef b; timerRef := timerRef b;
     scriptTag := tag; liveTracks := liveTracks b;
     pendingFrames := pendingFrames b;
     activeIntervals := activeIntervals b |}.

(** How the promise of [loadScriptOnce] ends: at once for a tag already
    loaded; never for a failed tag, whose listeners are attached after its
    one error event; otherwise with the event that fires, if any. *)
Definition scriptOutcome (tag : ScriptTag) (ev : TagEvent) (src : string)
  : Outcome unit :=
  match tag, ev with
  | TagLoaded, _ => Returned tt
  | TagFailed, _ => Pending
  | _, LoadFires => Returned tt
  | _, ErrorFires => Threw (Error ("Failed to load " ++ src))
  | _, NothingFires => Pending
  end.

(** [loadScriptOnce]: an existing tag is reused (resolving at once when its
    [_loaded] flag is set, otherwise waiting for its load or error event);
    without one a tag is appended, whose load handler sets the flag.  A tag
    whose load failed stays in the document, without the flag. *)
Definition loadScriptOnce (env : StartEnv) (src : string) : Try unit :=
  fun p =>
    let b := p_browser p in
    let tag' := match scriptTag b, scriptEvent env with
                | TagLoaded, _ => TagLoaded
                | TagFailed, _ => TagFailed
                | _, LoadFires => TagLoaded
                | _, ErrorFires => TagFailed
                | _, NothingFires => TagUnsettled
                end in
    ({| p_ui := p_ui p; p_refs := p_refs p;
        p_browser := assignScriptTag tag' b |},
     scriptOutcome (scriptTag b) (scriptEvent env) src).

(** [getUserMedia] resolving hands out live tracks. *)
Definition getUserMedia (env : StartEnv) : Try MediaStream :=
  fun p =>
    match userMedia env with
    | Returned stream =>
        let b := p_browser p in
        ({| p_ui := p_ui p; p_refs := p_refs p;
            p_browser := {| streamRef := streamRef b; rafRef := rafRef b;
                            timerRef := timerRef b;
                            scriptTag := scriptTag b;
                            liveTracks := stream ++ liveTracks b;
                            pendingFrames := pendingFrames b;
                            activeIntervals := activeIntervals b |} |},
         Returned stream)
    | Threw e => (p, Threw e)
    | Pending => (p, Pending)
    end.

Definition assignStreamRef (stream : MediaStream) (b : Browser) : Browser :=
  {| streamRef := Some stream; rafRef := rafRef b; timerRef := timerRef b;
     scriptTag := scriptTag b;
     liveTracks := liveTracks b; pendingFrames := pendingFrames b;
     activeIntervals := activeIntervals b |}.

Definition requestAnimationFrame (id : Z) (b : Browser) : Browser :=
  {| streamRef := streamRef b; rafRef := Some id; timerRef := timerRef b;
     scriptTag := scriptTag b;
     liveTracks := liveTracks b; pendingFrames := id :: pendingFrames b;
     activeIntervals := activeIntervals b |}.

Definition setInterval (id : Z) (b : Browser) : Browser :=
  {| streamRef := streamRef b; rafRef := rafRef b; timerRef := Some id;
     scriptTag := scriptTag b;
     liveTracks := liveTracks b; pendingFrames := pendingFrames b;
     activeIntervals := id :: activeIntervals b |}.

(** [if (h.current)] on a handle: [null] and 0 are falsy. *)
Definition truthyHandle (h : option Z) : bool :=
  match h with
  | Some id => negb (id =? 0)%Z
  | None => false
  end.

Definition cancelHandle (h : option Z) (live : list Z) : list Z :=
  match h with
  | Some id => if truthyHandle h then remove Z.eq_dec id live else live
  | None => live
  end.

Definition stopTracks (stream : MediaStream) (live : list Track) : list Track :=
  fold_left (fun l t => remove Nat.eq_dec t l) stream live.

Definition cleanupLoopsAndStream (b : Browser) : Browser :=
  {| streamRef := None;
     rafRef := None;
     timerRef := None;
     scriptTag := scriptTag b;
     liveTracks := match streamRef b with
                   | Some stream => stopTracks stream (liveTracks b)
                   | None => liveTracks b
                   end;
     pendingFrames := cancelHandle (rafRef b) (pendingFrames b);
     activeIntervals := cancelHandle (timerRef b) (activeIntervals b) |}.

(** What [stop] does to the page (its audio part is [closeAudio]
    below). *)
Definition stopPage (p : Page) : Page :=
  {| p_ui := reducer (p_ui p) STOP;
     p_refs := p_refs p;
     p_browser := cleanupLoopsAndStream (p_browser p) |}.

(** While [start] is suspended on a promise that takes time to settle the
    page handles other events.  [start] has dispatched START by then, so
    the button reads Stop: a [Meanwhile] says at which of the three awaits
    it is pressed.  (An await on the promise of a script tag already
    loaded resumes in a microtask, before any click.) *)
Record Meanwhile : Type := {
  stopWhileLoading : bool;
  stopWhileAsking : bool;
  stopWhilePlaying : bool
}.

Definition undisturbed : Meanwhile :=
  {| stopWhileLoading := false; stopWhileAsking := false;
     stopWhilePlaying := false |}.

Definition whilePending (pressed : bool) : Try unit :=
  fun p => (if pressed then stopPage p else p, Returned tt).

Definition settlesAtOnce (tag : ScriptTag) : bool :=
  match tag with TagLoaded => true | _ => false end.

(** The body of the [try] block of [start], one await after the other,
    with what happens meanwhile.  It ends by requesting the first
    animation frame of the FaceMesh loop and setting the monitor interval;
    what the loop does when its frame fires, and how it requests the next
    one after [await mesh.send], is [frameFires] and [sendSettles]
    below. *)
Definition setupWith (m : Meanwhile) (env : StartEnv) : Try unit :=
  (fun p =>
     whilePending (stopWhileLoading m
                   && negb (settlesAtOnce (scriptTag (p_browser p)))) p) ;;;
  loadScriptOnce env faceMeshScript ;;;
  whilePending (stopWhileAsking m) ;;;
  stream <- getUserMedia env ;;
  modifyBrowser (assignStreamRef stream) ;;;
  (if negb (videoReady env) || negb (canvasReady env)
   then throw (Error "Video/canvas not ready.")
   else ret tt) ;;;
  whilePending (stopWhilePlaying m) ;;;
  await (played env) ;;;
  (if negb (context2d env)
   then throw (Error "Failed to get canvas 2D context.")
   else ret tt) ;;;
  (if negb (faceMeshPresent env)
   then throw (Error "FaceMesh failed to load (window.FaceMesh missing).")
   else ret tt) ;;;
  await (meshCreated env) ;;;
  modifyBrowser (requestAnimationFrame (rafId env)) ;;;
  modifyBrowser (setInterval (timerId env)).

(** The [try] block when nothing else happens while it waits. *)
Definition setup (env : StartEnv) : Try unit := setupWith undisturbed env.

(** [e?.message ?? "Failed to start."]. *)
Definition messageOf (e : Thrown) : string :=
  match message e with
  | Some m => m
  | None => "Failed to start."
  end.

Definition dispatchPage (a : Action) (p : Page) : Page :=
  {| p_ui := reducer (p_ui p) a; p_refs := p_refs p; p_browser := p_browser p |}.

(** [start]; when an awaited promise never settles the function stays
    suspended and the page is left as it was at that point. *)
Definition startWith (m : Meanwhile) (env : StartEnv) (p : Page) : Page :=
  if negb (agreed (p_ui p)) then p
  else
    let p0 := {| p_ui := reducer (reducer (p_ui p) CLEAR_ERROR) START;
                 p_refs := resetRefs;
                 p_browser := p_browser p |} in
    match setupWith m env p0 with
    | (p1, Returned _) => p1
    | (p1, Pending) => p1
    | (p1, Threw e) =>
        dispatchPage (ERROR (messageOf e))
          {| p_ui := p_ui p1; p_refs := p_refs p1;
             p_browser := cleanupLoopsAndStream (p_browser p1) |}
    end.

(** [start] when nothing else happens while it waits. *)
Definition start (env : StartEnv) (p : Page) : Page :=
  startWith undisturbed env p.

(** ** The FaceMesh loop *)

(** What the loop callback finds when it runs: whether the video and the
    canvas are there, whether the video has data ([readyState === 4]),
    and the handle the next [requestAnimationFrame] returns. *)
Record FrameEnv : Type := {
  elementsPresent : bool;
  haveData : bool;
  nextRaf : Z
}.

(** The page with its loop: [sending] counts the calls of [loop] that are
    suspended in [await mesh.send]. *)
Record Looping : Type := {
  l_page : Page;
  sending : nat
}.

Definition fireFrame (id : Z) (b : Browser) : Browser :=
  {| streamRef := streamRef b; rafRef := rafRef b; timerRef := timerRef b;
     scriptTag := scriptTag b;
     liveTracks := liveTracks b;
     pendingFrames := remove Z.eq_dec id (pendingFrames b);
     activeIntervals := activeIntervals b |}.

Definition onBrowser (f : Browser -> Browser) (p : Page) : Page :=
  {| p_ui := p_ui p; p_refs := p_refs p; p_browser := f (p_browser p) |}.

(** The browser runs the callback the loop requested last, if it is still
    pending (a cancelled request never runs).  The callback returns when
    the video or the canvas is gone; it draws and sends when the video has
    data, and is then suspended; otherwise it requests the next frame at
    once. *)
Definition frameFires (fenv : FrameEnv) (l : Looping) : Looping :=
  match rafRef (p_browser (l_page l)) with
  | None => l
  | Some id =>
      if in_dec Z.eq_dec id (pendingFrames (p_browser (l_page l))) then
        let p1 := onBrowser (fireFrame id) (l_page l) in
        if negb (elementsPresent fenv) then {| l_page := p1; sending := sending l |}
        else if haveData fenv
        then {| l_page := p1; sending := S (sending l) |}
        else {| l_page := onBrowser (requestAnimationFrame (nextRaf fenv)) p1;
                sending := sending l |}
      else l
  end.

(** [mesh.send] settles for one suspended call of [loop]: resolved, the
    call goes on to [rafRef.current = requestAnimationFrame(loop)] with the
    handle [next]; rejected, the call ends there. *)
Definition sendSettles (resolved : bool) (next : Z) (l : Looping) : Looping :=
  match sending l with
  | O => l
  | S n =>
      {| l_page := if resolved
                   then onBrowser (requestAnimationFrame next) (l_page l)
                   else l_page l;
         sending := n |}
  end.

(** What happens to the loop of a running page. *)
Inductive LoopOp : Type :=
| FrameFires (fenv : FrameEnv)
| SendSettles (resolved : bool) (next : Z).

Definition loopStep (l : Looping) (op : LoopOp) : Looping :=
  match op with
  | FrameFires fenv => frameFires fenv l
  | SendSettles resolved next => sendSettles resolved next l
  end.

Definition runLoop (ops : list LoopOp) (l : Looping) : Looping :=
  fold_left loopStep ops l.

(** The handles the browser hands out during [ops]. *)
Definition handlesOf (ops : list LoopOp) : list Z :=
  map (fun op => match op with
                 | FrameFires fenv => nextRaf fenv
                 | SendSettles _ next => next
                 end) ops.

(** The Stop button on a page with its loop: the calls suspended in
    [mesh.send] stay suspended. *)
Definition stopLooping (l : Looping) : Looping :=
  {| l_page := stopPage (l_page l); sending := sending l |}.
(** * Properties of handler calls and runs *)

(** The two thresholds of a baseline, as the page computes them: the
    rounded products [baseline * 0.62] and [baseline * 0.82]. *)
Definition closeThreshold (b : Geometry.float) : Geometry.float :=
  Geometry.fmul b CLOSE_RATIO.

Definition openThreshold (b : Geometry.float) : Geometry.float :=
  Geometry.fmul b OPEN_RATIO.

(** The closed-frame count as the qualification test reads it: the count
    the frame finds, plus one when the frame itself is below the close
    threshold. *)
Definition closedDwell (b : Geometry.float) (r : Refs) (f : FrameInput) : Z :=
  if SFltb (f_ear f) (closeThreshold b)
  then (closedFramesRef r + 1)%Z
  else closedFramesRef r.

(** The frame finds the machine CLOSED and its EAR exceeds the open
    threshold ([curEar > openThr], false when either is NaN). *)
Definition reopens (b : Geometry.float) (r : Refs) (f : FrameInput) : Prop :=
  eyeStateRef r = CLOSED /\ SFltb (openThreshold b) (f_ear f) = true.

(** The reopening frame qualifies as a blink. *)
Definition qualifies (b : Geometry.float) (r : Refs) (f : FrameInput) : Prop :=
  reopens b r f /\
  (MIN_CLOSED_FRAMES <= closedDwell b r f)%Z /\
  MIN_BLINK_GAP_MS <= f_now f - lastBlinkMsRef r.


(** The property of C7 at one handler call. *)
Definition closedCountDiscipline (st : Step) : Prop :=
  let r := refs (before st) in
  let r' := refs (after st) in
  (eyeStateRef r = OPEN -> closedFramesRef r = 0%Z) /\
  (eyeStateRef r' = OPEN -> closedFramesRef r' = 0%Z) /\
  (eyeStateRef r = CLOSED -> eyeStateRef r' = CLOSED ->
   (closedFramesRef r <= closedFramesRef r')%Z).


(** The property of C6 at one handler call that emits a blink. *)
Definition blinkResetsMonitor (st : Step) : Prop :=
  let r := refs (before st) in
  let r' := refs (after st) in
  let u := ui (before st) in
  let u' := ui (after st) in
  (exists f, event st = Results (Some f) /\
             lastBlinkAtRef r' = Some (f_now f) /\
             lastBlinkMsRef r' = f_now f) /\
  blinkCountRef r' = (blinkCountRef r + 1)%Z /\
  blinks u' = blinkCountRef r' /\
  secondsSinceBlink u' = 0 /\
  alertOn u' = false /\
  (secondsSinceBlink u = 0 -> alertOn u = false ->
   secondsSinceBlink u' = secondsSinceBlink u /\ alertOn u' = alertOn u).

(** ** Calibration, in the words of the specification *)

(** The sum of a list of doubles, added in order of arrival starting from
    0, each addition rounded. *)
Fixpoint sum_from (acc : Geometry.float) (l : list Geometry.float)
  : Geometry.float :=
  match l with
  | [] => acc
  | e :: rest => sum_from (Geometry.fadd acc e) rest
  end.

(** The arithmetic mean of a list of samples in binary64: their sum over
    their number, the quotient rounded. *)
Definition arithmetic_mean (l : list Geometry.float) : Geometry.float :=
  Geometry.fdiv (sum_from Geometry.pzero l) (Geometry.ofLength l).

(** The running maximum of the EARs observed so far ([maxEarRef] starts
    at 0); it is NaN from the first NaN on. *)
Definition running_max (ears : list Geometry.float) : Geometry.float :=
  fold_left Geometry.Math_max ears Geometry.pzero.

(** The samples judged open: those above the rounded product of 0.8 and
    the running maximum that includes them, in order of arrival; [m] is
    the running maximum before the first of [ears]. *)
Fixpoint collectFrom (m : Geometry.float) (ears : list Geometry.float)
  : list Geometry.float :=
  match ears with
  | [] => []
  | e :: rest =>
      let m' := Geometry.Math_max m e in
      (if SFltb (Geometry.fmul m' Geometry.lit_0_8) e then [e] else [])
      ++ collectFrom m' rest
  end.

Definition open_samples (ears : list Geometry.float) : list Geometry.float :=
  collectFrom Geometry.pzero ears.

(** The EARs and the time stamps of the frames that carried a face. *)
Definition faceEars (evs : list Event) : list Geometry.float :=
  flat_map (fun ev => match ev with
                      | Results (Some f) => [f_ear f]
                      | _ => []
                      end) evs.

Definition faceStamps (evs : list Event) : list Q :=
  flat_map (fun ev => match ev with
                      | Results (Some f) => [f_now f]
                      | _ => []
                      end) evs.

Definition isCalibrationDone (e : Effect) : bool :=
  match e with Dispatch CALIBRATION_DONE => true | _ => false end.

(** How many handler calls of a run completed the calibration. *)
Definition calibrationsDone (steps : list Step) : nat :=
  List.length (filter (fun st => existsb isCalibrationDone (effects st)) steps).

(** ** The alert flag *)

(** The seconds a monitor tick computes: [Math.max(0, (now - last) / 1000)]
    with [last = lastBlinkAtRef.current ?? now]. *)
Definition secondsSince (r : Refs) (env : TickEnv) : Q :=
  Qmax 0 ((perfNow env
           - match lastBlinkAtRef r with Some l => l | None => perfNow env end)
          / 1000).






(** ** A sample session

    Threshold 5 s.  Two frames calibrate a baseline of 0.30 (the second
    one 3000 ms after the first), the monitor ticks, no blink comes for
    5 s, then the eye closes for two frames and reopens. *)

(** The doubles [0.3], [0.1], [1], [0.5], [0.15], [0.12], [0.28], [0.2]
    and [0.32]. *)
Definition ear_0_3 : Geometry.float := S754_finite false 5404319552844595 (-54).
Definition ear_0_1 : Geometry.float := S754_finite false 7205759403792794 (-56).
Definition ear_1 : Geometry.float := S754_finite false 4503599627370496 (-52).
Definition ear_0_5 : Geometry.float := S754_finite false 4503599627370496 (-53).
Definition ear_0_15 : Geometry.float := S754_finite false 5404319552844595 (-55).
Definition ear_0_12 : Geometry.float := S754_finite false 8646911284551352 (-56).
Definition ear_0_28 : Geometry.float := S754_finite false 5044031582654956 (-54).
Definition ear_0_2 : Geometry.float := S754_finite false 7205759403792794 (-55).

Definition sampleUi : UiState :=
  reducer (reducer initialState (SET_THRESHOLD 5)) AGREE.

Definition sampleClosure : Closure := closureOf sampleUi true.

Definition sampleTick (now : Q) : Event :=
  Tick {| perfNow := now; dateNow := 1700000000000 + now;
          notificationInWindow := true; permission := PermGranted |}.

Definition sampleFrame (now : Q) (ear : Geometry.float) : Event :=
  Results (Some {| f_now := now; f_ear := ear |}).

Definition sampleEvents : list Event :=
  [sampleFrame 0 ear_0_3;
   sampleTick 100;
   sampleFrame 3000 ear_0_3;
   sampleTick 3100;
   sampleTick 8000;
   sampleFrame 8033 ear_0_1;
   sampleFrame 8066 ear_0_1;
   sampleFrame 8099 ear_0_3;
   sampleTick 8100].

(** ** Beeps and notifications *)

(** The [Date.now()] readings at which a notification fired, in order. *)
Definition notifyTimes (steps : list Step) : list Q :=
  flat_map (fun st => match event st with
                      | Tick env =>
                          if existsb isNotify (effects st) then [dateNow env] else []
                      | Results _ => []
                      end) steps.

(** The [performance.now()] readings at which a beep fired, in order. *)
Definition beepTimes (steps : list Step) : list Q :=
  flat_map (fun st => match event st with
                      | Tick env =>
                          if existsb isBeep (effects st) then [perfNow env] else []
                      | Results _ => []
                      end) steps.

(** Any two of the times, taken in order, are at least [gap] apart. *)
Definition spaced (gap : Q) (times : list Q) : Prop :=
  ForallOrdPairs (fun a b => gap <= b - a) times.

(** A handler call that beeps or notifies is a tick that dispatched
    ALERT_ON before, and leaves the flag true. *)
Definition alertedFirst (st : Step) : Prop :=
  existsb isBeep (effects st) || existsb isNotify (effects st) = true ->
  (exists env, event st = Tick env) /\
  (exists sec rest,
     effects st = Dispatch (SET_SECONDS sec) :: Dispatch ALERT_ON :: rest /\
     existsb isAlertOn rest = false) /\
  alertOn (ui (after st)) = true.

(** When a tick beeps, and when it notifies: each decision reads its own
    time stamp cell and its own clock. *)
Definition beepDecision (cl : Closure) (r : Refs) (env : TickEnv) : bool :=
  negb (falsy (baselineEarRef r))
  && Qle_bool (cl_noBlinkThreshold cl) (secondsSince r env)
  && Qle_bool ALERT_REPEAT_MS (perfNow env - lastAlertAtRef r).

Definition notifyDecision (cl : Closure) (r : Refs) (env : TickEnv) : bool :=
  negb (falsy (baselineEarRef r))
  && Qle_bool (cl_noBlinkThreshold cl) (secondsSince r env)
  && (cl_notifEnabled cl && cl_mounted cl && notificationInWindow env
      && isGranted (permission env))
  && Qle_bool NOTIF_COOLDOWN_MS (dateNow env - lastNotifAtRef r).

Definition independentCooldowns (cl : Closure) (st : Step) : Prop :=
  match event st with
  | Tick env =>
      existsb isBeep (effects st) = beepDecision cl (refs (before st)) env /\
      existsb isNotify (effects st) = notifyDecision cl (refs (before st)) env
  | Results _ =>
      existsb isBeep (effects st) = false /\
      existsb isNotify (effects st) = false
  end.

(** ** A zero baseline *)

(** What the frames dispatch once the baseline is set. *)
Definition quietEffect (e : Effect) : bool :=
  match e with
  | Dispatch (SET_BLINKS _) | Dispatch (SET_BPM _)
  | Dispatch (SET_SECONDS _) | Dispatch ALERT_OFF => true
  | _ => false
  end.

(** The property of C10 at one handler call: a tick does nothing at all
    (it publishes no seconds), no call raises the alert, beeps or
    notifies, and the published flags [calibrating] and [alertOn] are
    false afterwards. *)
Definition monitorSilenced (st : Step) : Prop :=
  (forall env, event st = Tick env ->
               effects st = [] /\ after st = before st) /\
  existsb isAlertOn (effects st) = false /\
  existsb isBeep (effects st) = false /\
  existsb isNotify (effects st) = false /\
  calibrating (ui (after st)) = false /\
  alertOn (ui (after st)) = false.

(** ** A failed start *)

(** The page [start] works on after its synchronous prefix. *)
Definition started (p : Page) : Page :=
  {| p_ui := reducer (reducer (p_ui p) CLEAR_ERROR) START;
     p_refs := resetRefs;
     p_browser := p_browser p |}.

(** Nothing is left running: the three resource refs are null, no track of
    the stream held at the time of the failure is live, the handles the
    refs held are cancelled, and no new loop or timer was left behind. *)
Definition tornDown (held before after : Browser) : Prop :=
  streamRef after = None /\ rafRef after = None /\ timerRef after = None /\
  (forall stream t, streamRef held = Some stream -> In t stream ->
                    ~ In t (liveTracks after)) /\
  (forall id, rafRef held = Some id -> id <> 0%Z ->
              ~ In id (pendingFrames after)) /\
  (forall id, timerRef held = Some id -> id <> 0%Z ->
              ~ In id (activeIntervals after)) /\
  incl (pendingFrames after) (pendingFrames before) /\
  incl (activeIntervals after) (activeIntervals before).

(** How the acquisition phase ends, step by step in program order: with
    what the first step that does not return throws, suspended on it, or
    returned. *)
Definition acquisition (tag : ScriptTag) (env : StartEnv) : Outcome unit :=
  match scriptOutcome tag (scriptEvent env) faceMeshScript with
  | Threw e => Threw e
  | Pending => Pending
  | Returned _ =>
      match userMedia env with
      | Threw e => Threw e
      | Pending => Pending
      | Returned _ =>
          if negb (videoReady env) || negb (canvasReady env)
          then Threw (Error "Video/canvas not ready.")
          else match played env with
               | Threw e => Threw e
               | Pending => Pending
               | Returned _ =>
                   if negb (context2d env)
                   then Threw (Error "Failed to get canvas 2D context.")
                   else if negb (faceMeshPresent env)
                   then Threw (Error "FaceMesh failed to load (window.FaceMesh missing).")
                   else meshCreated env
               end
      end
  end.

(** A page after consent, with nothing acquired and one foreign track
    live. *)
Definition idleBrowser : Browser :=
  {| streamRef := None; rafRef := None; timerRef := None; scriptTag := NoTag;
     liveTracks := [3%nat]; pendingFrames := []; activeIntervals := [] |}.

Definition consentedPage : Page :=
  {| p_ui := reducer initialState AGREE; p_refs := resetRefs;
     p_browser := idleBrowser |}.


(** * Further definitions: what else the handlers guarantee *)

(** ** Blink events of a run *)

(** The [performance.now()] readings of the frames that emitted a blink, in
    order. *)
Definition blinkTimes (steps : list Step) : list Q :=
  flat_map (fun st => match event st with
                      | Results (Some f) =>
                          if blinkEmitted (effects st) then [f_now f] else []
                      | _ => []
                      end) steps.

(** How many handler calls of a run emitted a blink. *)
Definition blinkEvents (steps : list Step) : nat :=
  List.length (filter (fun st => blinkEmitted (effects st)) steps).

(** What the two handlers can do at all: the six dispatches below, a beep,
    a notification. *)
Definition handlerEffect (e : Effect) : bool :=
  match e with
  | Dispatch CALIBRATION_DONE | Dispatch (SET_BLINKS _) | Dispatch (SET_BPM _)
  | Dispatch (SET_SECONDS _) | Dispatch ALERT_ON | Dispatch ALERT_OFF => true
  | Beep | Notify => true
  | Dispatch _ => false
  end.

(** ** The published rate *)

Definition bpmOf (e : Effect) : list Q :=
  match e with Dispatch (SET_BPM bpm) => [bpm] | _ => [] end.

(** The rates a handler call published. *)
Definition bpmPublished (effs : list Effect) : list Q := flat_map bpmOf effs.

(** The [performance.now()] readings of the frames that published a rate,
    in order. *)
Definition bpmTimes (steps : list Step) : list Q :=
  flat_map (fun st => match event st with
                      | Results (Some f) =>
                          match bpmPublished (effects st) with
                          | [] => []
                          | _ :: _ => [f_now f]
                          end
                      | _ => []
                      end) steps.

(** ** The published flags of a running session *)

(** The session is shown as running without an error, and as calibrating
    exactly while the baseline is unset. *)
Definition flagsConsistent (s : Session) : Prop :=
  running (ui s) = true /\
  error (ui s) = None /\
  (calibrating (ui s) = true <-> baselineEarRef (refs s) = None) /\
  (alertOn (ui s) = true -> calibrating (ui s) = false).

(** The property of the published rate at one handler call: what is
    published is not negative, and so is the rate shown afterwards. *)
Definition rateNonNegative (st : Step) : Prop :=
  Forall (Qle 0) (bpmPublished (effects st)) /\
  0 <= blinksPerMin (ui (after st)).

(** ** Hysteresis *)

(** An EAR that the two tests of the machine both turn down: it is not
    below the close threshold of the baseline [b] and not above the open
    threshold, as the page computes and compares them. *)
Definition inBand (b : Geometry.float) (f : FrameInput) : Prop :=
  SFltb (f_ear f) (closeThreshold b) = false /\
  SFltb (openThreshold b) (f_ear f) = false.

(** ** The monitor's clock *)





(** ** What the page renders from the published state *)

(** [statusText]; the error text is tested for truthiness, so the empty
    string counts as no error. *)
Definition statusText (u : UiState) : string :=
  let noError :=
    (if negb (running u) then "Press Start to begin."
     else if calibrating u
          then "Calibrating… keep your eyes open for a few seconds."
          else if alertOn u
               then "BLINK! (alert repeats until you blink)"
               else "Monitoring…")%string in
  match error u with
  | Some EmptyString => noError
  | Some e => ("Error: " ++ e)%string
  | None => noError
  end.

(** The condition under which the alarm overlay is rendered. *)
Definition overlayShown (u : UiState) : bool :=
  running u && negb (calibrating u) && alertOn u.

(** The published state after a sequence of dispatches. *)
Definition dispatchAll (u : UiState) (acts : list Action) : UiState :=
  fold_left reducer acts u.

(** An error is only shown on a page that does not run. *)
Definition errorMeansStopped (u : UiState) : Prop :=
  error u <> None -> running u = false.

(** ** Settings *)

Definition thresholdSet (a : Action) : option Q :=
  match a with SET_THRESHOLD seconds => Some seconds | _ => None end.

Definition notifEnabledSet (a : Action) : option bool :=
  match a with SET_NOTIF_ENABLED enabled => Some enabled | _ => None end.

Definition notifPermissionSet (a : Action) : option NotifPermission :=
  match a with SET_NOTIF_PERMISSION perm => Some perm | _ => None end.

Definition isAgree (a : Action) : bool :=
  match a with AGREE => true | _ => false end.

(** The value a setting has after [acts] when only the actions picked by
    [f] write it: the last one written, or the value [d] it had. *)
Fixpoint lastSet {A : Type} (f : Action -> option A) (acts : list Action) (d : A) : A :=
  match acts with
  | [] => d
  | a :: rest => lastSet f rest (match f a with Some v => v | None => d end)
  end.

(** ** Sound *)

(** What happens to audio contexts, as the browser sees it; contexts are
    numbered in the order of their construction. *)
Inductive AudioEvent : Type :=
| ContextCreated (c : nat)
| ResumeCalled (c : nat)
| ToneStarted (c : nat)
| ContextClosed (c : nat).

(** [audioCtxRef], the number of contexts constructed so far, and the
    audio events so far, newest first. *)
Record Audio : Type := {
  audioCtxRef : option nat;
  constructed : nat;
  audioLog : list AudioEvent
}.

Definition initialAudio : Audio :=
  {| audioCtxRef := None; constructed := 0; audioLog := [] |}.

(** What a call of [beep] finds: whether the window has an [AudioContext]
    constructor, and whether the context in use is suspended.  The
    constructor and the oscillator calls are taken to return; [resume] and
    [close] are fire-and-forget in the source. *)
Record BeepEnv : Type := {
  audioCtxAvailable : bool;
  ctxSuspended : bool
}.

Definition beep (env : BeepEnv) (a : Audio) : Audio :=
  if negb (audioCtxAvailable env) then a
  else
    let '(ctx, a1) :=
      match audioCtxRef a with
      | Some c => (c, a)
      | None =>
          (constructed a,
           {| audioCtxRef := Some (constructed a);
              constructed := S (constructed a);
              audioLog := ContextCreated (constructed a) :: audioLog a |})
      end in
    let log1 := if ctxSuspended env
                then ResumeCalled ctx :: audioLog a1
                else audioLog a1 in
    {| audioCtxRef := audioCtxRef a1;
       constructed := constructed a1;
       audioLog := ToneStarted ctx :: log1 |}.

(** The audio part of [stop]. *)
Definition closeAudio (a : Audio) : Audio :=
  match audioCtxRef a with
  | Some c =>
      {| audioCtxRef := None; constructed := constructed a;
         audioLog := ContextClosed c :: audioLog a |}
  | None => a
  end.

(** ** Stopping *)

(** The page together with its audio. *)
Record App : Type := {
  page : Page;
  audio : Audio
}.

Definition stop (a : App) : App :=
  {| page := stopPage (page a);
     audio := closeAudio (audio a) |}.

(** The [visibilitychange] listener; [hidden] is [document.hidden]. *)
Definition onVis (hidden : bool) (a : App) : App :=
  if hidden && running (p_ui (page a)) then stop a else a.

(** What can happen to the audio of the page: an alarm beep, or a stop. *)
Inductive AudioOp : Type :=
| OpBeep (env : BeepEnv)
| OpStop.

Definition audioStep (a : Audio) (op : AudioOp) : Audio :=
  match op with
  | OpBeep env => beep env a
  | OpStop => closeAudio a
  end.

(** Replays audio events in the order they happened, starting with the
    context [open] (if any) open: a context is only created when none is
    open, and only the open context is resumed, played on or closed.  The
    result is the context open at the end, or [None] when the events break
    that discipline. *)
Fixpoint audioDiscipline (open : option nat) (chron : list AudioEvent)
  : option (option nat) :=
  match chron with
  | [] => Some open
  | ContextCreated c :: rest =>
      match open with
      | None => audioDiscipline (Some c) rest
      | Some _ => None
      end
  | ResumeCalled c :: rest | ToneStarted c :: rest =>
      match open with
      | Some o => if (c =? o)%nat then audioDiscipline open rest else None
      | None => None
      end
  | ContextClosed c :: rest =>
      match open with
      | Some o => if (c =? o)%nat then audioDiscipline None rest else None
      | None => None
      end
  end.

(** The tones in a log. *)
Definition tonesStarted (log : list AudioEvent) : nat :=
  List.length (filter (fun e => match e with ToneStarted _ => true | _ => false end) log).

(** The beeps among [ops] that found an [AudioContext] constructor. *)
Definition audibleBeeps (ops : list AudioOp) : nat :=
  List.length (filter (fun op => match op with
                                 | OpBeep env => audioCtxAvailable env
                                 | OpStop => false
                                 end) ops).

(** ** A start that goes through *)

(** The browser once [start] has gone through with the stream [stream]. *)
Definition runningBrowser (env : StartEnv) (stream : MediaStream) (b : Browser)
  : Browser :=
  {| streamRef := Some stream;
     rafRef := Some (rafId env);
     timerRef := Some (timerId env);
     scriptTag := TagLoaded;
     liveTracks := stream ++ liveTracks b;
     pendingFrames := rafId env :: pendingFrames b;
     activeIntervals := timerId env :: activeIntervals b |}.

(** An environment in which every step of [start] goes through. *)
Definition goodEnv : StartEnv :=
  {| scriptEvent := LoadFires;
     userMedia := Returned [7%nat; 8%nat];
     videoReady := true; canvasReady := true;
     played := Returned tt; context2d := true;
     faceMeshPresent := true; meshCreated := Returned tt;
     rafId := 1; timerId := 2 |}.

(** An environment in which the camera prompt is never answered. *)
Definition promptIgnoredEnv : StartEnv :=
  {| scriptEvent := LoadFires;
     userMedia := Pending;
     videoReady := true; canvasReady := true;
     played := Returned tt; context2d := true;
     faceMeshPresent := true; meshCreated := Returned tt;
     rafId := 1; timerId := 2 |}.

(** An environment in which the script fails to load. *)
Definition scriptFailsEnv : StartEnv :=
  {| scriptEvent := ErrorFires;
     userMedia := Returned [7%nat; 8%nat];
     videoReady := true; canvasReady := true;
     played := Returned tt; context2d := true;
     faceMeshPresent := true; meshCreated := Returned tt;
     rafId := 1; timerId := 2 |}.

(** An environment in which the camera fails with an error whose message
    is the empty string. *)
Definition silentFailureEnv : StartEnv :=
  {| scriptEvent := LoadFires;
     userMedia := Threw {| message := Some EmptyString |};
     videoReady := true; canvasReady := true;
     played := Returned tt; context2d := true;
     faceMeshPresent := true; meshCreated := Returned tt;
     rafId := 1; timerId := 2 |}.

(** The handles [hs] are usable for the loop next to the frame requests
    [foreign] of others: none is 0 and none is among them. *)
Definition freshHandles (foreign hs : list Z) : Prop :=
  Forall (fun h => h <> 0%Z /\ ~ In h foreign) hs.

(** ** The loop of a running page *)

(** What holds of the page [l] while its loop runs, from a [start] on the
    page [p] that went through with the stream [stream] until the next
    Stop: the stream and the interval are in place, [rafRef] holds the
    handle [h] the loop requested last, and either that request is pending
    and no call is suspended in [mesh.send], or it has fired and at most
    one call is. *)
Definition loopInv (env : StartEnv) (stream : MediaStream) (p : Page)
  (l : Looping) : Prop :=
  let b := p_browser (l_page l) in
  let b0 := p_browser p in
  p_ui (l_page l) = reducer (reducer (p_ui p) CLEAR_ERROR) START /\
  streamRef b = Some stream /\
  timerRef b = Some (timerId env) /\
  liveTracks b = stream ++ liveTracks b0 /\
  activeIntervals b = timerId env :: activeIntervals b0 /\
  exists h,
    rafRef b = Some h /\ h <> 0%Z /\ ~ In h (pendingFrames b0) /\
    ((pendingFrames b = h :: pendingFrames b0 /\ sending l = 0%nat) \/
     (pendingFrames b = pendingFrames b0 /\ (sending l <= 1)%nat)).

(** Whether a press of Stop during [start] comes while [start] is
    suspended: at the first await only when the script is not loaded
    yet. *)
Definition stopPressed (m : Meanwhile) (tag : ScriptTag) : bool :=
  (stopWhileLoading m && negb (settlesAtOnce tag))
  || stopWhileAsking m || stopWhilePlaying m.
(** * Properties *)

(** ** Binary64: what rounding keeps *)

Module Binary64.
Import Geometry.
Local Open Scope Z_scope.

Lemma digits2_log2 (p : positive) : Z.pos (digits2_pos p) = Z.log2 (Z.pos p) + 1.
Proof.
  induction p as [p IH | p IH |]; simpl.
  - rewrite Pos2Z.inj_succ, IH. destruct p; simpl; lia.
  - rewrite Pos2Z.inj_succ, IH. destruct p; simpl; lia.
  - reflexivity.
Qed.

Lemma Zdigits2_log2 (m : Z) : 0 < m -> Zdigits2 m = Z.log2 m + 1.
Proof. destruct m; try lia. intros _. apply digits2_log2. Qed.

Lemma Zdigits2_nonneg (m : Z) : 0 <= Zdigits2 m.
Proof. destruct m; simpl; lia. Qed.

Lemma Zdigits2_bounds (m : Z) :
  0 < m -> 2 ^ (Zdigits2 m - 1) <= m < 2 ^ Zdigits2 m.
Proof.
  intros Hm. rewrite (Zdigits2_log2 Hm).
  replace (Z.log2 m + 1 - 1) with (Z.log2 m) by lia.
  replace (Z.log2 m + 1) with (Z.succ (Z.log2 m)) by lia.
  apply Z.log2_spec. exact Hm.
Qed.

Lemma Zdigits2_le (m d : Z) : 0 <= m -> 0 <= d -> m < 2 ^ d -> Zdigits2 m <= d.
Proof.
  intros Hm Hd Hlt.
  destruct (Z.eq_dec m 0) as [-> | Hne]; [simpl; lia |].
  assert (Hpos : 0 < m) by lia.
  rewrite (Zdigits2_log2 Hpos).
  assert (Z.log2 m < d); [| lia].
  apply Z.log2_lt_pow2; assumption.
Qed.

Lemma Zdigits2_ge (m d : Z) : 0 <= d -> 2 ^ d <= m -> d + 1 <= Zdigits2 m.
Proof.
  intros Hd Hle.
  assert (Hpos : 0 < m) by (pose proof (Z.pow_pos_nonneg 2 d); lia).
  rewrite (Zdigits2_log2 Hpos).
  assert (d <= Z.log2 m); [| lia].
  apply Z.log2_le_pow2; assumption.
Qed.

Lemma Zdigits2_div_pow2 (m n : Z) :
  0 < m -> 0 <= n -> 0 < m / 2 ^ n -> Zdigits2 (m / 2 ^ n) = Zdigits2 m - n.
Proof.
  intros Hm Hn Hq.
  rewrite (Zdigits2_log2 Hq), (Zdigits2_log2 Hm).
  rewrite <- Z.shiftr_div_pow2 by exact Hn.
  rewrite Z.log2_shiftr by exact Hm.
  assert (Hge : 2 ^ n <= m).
  { destruct (Z_lt_le_dec m (2 ^ n)) as [Hlt | Hle]; [| exact Hle].
    rewrite Z.div_small in Hq by lia. lia. }
  assert (n <= Z.log2 m) by (apply Z.log2_le_pow2; assumption).
  lia.
Qed.

Lemma Zdigits2_div_pow2_le (m n : Z) :
  0 <= m -> 0 <= n -> Zdigits2 (m / 2 ^ n) <= Z.max 0 (Zdigits2 m - n).
Proof.
  intros Hm Hn.
  assert (H2 : 0 < 2 ^ n) by (apply Z.pow_pos_nonneg; lia).
  destruct (Z.eq_dec (m / 2 ^ n) 0) as [-> | Hne]; [simpl; lia |].
  assert (Hq : 0 < m / 2 ^ n).
  { pose proof (Z.div_pos m (2 ^ n) Hm H2). lia. }
  assert (Hpos : 0 < m).
  { destruct (Z.eq_dec m 0) as [-> | ?]; [rewrite Z.div_0_l in Hq; lia | lia]. }
  rewrite (Zdigits2_div_pow2 Hpos Hn Hq). lia.
Qed.

Lemma Zdigits2_succ (m : Z) : 0 <= m -> Zdigits2 (m + 1) <= Zdigits2 m + 1.
Proof.
  intros Hm. destruct (Z.eq_dec m 0) as [-> | Hne]; [simpl; lia |].
  assert (Hpos : 0 < m) by lia.
  pose proof (Zdigits2_bounds Hpos) as [_ Hlt].
  pose proof (Zdigits2_nonneg m).
  apply Zdigits2_le; try lia.
  rewrite Z.pow_add_r by lia. lia.
Qed.

Lemma Zdigits2_mono (a b : Z) : 0 <= a -> a <= b -> Zdigits2 a <= Zdigits2 b.
Proof.
  intros Ha Hab.
  destruct (Z.eq_dec a 0) as [-> | Hne]; [apply Zdigits2_nonneg |].
  rewrite (@Zdigits2_log2 a), (@Zdigits2_log2 b) by lia.
  pose proof (Z.log2_le_mono a b Hab). lia.
Qed.

(** shr *)
Lemma shr_1_m (mrs : shr_record) : 0 <= shr_m mrs -> shr_m (shr_1 mrs) = shr_m mrs / 2.
Proof.
  destruct mrs as [m r s]. simpl. intros Hm.
  destruct m as [| [p | p |] | p]; try lia; simpl.
  - reflexivity.
  - apply Z.div_unique with 1; lia.
  - apply Z.div_unique with 0; lia.
  - reflexivity.
Qed.

Lemma shr_1_nonneg (mrs : shr_record) : 0 <= shr_m mrs -> 0 <= shr_m (shr_1 mrs).
Proof.
  intros H. rewrite shr_1_m by exact H. apply Z.div_pos; lia.
Qed.

Lemma iter_pos_shr_1_m (p : positive) (mrs : shr_record) :
  0 <= shr_m mrs ->
  shr_m (iter_pos shr_1 p mrs) = shr_m mrs / 2 ^ Z.pos p /\
  0 <= shr_m (iter_pos shr_1 p mrs).
Proof.
  revert mrs. induction p as [p IH | p IH |]; intros mrs Hm; cbn [iter_pos].
  - destruct (IH (shr_1 mrs) (shr_1_nonneg _ Hm)) as [E1 N1].
    destruct (IH _ N1) as [E2 N2].
    split; [| exact N2].
    rewrite E2, E1, shr_1_m by exact Hm.
    replace (Z.pos p~1) with (1 + Z.pos p + Z.pos p) by lia.
    rewrite !Z.pow_add_r by lia.
    rewrite !Z.div_div by (try apply Z.pow_pos_nonneg; lia).
    f_equal. change (2 ^ 1) with 2. lia.
  - destruct (IH mrs Hm) as [E1 N1].
    destruct (IH _ N1) as [E2 N2].
    split; [| exact N2].
    rewrite E2, E1.
    replace (Z.pos p~0) with (Z.pos p + Z.pos p) by lia.
    rewrite !Z.pow_add_r by lia.
    rewrite !Z.div_div by (try apply Z.pow_pos_nonneg; lia).
    reflexivity.
  - split; [| apply shr_1_nonneg; exact Hm].
    rewrite shr_1_m by exact Hm. reflexivity.
Qed.

Lemma shr_record_of_loc_m (m : Z) (l : location) : shr_m (shr_record_of_loc m l) = m.
Proof. destruct l as [| []]; reflexivity. Qed.

(** What [shr_fexp] returns: the mantissa divided by the power of two
    that brings the exponent to [fexp]. *)
Lemma shr_fexp_spec (m e : Z) (l : location) :
  0 <= m ->
  let n := Z.max 0 (fexp prec emax (Zdigits2 m + e) - e) in
  shr_m (fst (shr_fexp prec emax m e l)) = m / 2 ^ n /\
  snd (shr_fexp prec emax m e l) = e + n.
Proof.
  intros Hm n. unfold shr_fexp, shr. subst n.
  destruct (fexp prec emax (Zdigits2 m + e) - e) as [| p | p] eqn:Hn.
  - simpl. rewrite shr_record_of_loc_m, Z.div_1_r. split; [reflexivity | lia].
  - cbn [fst snd].
    destruct (@iter_pos_shr_1_m p (shr_record_of_loc m l)) as [E _].
    { rewrite shr_record_of_loc_m. exact Hm. }
    rewrite E, shr_record_of_loc_m.
    replace (Z.max 0 (Z.pos p)) with (Z.pos p) by lia. split; reflexivity.
  - simpl. rewrite shr_record_of_loc_m, Z.div_1_r. split; [reflexivity | lia].
Qed.

Lemma round_nearest_even_bounds (m : Z) (l : location) :
  m <= round_nearest_even m l <= m + 1.
Proof.
  destruct l as [| []]; simpl; try lia. destruct (Z.even m); lia.
Qed.

Lemma fexp_eq (x : Z) : fexp prec emax x = Z.max (x - 53) (-1074).
Proof. reflexivity. Qed.

Lemma div_pow2_zero_digits (m n : Z) :
  0 <= m -> 0 <= n -> m / 2 ^ n = 0 -> Zdigits2 m <= n.
Proof.
  intros Hm Hn Hz.
  assert (H2 : 0 < 2 ^ n) by (apply Z.pow_pos_nonneg; lia).
  apply Zdigits2_le; try assumption.
  destruct (Z_lt_le_dec m (2 ^ n)) as [Hlt | Hle]; [exact Hlt |].
  pose proof (Z.div_le_mono (2 ^ n) m (2 ^ n) H2 Hle) as Hd.
  rewrite Z.div_same in Hd by lia. lia.
Qed.

Lemma binary_round_aux_spec (s : bool) (M E : Z) (l : location) :
  0 <= M ->
  E <= fexp prec emax (Zdigits2 M + E) ->
  valid_binary prec emax (binary_round_aux prec emax s M E l) = true /\
  forall k, Zdigits2 M + E <= k -> -1074 <= k -> k < 1024 ->
            magBelow (k + 1) (binary_round_aux prec emax s M E l) = true.
Proof.
  intros HM Hpre. unfold binary_round_aux.
  pose proof (@shr_fexp_spec M E l HM) as [Hm1 He1].
  destruct (shr_fexp prec emax M E l) as [mrs1 e1]. cbn [fst snd] in Hm1, He1.
  set (m2 := round_nearest_even (shr_m mrs1) (loc_of_shr_record mrs1)).
  assert (Hm2 : shr_m mrs1 <= m2 <= shr_m mrs1 + 1)
    by apply round_nearest_even_bounds.
  remember (Z.max 0 (fexp prec emax (Zdigits2 M + E) - E)) as n1 eqn:En1.
  assert (Hn1 : 0 <= n1) by lia.
  assert (H2n1 : 0 < 2 ^ n1) by (apply Z.pow_pos_nonneg; lia).
  assert (Hmm1 : 0 <= shr_m mrs1) by (rewrite Hm1; apply Z.div_pos; lia).
  assert (H0m2 : 0 <= m2) by lia.
  pose proof (@shr_fexp_spec m2 e1 loc_Exact H0m2) as [Hm3 He3].
  destruct (shr_fexp prec emax m2 e1 loc_Exact) as [mrs3 e3].
  cbn [fst snd] in Hm3, He3.
  remember (Z.max 0 (fexp prec emax (Zdigits2 m2 + e1) - e1)) as n2 eqn:En2.
  assert (Hn2 : 0 <= n2) by lia.
  assert (H2n2 : 0 < 2 ^ n2) by (apply Z.pow_pos_nonneg; lia).
  rewrite !fexp_eq in *.
  (* digits of the shifted mantissa *)
  assert (Hd1 : Zdigits2 (shr_m mrs1) <= Z.max 0 (Zdigits2 M - n1)).
  { rewrite Hm1. apply Zdigits2_div_pow2_le; lia. }
  assert (Hd1' : 0 < shr_m mrs1 -> Zdigits2 (shr_m mrs1) = Zdigits2 M - n1).
  { intros Hpos. rewrite Hm1 in *. apply Zdigits2_div_pow2; try lia.
    destruct (Z.eq_dec M 0) as [-> | ?]; [rewrite Z.div_0_l in Hpos; lia | lia]. }
  assert (Hd1z : shr_m mrs1 = 0 -> Zdigits2 M <= n1).
  { intros Hz. rewrite Hm1 in Hz. apply div_pow2_zero_digits; lia. }
  assert (Hd2 : Zdigits2 m2 <= Zdigits2 (shr_m mrs1) + 1).
  { etransitivity; [apply (@Zdigits2_mono m2 (shr_m mrs1 + 1)); lia |].
    apply Zdigits2_succ; lia. }
  assert (Hd2' : Zdigits2 (shr_m mrs1) <= Zdigits2 m2)
    by (apply Zdigits2_mono; lia).
  pose proof (Zdigits2_nonneg M) as HdM.
  assert (Hd0 : shr_m mrs1 = 0 -> Zdigits2 (shr_m mrs1) = 0)
    by (intros ->; reflexivity).
  assert (Hd2p : 0 < m2 -> 1 <= Zdigits2 m2).
  { intros Hp. rewrite (Zdigits2_log2 Hp). pose proof (Z.log2_nonneg m2). lia. }
  destruct (shr_m mrs3) as [| m3 | m3] eqn:Hm3'.
  - split; [reflexivity | intros; reflexivity].
  - assert (Hpos3 : 0 < m2 / 2 ^ n2) by lia.
    assert (Hpos2 : 0 < m2).
    { destruct (Z.eq_dec m2 0) as [Hz | ?]; [rewrite Hz, Z.div_0_l in Hpos3; lia | lia]. }
    assert (Hd3 : Zdigits2 (Z.pos m3) = Zdigits2 m2 - n2).
    { rewrite Hm3. apply Zdigits2_div_pow2; lia. }
    assert (Hcanon : Z.max (Zdigits2 (Z.pos m3) + e3 - 53) (-1074) = e3).
    { destruct (Z.eq_dec (shr_m mrs1) 0) as [Hz | Hnz].
      - specialize (Hd1z Hz). specialize (Hd0 Hz). specialize (Hd2p Hpos2). lia.
      - assert (Hp1 : 0 < shr_m mrs1) by lia. specialize (Hd1' Hp1). lia. }
    assert (Hmag : Zdigits2 (Z.pos m3) + e3
                   <= Z.max (Zdigits2 M + E) (-1074) + 1).
    { destruct (Z.eq_dec (shr_m mrs1) 0) as [Hz | Hnz].
      - specialize (Hd1z Hz). specialize (Hd0 Hz). specialize (Hd2p Hpos2). lia.
      - assert (Hp1 : 0 < shr_m mrs1) by lia. specialize (Hd1' Hp1). lia. }
    split.
    + destruct (e3 <=? emax - prec) eqn:Hle; [| reflexivity].
      simpl. unfold bounded, canonical_mantissa. rewrite Hle, andb_true_r.
      rewrite fexp_eq. apply Z.eqb_eq.
      change (Z.pos (digits2_pos m3)) with (Zdigits2 (Z.pos m3)). exact Hcanon.
    + intros k Hk Hlo Hhi.
      assert (Hfin : (e3 <=? emax - prec) = true).
      { apply Z.leb_le. unfold emax, prec. lia. }
      rewrite Hfin. cbn [magBelow]. apply Z.leb_le. lia.
  - exfalso. assert (0 <= m2 / 2 ^ n2) by (apply Z.div_pos; lia). lia.
Qed.

Lemma iter_xO_pow2 (m d : positive) :
  Z.pos (Pos.iter xO m d) = Z.pos m * 2 ^ Z.pos d.
Proof.
  induction d as [| d IH] using Pos.peano_ind.
  - simpl. lia.
  - rewrite Pos.iter_succ, Pos2Z.inj_succ, Z.pow_succ_r by lia.
    rewrite Pos2Z.inj_xO, IH. lia.
Qed.

Lemma Zdigits2_mul_pow2 (m d : Z) :
  0 < m -> 0 <= d -> Zdigits2 (m * 2 ^ d) = Zdigits2 m + d.
Proof.
  intros Hm Hd.
  assert (H2 : 0 < 2 ^ d) by (apply Z.pow_pos_nonneg; lia).
  rewrite !Zdigits2_log2 by nia.
  rewrite <- Z.shiftl_mul_pow2 by exact Hd.
  rewrite Z.log2_shiftl by lia. lia.
Qed.

Lemma shl_align_spec (m : positive) (e e' : Z) :
  let '(mz, ez) := shl_align m e e' in
  ez = Z.min e e' /\ Z.pos mz = Z.pos m * 2 ^ (e - ez).
Proof.
  unfold shl_align. destruct (e' - e) as [| p | p] eqn:Hd.
  - split; [lia |]. replace (e - e) with 0 by lia. simpl. lia.
  - split; [lia |]. replace (e - e) with 0 by lia. simpl. lia.
  - split; [lia |]. rewrite iter_xO_pow2. f_equal. f_equal. lia.
Qed.

Lemma binary_round_spec (s : bool) (m : positive) (e : Z) :
  valid_binary prec emax (binary_round prec emax s m e) = true /\
  forall k, Zdigits2 (Z.pos m) + e <= k -> -1074 <= k -> k < 1024 ->
            magBelow (k + 1) (binary_round prec emax s m e) = true.
Proof.
  unfold binary_round.
  pose proof (shl_align_spec m e (fexp prec emax (Z.pos (digits2_pos m) + e)))
    as Hal.
  destruct (shl_align m e _) as [mz ez]. destruct Hal as [Hez Hmz].
  assert (Hdig : Zdigits2 (Z.pos mz) + ez = Zdigits2 (Z.pos m) + e).
  { rewrite Hmz, Zdigits2_mul_pow2 by lia. lia. }
  change (Z.pos (digits2_pos m)) with (Zdigits2 (Z.pos m)) in Hez.
  rewrite fexp_eq in Hez.
  destruct (@binary_round_aux_spec s (Z.pos mz) ez loc_Exact) as [Hv Hmag].
  - lia.
  - rewrite Hdig, fexp_eq. lia.
  - split; [exact Hv |]. intros k Hk. apply Hmag. lia.
Qed.

Lemma Zdigits2_abs (z : Z) : Zdigits2 (Z.abs z) = Zdigits2 z.
Proof. destruct z; reflexivity. Qed.

Lemma Zdigits2_lt_pow2 (m : Z) : 0 <= m -> m < 2 ^ Zdigits2 m.
Proof.
  intros Hm. destruct (Z.eq_dec m 0) as [-> | ?]; [reflexivity |].
  apply Zdigits2_bounds. lia.
Qed.

Lemma Zdigits2_add (a b k : Z) :
  0 <= a -> 0 <= b -> 0 <= k -> Zdigits2 a <= k -> Zdigits2 b <= k ->
  Zdigits2 (a + b) <= k + 1.
Proof.
  intros Ha Hb Hk Hda Hdb.
  apply Zdigits2_le; try lia.
  pose proof (Zdigits2_lt_pow2 Ha) as Ha'.
  pose proof (Zdigits2_lt_pow2 Hb) as Hb'.
  pose proof (Zdigits2_nonneg a). pose proof (Zdigits2_nonneg b).
  assert (2 ^ Zdigits2 a <= 2 ^ k) by (apply Z.pow_le_mono_r; lia).
  assert (2 ^ Zdigits2 b <= 2 ^ k) by (apply Z.pow_le_mono_r; lia).
  rewrite Z.pow_add_r by lia. lia.
Qed.

Lemma magBelow_mono (k k' : Z) (v : float) :
  k <= k' -> magBelow k v = true -> magBelow k' v = true.
Proof.
  intros Hk. destruct v as [s | s | | s m e]; simpl; auto.
  intros H. apply Z.leb_le in H. apply Z.leb_le. lia.
Qed.

Lemma binary_normalize_spec (z e : Z) (sz : bool) :
  valid (binary_normalize prec emax z e sz) = true /\
  forall k, Zdigits2 z + e <= k -> -1074 <= k -> k < 1024 ->
            magBelow (k + 1) (binary_normalize prec emax z e sz) = true.
Proof.
  destruct z as [| p | p]; simpl.
  - split; [reflexivity | intros; reflexivity].
  - apply binary_round_spec.
  - apply binary_round_spec.
Qed.

(** The aligned mantissa of a finite operand. *)
Lemma aligned_digits (m : positive) (e ez k : Z) :
  ez <= e -> Zdigits2 (Z.pos m) + e <= k ->
  Zdigits2 (Z.pos (fst (shl_align m e ez))) + ez <= k.
Proof.
  intros Hez Hk. pose proof (shl_align_spec m e ez) as Hal.
  destruct (shl_align m e ez) as [mz ez']. destruct Hal as [He Hm].
  cbn [fst]. rewrite Hm, Zdigits2_mul_pow2 by lia. lia.
Qed.

Lemma cond_Zopp_digits (s : bool) (z : Z) : Zdigits2 (cond_Zopp s z) = Zdigits2 z.
Proof. destruct s, z; reflexivity. Qed.

Lemma sum_digits (sa sb : bool) (a b : positive) (ez k : Z) (sub : bool) :
  Zdigits2 (Z.pos a) + ez <= k -> Zdigits2 (Z.pos b) + ez <= k ->
  Zdigits2 ((if sub then Z.sub else Z.add)
              (cond_Zopp sa (Z.pos a)) (cond_Zopp sb (Z.pos b))) + ez <= k + 1.
Proof.
  intros Ha Hb.
  set (z := (if sub then Z.sub else Z.add) _ _).
  assert (Habs : Z.abs z <= Z.pos a + Z.pos b).
  { subst z. destruct sub, sa, sb; simpl cond_Zopp; lia. }
  rewrite <- Zdigits2_abs.
  pose proof (@Zdigits2_mono (Z.abs z) (Z.pos a + Z.pos b) (Z.abs_nonneg z) Habs).
  pose proof (@Zdigits2_add (Z.pos a) (Z.pos b)
                (Z.max (Zdigits2 (Z.pos a)) (Zdigits2 (Z.pos b)))).
  pose proof (Zdigits2_nonneg (Z.pos a)). lia.
Qed.

Lemma fadd_valid (a b : float) :
  valid a = true -> valid b = true -> valid (fadd a b) = true.
Proof.
  destruct a as [sa | sa | | sa ma ea]; destruct b as [sb | sb | | sb mb eb];
    intros Ha Hb; try reflexivity; try assumption;
    try (destruct sa, sb; reflexivity).
  apply binary_normalize_spec.
Qed.

Lemma fsub_valid (a b : float) :
  valid a = true -> valid b = true -> valid (fsub a b) = true.
Proof.
  destruct a as [sa | sa | | sa ma ea]; destruct b as [sb | sb | | sb mb eb];
    intros Ha Hb; try reflexivity; try assumption;
    try (destruct sa, sb; reflexivity).
  apply binary_normalize_spec.
Qed.

Lemma fadd_magBelow (a b : float) (k : Z) :
  -1074 <= k -> k + 1 < 1024 ->
  magBelow k a = true -> magBelow k b = true -> magBelow (k + 2) (fadd a b) = true.
Proof.
  intros Hlo Hhi.
  destruct a as [sa | sa | | sa ma ea]; destruct b as [sb | sb | | sb mb eb];
    intros Ha Hb; try discriminate; try reflexivity;
    try (destruct sa, sb; reflexivity);
    try (apply magBelow_mono with k; [lia | assumption]).
  cbn [magBelow] in Ha, Hb. apply Z.leb_le in Ha, Hb.
  unfold fadd, SFadd.
  replace (k + 2) with (k + 1 + 1) by lia.
  apply binary_normalize_spec; try lia.
  apply (@sum_digits sa sb _ _ (Z.min ea eb) k false);
    apply aligned_digits; lia.
Qed.

Lemma fsub_magBelow (a b : float) (k : Z) :
  -1074 <= k -> k + 1 < 1024 ->
  magBelow k a = true -> magBelow k b = true -> magBelow (k + 2) (fsub a b) = true.
Proof.
  intros Hlo Hhi.
  destruct a as [sa | sa | | sa ma ea]; destruct b as [sb | sb | | sb mb eb];
    intros Ha Hb; try discriminate; try reflexivity;
    try (destruct sa, sb; reflexivity);
    try (apply magBelow_mono with k; [lia | assumption]).
  cbn [magBelow] in Ha, Hb. apply Z.leb_le in Ha, Hb.
  unfold fsub, SFsub.
  replace (k + 2) with (k + 1 + 1) by lia.
  apply binary_normalize_spec; try lia.
  apply (@sum_digits sa sb _ _ (Z.min ea eb) k true);
    apply aligned_digits; lia.
Qed.

Lemma valid_finite (s : bool) (m : positive) (e : Z) :
  valid (S754_finite s m e) = true ->
  Z.max (Zdigits2 (Z.pos m) + e - 53) (-1074) = e /\ e <= 971.
Proof.
  unfold valid, valid_binary, bounded, canonical_mantissa.
  intros H. apply andb_true_iff in H. destruct H as [Hc Hb].
  apply Z.eqb_eq in Hc. apply Z.leb_le in Hb. rewrite fexp_eq in Hc.
  split; [exact Hc | exact Hb].
Qed.

Lemma Zdigits2_mul (a b : Z) :
  0 < a -> 0 < b ->
  Zdigits2 a + Zdigits2 b - 1 <= Zdigits2 (a * b) <= Zdigits2 a + Zdigits2 b.
Proof.
  intros Ha Hb.
  pose proof (Zdigits2_bounds Ha) as [La Ua].
  pose proof (Zdigits2_bounds Hb) as [Lb Ub].
  assert (Hda : 1 <= Zdigits2 a)
    by (rewrite (Zdigits2_log2 Ha); pose proof (Z.log2_nonneg a); lia).
  assert (Hdb : 1 <= Zdigits2 b)
    by (rewrite (Zdigits2_log2 Hb); pose proof (Z.log2_nonneg b); lia).
  split.
  - assert (2 ^ (Zdigits2 a - 1 + (Zdigits2 b - 1)) <= a * b).
    { rewrite Z.pow_add_r by lia.
      assert (0 < 2 ^ (Zdigits2 a - 1)) by (apply Z.pow_pos_nonneg; lia).
      assert (0 < 2 ^ (Zdigits2 b - 1)) by (apply Z.pow_pos_nonneg; lia).
      nia. }
    pose proof (@Zdigits2_ge (a * b) (Zdigits2 a - 1 + (Zdigits2 b - 1))).
    lia.
  - apply Zdigits2_le; try nia.
    rewrite Z.pow_add_r by lia. nia.
Qed.

Lemma fmul_spec (a b : float) :
  valid a = true -> valid b = true ->
  valid (fmul a b) = true /\
  forall ka kb,
    magBelow ka a = true -> magBelow kb b = true ->
    -1074 <= ka + kb -> ka + kb < 1024 ->
    magBelow (ka + kb + 1) (fmul a b) = true.
Proof.
  destruct a as [sa | sa | | sa ma ea]; destruct b as [sb | sb | | sb mb eb];
    intros Ha Hb;
    try (split; [reflexivity | intros ka kb Hka Hkb; try discriminate; reflexivity]).
  apply valid_finite in Ha, Hb. destruct Ha as [Hca Hba], Hb as [Hcb Hbb].
  unfold fmul, SFmul.
  pose proof (@Zdigits2_mul (Z.pos ma) (Z.pos mb)) as Hd.
  change (Z.pos (ma * mb)) with (Z.pos ma * Z.pos mb).
  destruct (@binary_round_aux_spec (xorb sa sb) (Z.pos ma * Z.pos mb) (ea + eb)
              loc_Exact) as [Hv Hmag].
  - lia.
  - rewrite fexp_eq.
    pose proof (Zdigits2_nonneg (Z.pos ma)).
    assert (1 <= Zdigits2 (Z.pos ma)) by (simpl; lia).
    assert (1 <= Zdigits2 (Z.pos mb)) by (simpl; lia).
    lia.
  - split; [exact Hv |].
    intros ka kb Hka Hkb Hlo Hhi. cbn [magBelow] in Hka, Hkb.
    apply Z.leb_le in Hka, Hkb. apply Hmag; lia.
Qed.

(** ** Division *)

Lemma SFdiv_core_digits (m1 m2 : positive) (e1 e2 : Z) :
  let '(q, e', l) := SFdiv_core_binary prec emax (Z.pos m1) e1 (Z.pos m2) e2 in
  0 <= q /\
  e' <= fexp prec emax (Zdigits2 q + e') /\
  Zdigits2 q + e'
  <= Z.max (Zdigits2 (Z.pos m1) + e1 - (Zdigits2 (Z.pos m2) + e2) + 1) (-1074).
Proof.
  unfold SFdiv_core_binary.
  set (d1 := Zdigits2 (Z.pos m1)). set (d2 := Zdigits2 (Z.pos m2)).
  rewrite fexp_eq.
  set (e' := Z.min (Z.max (d1 + e1 - (d2 + e2) - 53) (-1074)) (e1 - e2)).
  set (s := e1 - e2 - e').
  assert (Hs : 0 <= s) by (subst s e'; lia).
  set (m' := match s with Z.pos _ => Z.shiftl (Z.pos m1) s | 0 => Z.pos m1
                     | Z.neg _ => 0 end).
  assert (Hm' : m' = Z.pos m1 * 2 ^ s).
  { subst m'. destruct s as [| p | p] eqn:Es; try lia.
    rewrite Z.shiftl_mul_pow2 by lia. reflexivity. }
  pose proof (Z.div_eucl_eq m' (Z.pos m2)) as Heq.
  pose proof (Z.mod_pos_bound m' (Z.pos m2)) as Hmod.
  unfold Z.modulo in Hmod.
  destruct (Z.div_eucl m' (Z.pos m2)) as [q r].
  specialize (Heq ltac:(lia)). specialize (Hmod ltac:(lia)).
  assert (H2s : 0 < 2 ^ s) by (apply Z.pow_pos_nonneg; lia).
  pose proof (@Zdigits2_bounds (Z.pos m1) ltac:(lia)) as [L1 U1].
  pose proof (@Zdigits2_bounds (Z.pos m2) ltac:(lia)) as [L2 U2].
  fold d1 in L1, U1. fold d2 in L2, U2.
  assert (Hd1 : 1 <= d1) by (subst d1; simpl; lia).
  assert (Hd2 : 1 <= d2) by (subst d2; simpl; lia).
  assert (Hq : 0 <= q) by nia.
  split; [exact Hq |].
  (* upper bound on the digits of the quotient *)
  assert (Hup : Zdigits2 q <= Z.max 0 (d1 + s - d2 + 1)).
  { destruct (Z_lt_le_dec (d1 + s - d2 + 1) 0) as [Hneg | Hnn].
    - (* the quotient is 0 *)
      assert (q = 0); [| subst q; simpl; lia].
      assert (Z.pos m1 * 2 ^ s < Z.pos m2); [| nia].
      assert (2 ^ (d1 + s) <= 2 ^ (d2 - 1)) by (apply Z.pow_le_mono_r; lia).
      rewrite Z.pow_add_r in * by lia. nia.
    - rewrite (Z.max_r 0) by lia. apply Zdigits2_le; try lia.
      assert (Hlt : q * 2 ^ (d2 - 1) < 2 ^ (d1 + s)).
      { rewrite Z.pow_add_r by lia. nia. }
      replace (d1 + s) with (d1 + s - d2 + 1 + (d2 - 1)) in Hlt by lia.
      rewrite (Z.pow_add_r 2 (d1 + s - d2 + 1)) in Hlt by lia.
      assert (0 < 2 ^ (d2 - 1)) by (apply Z.pow_pos_nonneg; lia).
      nia. }
  split.
  - rewrite fexp_eq.
    destruct (Z_le_gt_dec e' (-1074)) as [Hlow | Hhigh]; [lia |].
    (* e' above emin: the quotient has at least 53 digits *)
    assert (Hj : 0 <= d1 - 1 + s - d2) by (subst s e'; lia).
    assert (Hge : 2 ^ (d1 - 1 + s - d2) <= q).
    { assert (Hprod : 2 ^ (d1 - 1 + s - d2) * 2 ^ d2 <= Z.pos m1 * 2 ^ s).
      { rewrite <- Z.pow_add_r by lia.
        replace (d1 - 1 + s - d2 + d2) with (d1 - 1 + s) by lia.
        rewrite Z.pow_add_r by lia. nia. }
      assert (0 < 2 ^ (d1 - 1 + s - d2)) by (apply Z.pow_pos_nonneg; lia).
      nia. }
    pose proof (@Zdigits2_ge q (d1 - 1 + s - d2) Hj Hge).
    subst s e'. lia.
  - subst s e'. lia.
Qed.

Lemma fdiv_valid (a b : float) : valid (fdiv a b) = true.
Proof.
  destruct a as [sa | sa | | sa ma ea]; destruct b as [sb | sb | | sb mb eb];
    try reflexivity.
  unfold fdiv, SFdiv.
  pose proof (SFdiv_core_digits ma mb ea eb) as H.
  destruct (SFdiv_core_binary prec emax (Z.pos ma) ea (Z.pos mb) eb) as [[q e'] l].
  destruct H as (Hq & Hpre & _).
  apply binary_round_aux_spec; assumption.
Qed.

Lemma fdiv_magBelow (a b : float) (ka L : Z) :
  magBelow ka a = true -> magAtLeast L b = true ->
  -1074 <= ka - L + 1 -> ka - L + 1 < 1024 ->
  magBelow (ka - L + 2) (fdiv a b) = true.
Proof.
  destruct a as [sa | sa | | sa ma ea]; destruct b as [sb | sb | | sb mb eb];
    intros Ha Hb Hlo Hhi; try discriminate; try reflexivity.
  cbn [magBelow magAtLeast] in Ha, Hb. apply Z.leb_le in Ha, Hb.
  unfold fdiv, SFdiv.
  pose proof (SFdiv_core_digits ma mb ea eb) as H.
  destruct (SFdiv_core_binary prec emax (Z.pos ma) ea (Z.pos mb) eb) as [[q e'] l].
  destruct H as (Hq & Hpre & Hdig).
  replace (ka - L + 2) with (ka - L + 1 + 1) by lia.
  apply binary_round_aux_spec; try assumption; lia.
Qed.

(** ** Square root *)

Lemma SFsqrt_core_digits (m : positive) (e : Z) :
  let '(q, e', l) := SFsqrt_core_binary prec emax (Z.pos m) e in
  0 <= q /\
  e' <= fexp prec emax (Zdigits2 q + e') /\
  Zdigits2 q + e' <= (Zdigits2 (Z.pos m) + e + 1) / 2.
Proof.
  unfold SFsqrt_core_binary.
  set (d := Zdigits2 (Z.pos m)).
  rewrite fexp_eq, !Z.div2_div.
  set (e' := Z.min (Z.max ((d + e + 1) / 2 - 53) (-1074)) (e / 2)).
  set (s := e - 2 * e').
  assert (Hs : 0 <= s) by (subst s e'; Z.div_mod_to_equations; lia).
  set (m' := match s with Z.pos _ => Z.shiftl (Z.pos m) s | 0 => Z.pos m
                     | Z.neg _ => 0 end).
  assert (Hm' : m' = Z.pos m * 2 ^ s).
  { subst m'. destruct s as [| p | p] eqn:Es; try lia.
    rewrite Z.shiftl_mul_pow2 by lia. reflexivity. }
  assert (H2s : 0 < 2 ^ s) by (apply Z.pow_pos_nonneg; lia).
  pose proof (Z.sqrtrem_spec m') as Hsq.
  destruct (Z.sqrtrem m') as [q r].
  specialize (Hsq ltac:(nia)). destruct Hsq as [Heq Hr].
  pose proof (@Zdigits2_bounds (Z.pos m) ltac:(lia)) as [L1 U1].
  fold d in L1, U1.
  assert (Hd : 1 <= d) by (subst d; simpl; lia).
  assert (Hq : 0 <= q) by lia.
  assert (Hlet : (if r =? 0 then loc_Exact
                  else loc_Inexact (if r <=? q then Lt else Gt))
                 = (if r =? 0 then loc_Exact
                    else loc_Inexact (if r <=? q then Lt else Gt)))
    by reflexivity.
  clear Hlet.
  set (j := (d + s + 1) / 2).
  assert (Hj : 0 <= j) by (subst j; Z.div_mod_to_equations; lia).
  assert (Hupper : q < 2 ^ j).
  { assert (Hm'lt : m' < 2 ^ j * 2 ^ j).
    { rewrite <- Z.pow_add_r by lia.
      assert (2 ^ (d + s) <= 2 ^ (j + j))
        by (apply Z.pow_le_mono_r; subst j; Z.div_mod_to_equations; lia).
      rewrite (Z.pow_add_r 2 d s) in H by lia. nia. }
    assert (0 < 2 ^ j) by (apply Z.pow_pos_nonneg; lia).
    nia. }
  assert (Hlower : 1 <= j -> 2 ^ (j - 1) <= q).
  { intros Hj1.
    assert (Hm'ge : 2 ^ (j - 1) * 2 ^ (j - 1) <= m').
    { rewrite <- Z.pow_add_r by lia.
      assert (2 ^ (j - 1 + (j - 1)) <= 2 ^ (d - 1 + s))
        by (apply Z.pow_le_mono_r; subst j; Z.div_mod_to_equations; lia).
      rewrite (Z.pow_add_r 2 (d - 1) s) in H by lia. nia. }
    assert (0 < 2 ^ (j - 1)) by (apply Z.pow_pos_nonneg; lia).
    nia. }
  assert (Hdq : Zdigits2 q = j).
  { assert (Hj1 : 1 <= j) by (subst j; Z.div_mod_to_equations; lia).
    pose proof (@Zdigits2_le q j Hq Hj Hupper).
    pose proof (@Zdigits2_ge q (j - 1) ltac:(lia) (Hlower Hj1)). lia. }
  split; [exact Hq |].
  rewrite fexp_eq, Hdq. subst j s e'. split; Z.div_mod_to_equations; lia.
Qed.

Lemma fsqrt_valid (v : float) : valid (fsqrt v) = true.
Proof.
  destruct v as [s | [|] | | [|] m e]; try reflexivity.
  unfold fsqrt, SFsqrt.
  pose proof (SFsqrt_core_digits m e) as H.
  destruct (SFsqrt_core_binary prec emax (Z.pos m) e) as [[q e'] l].
  destruct H as (Hq & Hpre & _).
  apply binary_round_aux_spec; assumption.
Qed.

Lemma fsqrt_magBelow (v : float) (k : Z) :
  signClear v = true -> magBelow k v = true ->
  -1074 <= (k + 1) / 2 -> (k + 1) / 2 < 1024 ->
  magBelow ((k + 1) / 2 + 1) (fsqrt v) = true.
Proof.
  destruct v as [s | s | | s m e]; intros Hs Hk Hlo Hhi; try discriminate.
  - reflexivity.
  - simpl in Hs. apply negb_true_iff in Hs. subst s.
    cbn [magBelow] in Hk. apply Z.leb_le in Hk.
    unfold fsqrt, SFsqrt.
    pose proof (SFsqrt_core_digits m e) as H.
    destruct (SFsqrt_core_binary prec emax (Z.pos m) e) as [[q e'] l].
    destruct H as (Hq & Hpre & Hdig).
    apply binary_round_aux_spec; try assumption.
    assert ((Zdigits2 (Z.pos m) + e + 1) / 2 <= (k + 1) / 2)
      by (apply Z.div_le_mono; lia).
    lia.
Qed.

End Binary64.

(** ** Binary64: rounding is monotone *)

Module Binary64Order.
Import Geometry.
Local Open Scope Z_scope.

Lemma iter_pos_count (A : Type) (f : A -> A) (Inv : Z -> A -> Prop) :
  (forall k x, 0 <= k -> Inv k x -> Inv (k + 1) (f x)) ->
  forall p k x, 0 <= k -> Inv k x -> Inv (k + Z.pos p) (iter_pos f p x).
Proof.
  intros Hstep. induction p as [p IH | p IH |]; intros k x Hk Hx; cbn [iter_pos].
  - replace (k + Z.pos p~1) with (k + 1 + Z.pos p + Z.pos p) by lia.
    apply IH; [lia |]. apply IH; [lia |]. apply Hstep; assumption.
  - replace (k + Z.pos p~0) with (k + Z.pos p + Z.pos p) by lia.
    apply IH; [lia |]. apply IH; assumption.
  - apply Hstep; assumption.
Qed.

Lemma shr_1_odd (mrs : shr_record) :
  0 <= shr_m mrs ->
  shr_m (shr_1 mrs) = shr_m mrs / 2 /\
  (shr_r (shr_1 mrs) = true <-> shr_m mrs mod 2 = 1) /\
  shr_s (shr_1 mrs) = shr_r mrs || shr_s mrs.
Proof.
  destruct mrs as [m r s]. cbn [shr_m shr_r shr_s]. intros Hm.
  destruct m as [| [p | p |] | p]; try lia; cbn [shr_1 shr_m shr_r shr_s].
  - split; [reflexivity |]. split; [| reflexivity].
    split; [discriminate | intros H; discriminate H].
  - split; [rewrite Pos2Z.inj_xI; Z.div_mod_to_equations; lia |].
    split; [| reflexivity].
    split; [intros _; rewrite Pos2Z.inj_xI; Z.div_mod_to_equations; lia
           | reflexivity].
  - split; [rewrite Pos2Z.inj_xO; Z.div_mod_to_equations; lia |].
    split; [| reflexivity].
    split; [discriminate |].
    rewrite Pos2Z.inj_xO. intros H. Z.div_mod_to_equations. lia.
  - split; [reflexivity |]. split; [| reflexivity]. split; reflexivity.
Qed.

Lemma shifted_step (X k : Z) (mrs : shr_record) :
  0 <= X -> 0 <= k -> shifted X k mrs -> shifted X (k + 1) (shr_1 mrs).
Proof.
  intros HX Hk (Hm & Hr & Hs).
  assert (HP : 0 < 2 ^ k) by (apply Z.pow_pos_nonneg; lia).
  assert (Hm0 : 0 <= shr_m mrs).
  { rewrite Hm. apply Z.div_pos; lia. }
  destruct (shr_1_odd mrs Hm0) as (Hm' & Hr' & Hs').
  unfold shifted. rewrite Z.pow_add_r by lia. change (2 ^ 1) with 2.
  set (P := 2 ^ k) in *.
  assert (Hmod : X mod (P * 2) = X mod P + P * ((X / P) mod 2)).
  { apply Z.rem_mul_r; lia. }
  assert (Hrho : 0 <= X mod P < P) by (apply Z.mod_pos_bound; lia).
  assert (Hbit : 0 <= (X / P) mod 2 < 2) by (apply Z.mod_pos_bound; lia).
  rewrite Hm', Hr', Hs', Hm, Hmod.
  split; [apply Z.div_div; lia |].
  split.
  - split; intros H; nia.
  - assert (Hdbl : (2 * (X mod P + P * ((X / P) mod 2))) mod (P * 2)
                   = 2 * (X mod P)).
    { assert (Hcase : (X / P) mod 2 = 0 \/ (X / P) mod 2 = 1) by lia.
      destruct Hcase as [H0 | H1].
      - rewrite H0. replace (2 * (X mod P + P * 0)) with (2 * (X mod P)) by lia.
        apply Z.mod_small. lia.
      - rewrite H1.
        replace (2 * (X mod P + P * 1)) with (2 * (X mod P) + 1 * (P * 2)) by lia.
        rewrite Z.mod_add by lia. apply Z.mod_small. lia. }
    rewrite Hdbl. rewrite orb_true_iff, Hr, Hs.
    split.
    + intros [H | H]; [lia |]. intros H0.
      apply H. replace (2 * (X mod P)) with 0 by lia. apply Z.mod_0_l. lia.
    + intros Hne.
      destruct (Z_le_gt_dec P (2 * (X mod P))) as [Hle | Hgt]; [left; exact Hle |].
      right. rewrite Z.mod_small by lia. lia.
Qed.

Lemma shifted_zero (X : Z) : shifted X 0 (shr_record_of_loc X loc_Exact).
Proof.
  unfold shifted. cbn [shr_record_of_loc shr_m shr_r shr_s].
  change (2 ^ 0) with 1. rewrite Z.div_1_r, Z.mod_1_r. cbn.
  split; [reflexivity |]. split; split; intros H; try discriminate H; lia.
Qed.

(** The first shift of [binary_round_aux] on an exact input. *)
Lemma shr_fexp_shifted (X E : Z) :
  0 <= X ->
  let n := Z.max 0 (fexp prec emax (Zdigits2 X + E) - E) in
  shifted X n (fst (shr_fexp prec emax X E loc_Exact)) /\
  snd (shr_fexp prec emax X E loc_Exact) = E + n.
Proof.
  intros HX n. unfold shr_fexp, shr. subst n.
  destruct (fexp prec emax (Zdigits2 X + E) - E) as [| p | p] eqn:Hn.
  - cbn [fst snd]. rewrite Z.max_l by lia. split; [apply shifted_zero | lia].
  - cbn [fst snd]. rewrite Z.max_r by lia. split; [| reflexivity].
    change (Z.pos p) with (0 + Z.pos p).
    apply (iter_pos_count shr_1 (shifted X));
      [intros k x Hk; apply shifted_step; assumption | lia | apply shifted_zero].
  - cbn [fst snd]. rewrite Z.max_l by lia. split; [apply shifted_zero | lia].
Qed.

Lemma round_shifted (X k : Z) (mrs : shr_record) :
  0 <= X -> 0 <= k -> shifted X k mrs ->
  nearestEven X (2 ^ k)
    (round_nearest_even (shr_m mrs) (loc_of_shr_record mrs)).
Proof.
  intros HX Hk (Hm & Hr & Hs).
  assert (HP : 0 < 2 ^ k) by (apply Z.pow_pos_nonneg; lia).
  set (P := 2 ^ k) in *.
  assert (Hrho : 0 <= X mod P < P) by (apply Z.mod_pos_bound; lia).
  unfold nearestEven.
  destruct mrs as [m r s]. cbn [shr_m shr_r shr_s] in *. subst m.
  destruct r, s; cbn [loc_of_shr_record round_nearest_even].
  - right; left. split; [| reflexivity].
    assert (H1 : P <= 2 * (X mod P)) by (apply Hr; reflexivity).
    assert (H2 : (2 * (X mod P)) mod P <> 0) by (apply Hs; reflexivity).
    destruct (Z.eq_dec (2 * (X mod P)) P) as [Heq | Hne]; [| lia].
    exfalso. apply H2. rewrite Heq. apply Z.mod_same. lia.
  - right; right.
    assert (H1 : P <= 2 * (X mod P)) by (apply Hr; reflexivity).
    assert (H2 : (2 * (X mod P)) mod P = 0).
    { destruct (Z.eq_dec ((2 * (X mod P)) mod P) 0) as [H | H]; [exact H |].
      apply Hs in H. discriminate H. }
    assert (Heq : 2 * (X mod P) = P).
    { apply Z.mod_divide in H2; [| lia]. destruct H2 as [c Hc].
      clearbody P.
      assert (Hc1 : 0 < c) by nia. assert (Hc2 : c < 2) by nia.
      replace c with 1 in Hc by lia. lia. }
    split; [exact Heq |].
    destruct (Z.even (X / P)) eqn:Hev.
    + apply Z.even_spec in Hev. destruct Hev as [c Hc]. rewrite Hc.
      replace (2 * c) with (c * 2) by lia. rewrite Z.mod_mul by lia. lia.
    + assert (Hodd : Z.odd (X / P) = true).
      { rewrite <- Z.negb_even, Hev. reflexivity. }
      apply Z.odd_spec in Hodd. destruct Hodd as [c Hc]. rewrite Hc.
      replace (2 * c + 1) with (1 + c * 2) by lia.
      rewrite Z.mod_add by lia. reflexivity.
  - left. split; [| reflexivity].
    destruct (Z_le_gt_dec P (2 * (X mod P))) as [Hle | Hgt]; [| lia].
    apply Hr in Hle. discriminate Hle.
  - left. split; [| reflexivity].
    destruct (Z_le_gt_dec P (2 * (X mod P))) as [Hle | Hgt]; [| lia].
    apply Hr in Hle. discriminate Hle.
Qed.

(** Rounding to nearest on one grid is monotone, and stays within the
    grid points around its argument. *)
Lemma nearestEven_mono (X1 X2 P q1 q2 : Z) :
  0 < P -> X1 <= X2 ->
  nearestEven X1 P q1 -> nearestEven X2 P q2 -> q1 <= q2.
Proof.
  intros HP Hle H1 H2. unfold nearestEven in *.
  assert (Hr1 : 0 <= X1 mod P < P) by (apply Z.mod_pos_bound; lia).
  assert (Hr2 : 0 <= X2 mod P < P) by (apply Z.mod_pos_bound; lia).
  assert (Hd1 : X1 = P * (X1 / P) + X1 mod P) by (apply Z.div_mod; lia).
  assert (Hd2 : X2 = P * (X2 / P) + X2 mod P) by (apply Z.div_mod; lia).
  assert (Hb1 : 0 <= (X1 / P) mod 2 < 2) by (apply Z.mod_pos_bound; lia).
  assert (Hb2 : 0 <= (X2 / P) mod 2 < 2) by (apply Z.mod_pos_bound; lia).
  assert (Hq : X1 / P <= X2 / P) by (apply Z.div_le_mono; lia).
  destruct (Z.eq_dec (X1 / P) (X2 / P)) as [Heq | Hne].
  - rewrite Heq in *. destruct H1 as [[? ->] | [[? ->] | [? ->]]];
      destruct H2 as [[? ->] | [[? ->] | [? ->]]]; nia.
  - destruct H1 as [[? ->] | [[? ->] | [? ->]]];
      destruct H2 as [[? ->] | [[? ->] | [? ->]]]; lia.
Qed.

Lemma nearestEven_between (X P q : Z) :
  0 < P -> nearestEven X P q -> X / P <= q <= X / P + 1.
Proof.
  intros HP H. unfold nearestEven in H.
  assert (Hb : 0 <= (X / P) mod 2 < 2) by (apply Z.mod_pos_bound; lia).
  destruct H as [[? ->] | [[? ->] | [? ->]]]; lia.
Qed.

(** A number at or below a grid point rounds at or below it; a number at
    or above one rounds at or above it. *)
Lemma nearestEven_below (X P q g : Z) :
  0 < P -> X <= g * P -> nearestEven X P q -> q <= g.
Proof.
  intros HP Hle H. unfold nearestEven in H.
  assert (Hr : 0 <= X mod P < P) by (apply Z.mod_pos_bound; lia).
  assert (Hd : X = P * (X / P) + X mod P) by (apply Z.div_mod; lia).
  assert (Hb : 0 <= (X / P) mod 2 < 2) by (apply Z.mod_pos_bound; lia).
  destruct H as [[? ->] | [[? ->] | [? ->]]]; nia.
Qed.

Lemma nearestEven_above (X P q g : Z) :
  0 < P -> g * P <= X -> nearestEven X P q -> g <= q.
Proof.
  intros HP Hle H. unfold nearestEven in H.
  assert (Hr : 0 <= X mod P < P) by (apply Z.mod_pos_bound; lia).
  assert (Hd : X = P * (X / P) + X mod P) by (apply Z.div_mod; lia).
  assert (Hb : 0 <= (X / P) mod 2 < 2) by (apply Z.mod_pos_bound; lia).
  destruct H as [[? ->] | [[? ->] | [? ->]]]; nia.
Qed.

Lemma binary_round_aux_pair (s : bool) (X E : Z) :
  binary_round_aux prec emax s X E loc_Exact
  = match fst (roundedPair X E) with
    | Z0 => S754_zero s
    | Z.pos m =>
        if snd (roundedPair X E) <=? emax - prec
        then S754_finite s m (snd (roundedPair X E))
        else S754_infinity s
    | Z.neg _ => S754_nan
    end.
Proof.
  unfold binary_round_aux, roundedPair.
  destruct (shr_fexp prec emax X E loc_Exact) as [mrs1 e1].
  destruct (shr_fexp prec emax _ e1 loc_Exact) as [mrs2 e2].
  reflexivity.
Qed.

(** What [roundedPair] returns for a positive integer mantissa that has
    at least the precision of the format: with [n] the number of bits
    dropped and [q] the mantissa rounded to nearest even, the pair is
    [(q, E + n)], or [(2 ^ 52, E + n + 1)] when the rounding carried to
    [2 ^ 53]; it is canonical, and its value is [q * 2 ^ n] in units of
    [2 ^ E]. *)
Lemma roundedPair_spec (X E : Z) :
  0 < X ->
  E <= fexp prec emax (Zdigits2 X + E) ->
  let n := fexp prec emax (Zdigits2 X + E) - E in
  exists q,
    nearestEven X (2 ^ n) q /\
    0 <= fst (roundedPair X E) /\
    E <= snd (roundedPair X E) /\
    fst (roundedPair X E) * 2 ^ (snd (roundedPair X E) - E) = q * 2 ^ n /\
    (0 < fst (roundedPair X E) ->
     snd (roundedPair X E)
     = Z.max (Zdigits2 (fst (roundedPair X E)) + snd (roundedPair X E) - 53)
             (-1074)).
Proof.
  intros HX HE n.
  assert (Hn : 0 <= n) by (unfold n; lia).
  pose proof (@shr_fexp_shifted X E (Z.lt_le_incl _ _ HX)) as Hfirst.
  cbv zeta in Hfirst. fold n in Hfirst. rewrite (Z.max_r 0 n) in Hfirst by lia.
  destruct Hfirst as [Hsh He1].
  unfold roundedPair.
  destruct (shr_fexp prec emax X E loc_Exact) as [mrs1 e1].
  cbn [fst snd] in Hsh, He1.
  pose proof (@round_shifted X n mrs1 (Z.lt_le_incl _ _ HX) Hn Hsh) as Hq.
  set (q := round_nearest_even (shr_m mrs1) (loc_of_shr_record mrs1)) in *.
  assert (HP : 0 < 2 ^ n) by (apply Z.pow_pos_nonneg; lia).
  pose proof (@nearestEven_between X (2 ^ n) q HP Hq) as Hbetween.
  assert (Hm0 : 0 <= X / 2 ^ n) by (apply Z.div_pos; lia).
  assert (Hq0 : 0 <= q) by lia.
  pose proof (@Binary64.shr_fexp_spec q e1 loc_Exact Hq0) as Hsecond.
  cbv zeta in Hsecond.
  destruct (shr_fexp prec emax q e1 loc_Exact) as [mrs2 e2].
  cbn [fst snd] in *. destruct Hsecond as [Hm2 He2].
  exists q. split; [exact Hq |].
  (* the digits of the quotient *)
  pose proof (Binary64.Zdigits2_bounds HX) as Hdig.
  set (d := Zdigits2 X) in *.
  assert (Hd0 : 0 < d).
  { destruct (Z_lt_le_dec 0 d) as [H | H]; [exact H | exfalso].
    assert (2 ^ d <= 2 ^ 0) by (apply Z.pow_le_mono_r; lia).
    change (2 ^ 0) with 1 in *. lia. }
  assert (Hndef : n = Z.max (d + E - 53) (-1074) - E).
  { unfold n. rewrite Binary64.fexp_eq. reflexivity. }
  clearbody n. rewrite Binary64.fexp_eq in *.
  assert (Hdn : d - n <= 53) by lia.
  assert (Hmlt : X / 2 ^ n < 2 ^ 53).
  { apply Z.div_lt_upper_bound; [lia |].
    rewrite <- Z.pow_add_r by lia.
    assert (2 ^ d <= 2 ^ (n + 53)) by (apply Z.pow_le_mono_r; lia). lia. }
  assert (Hqle : q <= 2 ^ 53) by lia.
  destruct (Z.eq_dec q (2 ^ 53)) as [Hcarry | Hnocarry].
  - (* the rounding carried *)
    assert (Hdq : Zdigits2 q = 54) by (rewrite Hcarry; reflexivity).
    rewrite Hdq in *.
    rewrite (Z.max_r 0 (Z.max (54 + e1 - 53) (-1074) - e1)) in * by lia.
    replace (Z.max (54 + e1 - 53) (-1074) - e1) with 1 in * by lia.
    change (2 ^ 1) with 2 in Hm2.
    assert (Hm2v : shr_m mrs2 = 2 ^ 52) by (rewrite Hm2, Hcarry; reflexivity).
    rewrite Hm2v, He2, He1.
    split; [lia |]. split; [lia |]. split.
    + replace (E + n + 1 - E) with (n + 1) by lia.
      rewrite Z.pow_add_r by lia. rewrite Hcarry. lia.
    + intros _. change (Zdigits2 (2 ^ 52)) with 53. lia.
  - (* it did not *)
    assert (Hdq : Zdigits2 q <= 53).
    { apply Binary64.Zdigits2_le; lia. }
    rewrite (Z.max_l 0 (Z.max (Zdigits2 q + e1 - 53) (-1074) - e1)) in * by lia.
    change (2 ^ 0) with 1 in Hm2. rewrite Z.div_1_r in Hm2.
    rewrite Hm2, He2, He1. replace (E + n + 0) with (E + n) by lia.
    split; [exact Hq0 |]. split; [lia |]. split.
    + replace (E + n - E) with n by lia. reflexivity.
    + intros Hqpos.
      destruct (Z_le_gt_dec (d + E - 53) (-1074)) as [Hsub | Hnorm].
      * lia.
      * assert (Hn' : n = d - 53) by lia.
        assert (Hge : 2 ^ 52 <= X / 2 ^ n).
        { apply Z.div_le_lower_bound; [lia |].
          rewrite <- Z.pow_add_r by lia.
          replace (n + 52) with (d - 1) by lia. lia. }
        assert (Hdq' : 52 + 1 <= Zdigits2 q).
        { apply Binary64.Zdigits2_ge; lia. }
        lia.
Qed.

(** Canonical pairs are ordered by exponent first, as [SFcompare] reads
    them. *)
Lemma canonical_order (m1 e1 m2 e2 E : Z) :
  0 < m1 -> 0 < m2 -> E <= e1 -> E <= e2 ->
  e1 = Z.max (Zdigits2 m1 + e1 - 53) (-1074) ->
  e2 = Z.max (Zdigits2 m2 + e2 - 53) (-1074) ->
  m1 * 2 ^ (e1 - E) <= m2 * 2 ^ (e2 - E) ->
  e1 < e2 \/ (e1 = e2 /\ m1 <= m2).
Proof.
  intros Hm1 Hm2 HE1 HE2 Hc1 Hc2 Hle.
  destruct (Z_lt_le_dec e1 e2) as [Hlt | Hge]; [left; exact Hlt | right].
  assert (Hp2 : 0 < 2 ^ (e2 - E)) by (apply Z.pow_pos_nonneg; lia).
  destruct (Z.eq_dec e1 e2) as [Heq | Hne].
  - split; [exact Heq |]. subst e2. nia.
  - exfalso.
    assert (Hd1 : Zdigits2 m1 = 53) by lia.
    assert (Hd2 : Zdigits2 m2 <= 53) by lia.
    pose proof (Binary64.Zdigits2_bounds Hm1) as B1.
    pose proof (Binary64.Zdigits2_bounds Hm2) as B2.
    rewrite Hd1 in B1. change (2 ^ (53 - 1)) with (2 ^ 52) in B1.
    assert (Hm2lt : m2 < 2 ^ 53).
    { assert (2 ^ Zdigits2 m2 <= 2 ^ 53) by (apply Z.pow_le_mono_r; lia). lia. }
    replace (e1 - E) with ((e2 - E) + (e1 - e2)) in Hle by lia.
    rewrite Z.pow_add_r in Hle by lia.
    assert (Hgap : 2 ^ 1 <= 2 ^ (e1 - e2)) by (apply Z.pow_le_mono_r; lia).
    change (2 ^ 1) with 2 in Hgap.
    set (A := 2 ^ (e2 - E)) in *. set (B := 2 ^ (e1 - e2)) in *.
    clearbody A B.
    change (2 ^ 52) with 4503599627370496 in *.
    change (2 ^ 53) with 9007199254740992 in *.
    clear B2 Hc1 Hc2.
    assert (H1 : m1 * B <= m2).
    { apply (Z.mul_le_mono_pos_l _ _ A Hp2).
      replace (A * (m1 * B)) with (m1 * (A * B)) by ring.
      replace (A * m2) with (m2 * A) by ring. exact Hle. }
    assert (H2 : 4503599627370496 * 2 <= m1 * B).
    { apply Z.mul_le_mono_nonneg; lia. }
    lia.
Qed.

(** Rounding is monotone: of two exact positive inputs with one exponent,
    the larger rounds to the larger pair. *)
Lemma roundedPair_mono (X1 X2 E : Z) :
  0 < X1 -> X1 <= X2 ->
  E <= fexp prec emax (Zdigits2 X1 + E) ->
  0 <= fst (roundedPair X1 E) /\
  0 <= fst (roundedPair X2 E) /\
  (fst (roundedPair X1 E) = 0 \/
   (0 < fst (roundedPair X1 E) /\ 0 < fst (roundedPair X2 E) /\
    (snd (roundedPair X1 E) < snd (roundedPair X2 E) \/
     (snd (roundedPair X1 E) = snd (roundedPair X2 E) /\
      fst (roundedPair X1 E) <= fst (roundedPair X2 E))))).
Proof.
  intros HX1 Hle HE1.
  assert (HX2 : 0 < X2) by lia.
  pose proof (@Binary64.Zdigits2_mono X1 X2 (Z.lt_le_incl _ _ HX1) Hle) as Hd.
  assert (HE2 : E <= fexp prec emax (Zdigits2 X2 + E)).
  { rewrite Binary64.fexp_eq in *. lia. }
  destruct (@roundedPair_spec X1 E HX1 HE1) as (q1 & Hq1 & Hm1 & He1 & Hv1 & Hc1).
  destruct (@roundedPair_spec X2 E HX2 HE2) as (q2 & Hq2 & Hm2 & He2 & Hv2 & Hc2).
  set (m1 := fst (roundedPair X1 E)) in *. set (e1 := snd (roundedPair X1 E)) in *.
  set (m2 := fst (roundedPair X2 E)) in *. set (e2 := snd (roundedPair X2 E)) in *.
  clearbody m1 e1 m2 e2.
  rewrite Binary64.fexp_eq in *.
  pose proof (Binary64.Zdigits2_bounds HX1) as B1.
  pose proof (Binary64.Zdigits2_bounds HX2) as B2.
  set (d1 := Zdigits2 X1) in *. set (d2 := Zdigits2 X2) in *.
  clearbody d1 d2.
  remember (Z.max (d1 + E - 53) (-1074) - E) as n1 eqn:Hn1.
  remember (Z.max (d2 + E - 53) (-1074) - E) as n2 eqn:Hn2.
  assert (Hn1pos : 0 <= n1) by lia. assert (Hn2pos : 0 <= n2) by lia.
  assert (HP1 : 0 < 2 ^ n1) by (apply Z.pow_pos_nonneg; lia).
  assert (HP2 : 0 < 2 ^ n2) by (apply Z.pow_pos_nonneg; lia).
  assert (Hvalue : q1 * 2 ^ n1 <= q2 * 2 ^ n2).
  { destruct (Z.eq_dec n1 n2) as [Heq | Hne].
    - rewrite <- Heq in *.
      pose proof (@nearestEven_mono X1 X2 (2 ^ n1) q1 q2 HP1 Hle Hq1 Hq2). nia.
    - assert (Hlt : n1 < n2) by lia.
      assert (Hn2v : n2 = d2 - 53) by lia.
      assert (Hd12 : d1 <= d2 - 1) by lia.
      assert (HG1 : 2 ^ (d2 - 1) = 2 ^ (d2 - 1 - n1) * 2 ^ n1).
      { rewrite <- Z.pow_add_r by lia. f_equal. lia. }
      assert (HG2 : 2 ^ (d2 - 1) = 2 ^ (d2 - 1 - n2) * 2 ^ n2).
      { rewrite <- Z.pow_add_r by lia. f_equal. lia. }
      assert (Hpow : 2 ^ d1 <= 2 ^ (d2 - 1)) by (apply Z.pow_le_mono_r; lia).
      assert (Hq1le : q1 <= 2 ^ (d2 - 1 - n1)).
      { apply (@nearestEven_below X1 (2 ^ n1) q1 _ HP1); [lia | exact Hq1]. }
      assert (Hq2ge : 2 ^ (d2 - 1 - n2) <= q2).
      { apply (@nearestEven_above X2 (2 ^ n2) q2 _ HP2); [lia | exact Hq2]. }
      nia. }
  split; [exact Hm1 |]. split; [exact Hm2 |].
  destruct (Z.eq_dec m1 0) as [Hz | Hnz]; [left; exact Hz | right].
  assert (Hm1pos : 0 < m1) by lia.
  assert (He1p : 0 < 2 ^ (e1 - E)) by (apply Z.pow_pos_nonneg; lia).
  assert (He2p : 0 < 2 ^ (e2 - E)) by (apply Z.pow_pos_nonneg; lia).
  assert (Hm2pos : 0 < m2) by nia.
  split; [exact Hm1pos |]. split; [exact Hm2pos |].
  apply (@canonical_order m1 e1 m2 e2 E); auto. lia.
Qed.

(** The same on doubles: the rounded products of one non-negative number
    with two positive factors of one exponent are ordered as the factors
    are. *)
Lemma round_mono (X1 X2 : positive) (E : Z) :
  (X1 <= X2)%positive ->
  E <= fexp prec emax (Zdigits2 (Z.pos X1) + E) ->
  SFleb (binary_round_aux prec emax false (Z.pos X1) E loc_Exact)
        (binary_round_aux prec emax false (Z.pos X2) E loc_Exact) = true.
Proof.
  intros Hle HE.
  destruct (@roundedPair_mono (Z.pos X1) (Z.pos X2) E) as (H1 & H2 & Hord);
    [lia | lia | exact HE |].
  rewrite !binary_round_aux_pair.
  destruct (fst (roundedPair (Z.pos X1) E)) as [| m1 | m1] eqn:Hm1; [| | lia].
  - destruct (fst (roundedPair (Z.pos X2) E)) as [| m2 | m2]; [reflexivity | | lia].
    destruct (snd (roundedPair (Z.pos X2) E) <=? emax - prec); reflexivity.
  - destruct Hord as [Hz | (_ & Hm2pos & Hlex)]; [discriminate Hz |].
    destruct (fst (roundedPair (Z.pos X2) E)) as [| m2 | m2]; try lia.
    set (e1 := snd (roundedPair (Z.pos X1) E)) in *.
    set (e2 := snd (roundedPair (Z.pos X2) E)) in *.
    destruct (e2 <=? emax - prec) eqn:Hb2.
    + apply Z.leb_le in Hb2.
      assert (Hb1 : (e1 <=? emax - prec) = true) by (apply Z.leb_le; lia).
      rewrite Hb1. unfold SFleb, SFcompare.
      destruct Hlex as [Hlt | [Heq Hmle]].
      * apply Z.compare_lt_iff in Hlt. rewrite Hlt. reflexivity.
      * rewrite Heq, Z.compare_refl.
        change (Pos.compare_cont Eq m1 m2) with (Pos.compare m1 m2).
        destruct (Pos.compare m1 m2) eqn:Hc; try reflexivity.
        apply Pos.compare_gt_iff in Hc. lia.
    + destruct (e1 <=? emax - prec); reflexivity.
Qed.

(** Multiplying a number that is not negative by the larger of two
    positive doubles of one exponent gives the larger product. *)
Lemma fmul_mono_r (b : float) (m1 m2 : positive) (e : Z) :
  signClear b = true -> is_nan b = false ->
  (m1 <= m2)%positive -> 53 <= Zdigits2 (Z.pos m1) ->
  SFleb (fmul b (S754_finite false m1 e)) (fmul b (S754_finite false m2 e))
  = true.
Proof.
  intros Hsign Hnan Hle Hdig.
  destruct b as [s | s | | s mb eb]; try discriminate Hnan;
    simpl in Hsign; apply negb_true_iff in Hsign; subst s; try reflexivity.
  unfold fmul, SFmul. cbn [xorb].
  apply round_mono.
  - apply Pos.mul_le_mono_l. exact Hle.
  - rewrite Binary64.fexp_eq. rewrite Pos2Z.inj_mul.
    pose proof (@Binary64.Zdigits2_mul (Z.pos mb) (Z.pos m1)) as Hmul.
    assert (Hb : 1 <= Zdigits2 (Z.pos mb)).
    { pose proof (@Binary64.Zdigits2_ge (Z.pos mb) 0). cbn in *. lia. }
    lia.
Qed.

(** [SFcompare] orders the doubles that are not negative: nothing above
    the larger of two is below the smaller. *)
Lemma above_larger_not_below_smaller (lo hi v : float) :
  signClear lo = true -> signClear hi = true ->
  SFleb lo hi = true -> SFltb hi v = true -> SFltb v lo = false.
Proof.
  intros Hlo Hhi.
  destruct lo as [sl | sl | | sl ml el]; simpl in Hlo;
    try (apply negb_true_iff in Hlo; subst sl);
    destruct hi as [sh | sh | | sh mh eh]; simpl in Hhi;
    try (apply negb_true_iff in Hhi; subst sh);
    destruct v as [sv | sv | | sv mv ev];
    try (destruct sv);
    unfold SFleb, SFltb, SFcompare;
    try reflexivity; try discriminate;
    try (intros H; discriminate H); try (intros _ H; discriminate H).
  - (* three finite numbers *)
    destruct (Z.compare_spec el eh) as [Heq | Hlt | Hgt];
      destruct (Z.compare_spec eh ev) as [Heq' | Hlt' | Hgt'];
      try (intros H; discriminate H); try (intros _ H; discriminate H);
      intros H1 H2.
    + subst. rewrite Z.compare_refl.
      change (Pos.compare_cont Eq ?a ?b) with (Pos.compare a b) in *.
      destruct (Pos.compare_spec ml mh); try discriminate H1;
        destruct (Pos.compare_spec mh mv); try discriminate H2;
        destruct (Pos.compare_spec mv ml); try reflexivity; lia.
    + subst. destruct (Z.compare_spec ev eh); try reflexivity; lia.
    + subst. destruct (Z.compare_spec ev el); try reflexivity; lia.
    + destruct (Z.compare_spec ev el); try reflexivity; lia.
Qed.

End Binary64Order.

(** ** Geometry: what [ear] returns *)

Module GeometryFacts.
Import Geometry.

(** *** Signs *)

Lemma binary_round_aux_signClear (m e : Z) (l : location) :
  signClear (binary_round_aux prec emax false m e l) = true.
Proof.
  unfold binary_round_aux.
  destruct (shr_fexp prec emax m e l) as [mrs' e'].
  destruct (shr_fexp prec emax _ e' loc_Exact) as [mrs'' e''].
  destruct (shr_m mrs''); [reflexivity | | reflexivity].
  destruct (e'' <=? emax - prec)%Z; reflexivity.
Qed.

Lemma fmul_self_signClear (v : float) : signClear (fmul v v) = true.
Proof.
  destruct v as [s | s | | s m e]; simpl; try reflexivity;
    try (destruct s; reflexivity).
  replace (xorb s s) with false by (destruct s; reflexivity).
  apply binary_round_aux_signClear.
Qed.

Lemma fadd_signClear (a b : float) :
  signClear a = true -> signClear b = true -> signClear (fadd a b) = true.
Proof.
  destruct a as [sa | sa | | sa ma ea]; destruct b as [sb | sb | | sb mb eb];
    simpl; intros Ha Hb; try reflexivity; try assumption;
    apply negb_true_iff in Ha; apply negb_true_iff in Hb; subst;
    try reflexivity.
  unfold binary_normalize, binary_round; simpl.
  destruct (shl_align _ _ _) as [mz ez].
  apply binary_round_aux_signClear.
Qed.

Lemma fsqrt_signClear (v : float) :
  signClear v = true -> signClear (fsqrt v) = true.
Proof.
  destruct v as [s | s | | s m e]; simpl; intros Hv; try reflexivity;
    try assumption; apply negb_true_iff in Hv; subst; try reflexivity.
  destruct (SFsqrt_core_binary prec emax (Z.pos m) e) as [[mz ez] lz].
  apply binary_round_aux_signClear.
Qed.

Lemma fdiv_signClear (a b : float) :
  signClear a = true -> signClear b = true -> signClear (fdiv a b) = true.
Proof.
  destruct a as [sa | sa | | sa ma ea]; destruct b as [sb | sb | | sb mb eb];
    simpl; intros Ha Hb; try reflexivity;
    apply negb_true_iff in Ha; apply negb_true_iff in Hb; subst;
    try reflexivity.
  destruct (SFdiv_core_binary prec emax (Z.pos ma) ea (Z.pos mb) eb)
    as [[mz ez] lz].
  apply binary_round_aux_signClear.
Qed.

Lemma fmul_two_signClear (v : float) :
  signClear v = true -> signClear (fmul two v) = true.
Proof.
  destruct v as [s | s | | s m e]; simpl; intros Hv; try reflexivity;
    apply negb_true_iff in Hv; subst; try reflexivity.
  apply binary_round_aux_signClear.
Qed.

Lemma signClear_not_negative (v : float) :
  signClear v = true -> isNegative v = false.
Proof.
  destruct v as [s | s | | s m e]; simpl; intros Hv; try reflexivity;
    apply negb_true_iff in Hv; subst; reflexivity.
Qed.

Lemma fsub_diag (v : float) : isFinite v = true -> fsub v v = pzero.
Proof.
  destruct v as [s | s | | s m e]; simpl; intros Hv; try discriminate.
  - destruct s; reflexivity.
  - rewrite Z.min_id, Z.sub_diag. reflexivity.
Qed.

(** *** Rounding a non-negative mantissa never gives NaN *)

Lemma iter_shr_1_nonneg (p : positive) (mrs : shr_record) :
  (0 <= shr_m mrs)%Z -> (0 <= shr_m (iter_pos shr_1 p mrs))%Z.
Proof.
  revert mrs. induction p as [p IH | p IH |]; intros mrs H; simpl;
    auto using Binary64.shr_1_nonneg.
Qed.

Lemma shr_fexp_nonneg (m e : Z) (l : location) :
  (0 <= m)%Z -> (0 <= shr_m (fst (shr_fexp prec emax m e l)))%Z.
Proof.
  intros Hm. unfold shr_fexp, shr.
  assert (H0 : (0 <= shr_m (shr_record_of_loc m l))%Z).
  { destruct l as [| []]; exact Hm. }
  destruct (fexp prec emax (Zdigits2 m + e) - e)%Z; simpl;
    auto using iter_shr_1_nonneg.
Qed.

Lemma round_nearest_even_nonneg (m : Z) (l : location) :
  (0 <= m)%Z -> (0 <= round_nearest_even m l)%Z.
Proof.
  intros Hm. destruct l as [| []]; simpl; try lia.
  destruct (Z.even m); lia.
Qed.

Lemma binary_round_aux_not_nan (s : bool) (m e : Z) (l : location) :
  (0 <= m)%Z -> binary_round_aux prec emax s m e l <> S754_nan.
Proof.
  intros Hm. unfold binary_round_aux.
  pose proof (@shr_fexp_nonneg m e l Hm) as H1.
  destruct (shr_fexp prec emax m e l) as [mrs' e']. simpl in H1.
  pose proof (@shr_fexp_nonneg
                (round_nearest_even (shr_m mrs') (loc_of_shr_record mrs')) e'
                loc_Exact (@round_nearest_even_nonneg _ _ H1)) as H2.
  destruct (shr_fexp prec emax _ e' loc_Exact) as [mrs'' e'']. simpl in H2.
  destruct (shr_m mrs''); [discriminate | | lia].
  destruct (e'' <=? emax - prec)%Z; discriminate.
Qed.

Lemma SFdiv_core_nonneg (m1 m2 : positive) (e1 e2 : Z) :
  (0 <= fst (fst (SFdiv_core_binary prec emax (Z.pos m1) e1 (Z.pos m2) e2)))%Z.
Proof.
  unfold SFdiv_core_binary.
  set (s := (e1 - e2 - _)%Z).
  set (m' := match s with Z.pos _ => Z.shiftl (Z.pos m1) s | 0%Z => Z.pos m1 | Z.neg _ => 0%Z end).
  assert (Hm' : (0 <= m')%Z).
  { unfold m'. destruct s; try lia. apply Z.shiftl_nonneg. lia. }
  pose proof (Z.div_pos m' (Z.pos m2) Hm' eq_refl) as Hq.
  unfold Z.div in Hq. destruct (Z.div_eucl m' (Z.pos m2)) as [q r]. exact Hq.
Qed.

Lemma SFsqrt_core_nonneg (m : positive) (e : Z) :
  (0 <= fst (fst (SFsqrt_core_binary prec emax (Z.pos m) e)))%Z.
Proof.
  unfold SFsqrt_core_binary.
  set (s := (e - 2 * _)%Z).
  set (m' := match s with Z.pos _ => Z.shiftl (Z.pos m) s | 0%Z => Z.pos m | Z.neg _ => 0%Z end).
  pose proof (Z.sqrtrem_sqrt m') as Hs.
  destruct (Z.sqrtrem m') as [q r]. simpl in *. subst q. apply Z.sqrt_nonneg.
Qed.

Lemma round_not_nan (s : bool) (m e : Z) (l : location) :
  (0 <= m)%Z -> is_nan (binary_round_aux prec emax s m e l) = false.
Proof.
  intros Hm. pose proof (@binary_round_aux_not_nan s m e l Hm) as H.
  destruct (binary_round_aux prec emax s m e l); try reflexivity. contradiction.
Qed.

Lemma binary_normalize_not_nan (m e : Z) (szero : bool) :
  is_nan (binary_normalize prec emax m e szero) = false.
Proof.
  unfold binary_normalize, binary_round.
  destruct m as [| p | p]; [reflexivity | |];
    destruct (shl_align _ _ _) as [mz ez]; apply round_not_nan; lia.
Qed.

Lemma fsub_finite_not_nan (a b : float) :
  isFinite a = true -> isFinite b = true -> is_nan (fsub a b) = false.
Proof.
  destruct a as [sa | sa | | sa ma ea]; destruct b as [sb | sb | | sb mb eb];
    simpl; intros Ha Hb; try discriminate; try reflexivity.
  - destruct sa, sb; reflexivity.
  - apply binary_normalize_not_nan.
Qed.

Lemma fmul_self_not_nan (v : float) :
  is_nan v = false -> is_nan (fmul v v) = false.
Proof.
  destruct v as [s | s | | s m e]; simpl; intros Hv; try discriminate;
    try reflexivity.
  apply round_not_nan. lia.
Qed.

Lemma fadd_not_nan (a b : float) :
  signClear a = true -> signClear b = true ->
  is_nan a = false -> is_nan b = false -> is_nan (fadd a b) = false.
Proof.
  destruct a as [sa | sa | | sa ma ea]; destruct b as [sb | sb | | sb mb eb];
    simpl; intros Ha Hb Na Nb; try discriminate; try reflexivity;
    apply negb_true_iff in Ha; apply negb_true_iff in Hb; subst;
    try reflexivity.
  apply binary_normalize_not_nan.
Qed.

Lemma fsqrt_not_nan (v : float) :
  signClear v = true -> is_nan v = false -> is_nan (fsqrt v) = false.
Proof.
  destruct v as [s | s | | s m e]; simpl; intros Hv Nv; try discriminate;
    try reflexivity; apply negb_true_iff in Hv; subst; try reflexivity.
  pose proof (SFsqrt_core_nonneg m e) as Hq.
  destruct (SFsqrt_core_binary prec emax (Z.pos m) e) as [[mz ez] lz].
  apply round_not_nan, Hq.
Qed.

Lemma fmul_two_not_nan (v : float) :
  is_nan v = false -> is_nan (fmul two v) = false.
Proof.
  destruct v as [s | s | | s m e]; simpl; intros Nv; try discriminate;
    try reflexivity.
  apply round_not_nan. lia.
Qed.

(** A quotient by a non-zero number is NaN only as Infinity / Infinity. *)
Lemma fdiv_nan_inf_inf (a b : float) :
  is_nan a = false -> is_nan b = false -> is_zero b = false ->
  is_nan (fdiv a b) = true ->
  is_infinite a = true /\ is_infinite b = true.
Proof.
  destruct a as [sa | sa | | sa ma ea]; destruct b as [sb | sb | | sb mb eb];
    simpl; intros Na Nb Zb Hnan; try discriminate; auto.
  pose proof (SFdiv_core_nonneg ma mb ea eb) as Hq.
  destruct (SFdiv_core_binary prec emax (Z.pos ma) ea (Z.pos mb) eb)
    as [[mz ez] lz].
  simpl in Hq. rewrite (@round_not_nan (xorb sa sb) mz ez lz Hq) in Hnan.
  discriminate.
Qed.

Lemma above_epsilon_not_zero (v : float) :
  SFleb v epsilon = false -> is_zero v = false.
Proof. destruct v; simpl; try reflexivity. discriminate. Qed.

Lemma signClear_infinite (v : float) :
  signClear v = true -> is_infinite v = true -> v = pinf.
Proof.
  destruct v as [s | s | | s m e]; simpl; try discriminate.
  intros Hs _. apply negb_true_iff in Hs. subst. reflexivity.
Qed.


(** *** Magnitudes only *)

(** The sign given to [binary_round_aux] is only stamped on its result. *)
Lemma binary_round_aux_abs (s s' : bool) (m e : Z) (l : location) :
  SFabs (binary_round_aux prec emax s m e l)
  = SFabs (binary_round_aux prec emax s' m e l).
Proof.
  unfold binary_round_aux.
  destruct (shr_fexp prec emax m e l) as [mrs' e'].
  destruct (shr_fexp prec emax _ e' loc_Exact) as [mrs'' e''].
  destruct (shr_m mrs''); [reflexivity | | reflexivity].
  destruct (e'' <=? emax - prec)%Z; reflexivity.
Qed.

Lemma binary_normalize_opp_abs (m e : Z) (z : bool) :
  SFabs (binary_normalize prec emax (- m) e z)
  = SFabs (binary_normalize prec emax m e z).
Proof.
  destruct m as [| p | p]; [reflexivity | |];
    unfold binary_normalize, binary_round; cbn [Z.opp];
    destruct (shl_align p e _) as [mz ez]; apply binary_round_aux_abs.
Qed.

(** Swapping the operands of a subtraction changes at most the sign. *)
Lemma fsub_swap_abs (a b : float) : SFabs (fsub a b) = SFabs (fsub b a).
Proof.
  destruct a as [sa | sa | | sa ma ea]; destruct b as [sb | sb | | sb mb eb];
    try reflexivity;
    try (destruct sa, sb; reflexivity);
    try (destruct sa; reflexivity);
    try (destruct sb; reflexivity).
  unfold fsub, SFsub. rewrite (Z.min_comm eb ea).
  rewrite <- binary_normalize_opp_abs. f_equal. f_equal. lia.
Qed.

Lemma fmul_self_abs (u v : float) : SFabs u = SFabs v -> fmul u u = fmul v v.
Proof.
  destruct u as [su | su | | su mu eu]; destruct v as [sv | sv | | sv mv ev];
    simpl; intros H; try discriminate; try reflexivity.
  - destruct su, sv; reflexivity.
  - destruct su, sv; reflexivity.
  - injection H as -> ->. destruct su, sv; reflexivity.
Qed.

Lemma SFabs_idem (u : float) : SFabs (SFabs u) = SFabs u.
Proof. destruct u; reflexivity. Qed.

Lemma classes_abs (u v : float) :
  SFabs u = SFabs v ->
  is_infinite u = is_infinite v /\ is_nan u = is_nan v /\ is_zero u = is_zero v.
Proof.
  destruct u, v; simpl; intros H; try discriminate; repeat split.
Qed.

(** Addition of doubles is commutative, on every pair of values. *)
Lemma fadd_comm (a b : float) : fadd a b = fadd b a.
Proof.
  destruct a as [sa | sa | | sa ma ea]; destruct b as [sb | sb | | sb mb eb];
    try reflexivity; try (destruct sa, sb; reflexivity).
  unfold fadd, SFadd. rewrite (Z.min_comm eb ea). f_equal. apply Z.add_comm.
Qed.

(** *** The textbook formula meets the assumptions on the engine *)

Lemma textbook_signClear (u v : float) : signClear (textbook_hypot u v) = true.
Proof. apply fsqrt_signClear, fadd_signClear; apply fmul_self_signClear. Qed.

Lemma textbook_valid (u v : float) :
  valid u = true -> valid v = true -> valid (textbook_hypot u v) = true.
Proof. intros _ _. apply Binary64.fsqrt_valid. Qed.

Lemma textbook_not_nan (u v : float) :
  is_nan u = false -> is_nan v = false -> is_nan (textbook_hypot u v) = false.
Proof.
  intros Nu Nv. apply fsqrt_not_nan.
  - apply fadd_signClear; apply fmul_self_signClear.
  - apply fadd_not_nan; auto using fmul_self_signClear, fmul_self_not_nan.
Qed.

Lemma textbook_abs (u v : float) :
  textbook_hypot u v = textbook_hypot (SFabs u) (SFabs v).
Proof.
  unfold textbook_hypot.
  rewrite (@fmul_self_abs u (SFabs u)), (@fmul_self_abs v (SFabs v));
    [reflexivity | |]; symmetry; apply SFabs_idem.
Qed.

Lemma textbook_bounded (u v : float) (k : Z) :
  (-537 <= k)%Z -> (k <= 510)%Z ->
  valid u = true -> valid v = true ->
  magBelow k u = true -> magBelow k v = true ->
  magBelow (k + 3) (textbook_hypot u v) = true.
Proof.
  intros Hlo Hhi Vu Vv Mu Mv. unfold textbook_hypot.
  destruct (@Binary64.fmul_spec u u Vu Vu) as [_ Huu].
  destruct (@Binary64.fmul_spec v v Vv Vv) as [_ Hvv].
  specialize (Huu k k Mu Mu ltac:(lia) ltac:(lia)).
  specialize (Hvv k k Mv Mv ltac:(lia) ltac:(lia)).
  pose proof (@Binary64.fadd_magBelow _ _ (k + k + 1)%Z
                ltac:(lia) ltac:(lia) Huu Hvv) as Hsum.
  pose proof (@Binary64.fsqrt_magBelow _ (k + k + 1 + 2)%Z
                (@fadd_signClear _ _ (fmul_self_signClear u)
                   (fmul_self_signClear v))
                Hsum) as Hsqrt.
  replace ((k + k + 1 + 2 + 1) / 2 + 1)%Z with (k + 3)%Z in Hsqrt
    by (Z.div_mod_to_equations; lia).
  apply Hsqrt; Z.div_mod_to_equations; lia.
Qed.

#[export] Instance textbookEngine : HypotEngine :=
  {| hypot_general := textbook_hypot;
     hypot_signClear := textbook_signClear;
     hypot_valid := textbook_valid;
     hypot_not_nan := textbook_not_nan;
     hypot_abs := textbook_abs;
     hypot_bounded := textbook_bounded |}.

(** *** For every engine *)

Section Engine.
Context {E : HypotEngine}.

Lemma Math_hypot_signClear (a b : float) : signClear (Math_hypot a b) = true.
Proof.
  unfold Math_hypot.
  destruct (is_infinite a || is_infinite b); [reflexivity |].
  destruct (is_nan a || is_nan b); [reflexivity |].
  destruct (is_zero a && is_zero b); [reflexivity |].
  apply hypot_signClear.
Qed.

Lemma dist_signClear (a b : Point) : signClear (dist a b) = true.
Proof. apply Math_hypot_signClear. Qed.

Lemma ear_signClear (p1 p2 p3 p4 p5 p6 : Point) :
  signClear (ear p1 p2 p3 p4 p5 p6) = true.
Proof.
  unfold ear.
  destruct (SFleb (fmul two (dist p1 p4)) epsilon); [reflexivity |].
  apply fdiv_signClear.
  - apply fadd_signClear; apply dist_signClear.
  - apply fmul_two_signClear, dist_signClear.
Qed.

(** The EAR of a frame is never negative either. *)
Lemma curEar_signClear (lm : nat -> Point) : signClear (curEar lm) = true.
Proof.
  unfold curEar. apply fdiv_signClear; [| reflexivity].
  apply fadd_signClear; apply ear_signClear.
Qed.

Lemma dist_diag (p : Point) : finitePoint p = true -> dist p p = pzero.
Proof.
  unfold finitePoint, dist. intros Hp.
  apply andb_true_iff in Hp. destruct Hp as [Hx Hy].
  rewrite (fsub_diag _ Hx), (fsub_diag _ Hy). reflexivity.
Qed.

Lemma Math_hypot_not_nan (a b : float) :
  is_nan a = false -> is_nan b = false -> is_nan (Math_hypot a b) = false.
Proof.
  intros Na Nb. unfold Math_hypot. rewrite Na, Nb. simpl.
  destruct (is_infinite a || is_infinite b); [reflexivity |].
  destruct (is_zero a && is_zero b); [reflexivity |].
  apply hypot_not_nan; assumption.
Qed.

(** The distance of two points with finite coordinates is never NaN. *)
Lemma dist_not_nan (a b : Point) :
  finitePoint a = true -> finitePoint b = true -> is_nan (dist a b) = false.
Proof.
  unfold finitePoint, dist. intros Ha Hb.
  apply andb_true_iff in Ha. apply andb_true_iff in Hb.
  destruct Ha as [Hax Hay]. destruct Hb as [Hbx Hby].
  apply Math_hypot_not_nan; apply fsub_finite_not_nan; assumption.
Qed.

(** On points with finite coordinates a result that is not finite is
    +Infinity, or the NaN of an overflowed numerator over an overflowed
    denominator. *)
Lemma ear_not_finite (p1 p2 p3 p4 p5 p6 : Point) :
  finitePoint p1 = true -> finitePoint p2 = true -> finitePoint p3 = true ->
  finitePoint p4 = true -> finitePoint p5 = true -> finitePoint p6 = true ->
  isFinite (ear p1 p2 p3 p4 p5 p6) = false ->
  ear p1 p2 p3 p4 p5 p6 = pinf \/
  (ear p1 p2 p3 p4 p5 p6 = S754_nan /\
   fadd (dist p2 p6) (dist p3 p5) = pinf /\
   fmul two (dist p1 p4) = pinf).
Proof.
  intros F1 F2 F3 F4 F5 F6 Hnf.
  pose proof (ear_signClear p1 p2 p3 p4 p5 p6) as Hsign.
  destruct (ear p1 p2 p3 p4 p5 p6) as [s | s | | s m e] eqn:Hear;
    try discriminate.
  - left. apply signClear_infinite; [exact Hsign | reflexivity].
  - right. split; [reflexivity |].
    unfold ear in Hear.
    destruct (SFleb (fmul two (dist p1 p4)) epsilon) eqn:Hguard;
      [discriminate |].
    assert (Hnum : is_nan (fadd (dist p2 p6) (dist p3 p5)) = false).
    { apply fadd_not_nan; auto using dist_signClear, dist_not_nan. }
    assert (Hden : is_nan (fmul two (dist p1 p4)) = false).
    { apply fmul_two_not_nan, dist_not_nan; assumption. }
    destruct (@fdiv_nan_inf_inf _ _ Hnum Hden (@above_epsilon_not_zero _ Hguard))
      as [Hi1 Hi2].
    { rewrite Hear. reflexivity. }
    split; apply signClear_infinite; auto.
    + apply fadd_signClear; apply dist_signClear.
    + apply fmul_two_signClear, dist_signClear.
Qed.

(** *** Coordinates of moderate magnitude *)

Lemma magBelow_isFinite (k : Z) (v : float) :
  magBelow k v = true -> isFinite v = true.
Proof. destruct v; simpl; intros H; try discriminate; reflexivity. Qed.

Lemma Math_hypot_moderate (u v : float) (k : Z) :
  (-537 <= k)%Z -> (k <= 510)%Z ->
  valid u = true -> valid v = true ->
  magBelow k u = true -> magBelow k v = true ->
  valid (Math_hypot u v) = true /\ magBelow (k + 3) (Math_hypot u v) = true.
Proof.
  intros Hlo Hhi Vu Vv Mu Mv. unfold Math_hypot.
  replace (is_infinite u) with false by (destruct u; simpl in *; congruence).
  replace (is_infinite v) with false by (destruct v; simpl in *; congruence).
  replace (is_nan u) with false by (destruct u; simpl in *; congruence).
  replace (is_nan v) with false by (destruct v; simpl in *; congruence).
  cbn [orb].
  destruct (is_zero u && is_zero v); [split; reflexivity |].
  split; [apply hypot_valid | apply hypot_bounded]; assumption.
Qed.

Lemma dist_moderate (a b : Point) :
  moderatePoint a = true -> moderatePoint b = true ->
  valid (dist a b) = true /\ magBelow 513 (dist a b) = true.
Proof.
  unfold moderatePoint. intros Ha Hb.
  repeat (apply andb_true_iff in Ha; destruct Ha as [Ha ?]).
  repeat (apply andb_true_iff in Hb; destruct Hb as [Hb ?]).
  unfold dist.
  apply (@Math_hypot_moderate _ _ 510%Z); try lia.
  - apply Binary64.fsub_valid; assumption.
  - apply Binary64.fsub_valid; assumption.
  - apply (@Binary64.fsub_magBelow _ _ 508%Z); try lia; assumption.
  - apply (@Binary64.fsub_magBelow _ _ 508%Z); try lia; assumption.
Qed.

(** A denominator above the epsilon is at least [2 ^ -72]. *)
Lemma above_epsilon_magAtLeast (v : float) (k : Z) :
  signClear v = true -> magBelow k v = true -> SFleb v epsilon = false ->
  magAtLeast (-71) v = true.
Proof.
  destruct v as [s | s | | s m e]; cbn [signClear magBelow magAtLeast];
    intros Hs Hk Hle; try discriminate.
  apply negb_true_iff in Hs. subst s.
  unfold SFleb, SFcompare, epsilon in Hle.
  apply Z.leb_le. cbn [Zdigits2].
  assert (Hd : (1 <= Z.pos (digits2_pos m))%Z) by lia.
  destruct (Z.compare_spec e (-72)) as [He | He | He]; try discriminate; lia.
Qed.

Lemma two_valid : valid two = true /\ magBelow 2 two = true.
Proof. split; reflexivity. Qed.

(** On six points of moderate magnitude [ear] returns a finite double. *)
Lemma ear_moderate (p1 p2 p3 p4 p5 p6 : Point) :
  moderatePoint p1 = true -> moderatePoint p2 = true ->
  moderatePoint p3 = true -> moderatePoint p4 = true ->
  moderatePoint p5 = true -> moderatePoint p6 = true ->
  isFinite (ear p1 p2 p3 p4 p5 p6) = true /\
  valid (ear p1 p2 p3 p4 p5 p6) = true.
Proof.
  intros M1 M2 M3 M4 M5 M6. unfold ear.
  destruct (SFleb (fmul two (dist p1 p4)) epsilon) eqn:Hguard;
    [split; reflexivity |].
  split; [| apply Binary64.fdiv_valid].
  destruct (@dist_moderate p2 p6 M2 M6) as [V26 B26].
  destruct (@dist_moderate p3 p5 M3 M5) as [V35 B35].
  destruct (@dist_moderate p1 p4 M1 M4) as [V14 B14].
  destruct two_valid as [Vtwo Btwo].
  destruct (@Binary64.fmul_spec _ _ Vtwo V14) as [_ Hden].
  specialize (Hden 2%Z 513%Z Btwo B14 ltac:(lia) ltac:(lia)).
  pose proof (@Binary64.fadd_magBelow _ _ 513%Z ltac:(lia) ltac:(lia) B26 B35)
    as Hnum.
  pose proof (@above_epsilon_magAtLeast _ _
                (@fmul_two_signClear _ (dist_signClear p1 p4)) Hden Hguard)
    as Hlow.
  apply (@magBelow_isFinite (515 - -71 + 2)%Z).
  apply Binary64.fdiv_magBelow; try assumption; lia.
Qed.

(** The overflow of C8, for every engine: only the cases ECMAScript fixes
    are used. *)
Lemma ear_overflow_nan :
  let a := {| x := MAX_VALUE; y := pzero |} in
  let b := {| x := SFopp MAX_VALUE; y := pzero |} in
  let o := {| x := pzero; y := pzero |} in
  ear a a o b o b = S754_nan.
Proof. vm_compute. reflexivity. Qed.

(** C8 (amended).  [ear] returns exactly +0 whenever the denominator
    [2 * dist p1 p4] is at or below the epsilon 1e-6, in particular when
    p1 and p4 are the same finite point; whatever the six points are, the
    value it returns is never negative (it is NaN or has a clear sign
    bit); on six points whose coordinates are below 2^508 in magnitude it
    is a finite double; and on six points with finite coordinates a value
    that is not finite is +Infinity, or NaN with both the numerator and
    the denominator overflowed to +Infinity.  All of it holds whatever the
    engine's [Math.hypot] returns in the cases ECMAScript leaves to it,
    within the assumptions of [HypotEngine]. *)
Theorem ear_zero_on_small_denominator_never_negative
  (p1 p2 p3 p4 p5 p6 : Point) :
  (SFleb (fmul two (dist p1 p4)) epsilon = true ->
   ear p1 p2 p3 p4 p5 p6 = pzero) /\
  (finitePoint p1 = true -> ear p1 p2 p3 p1 p5 p6 = pzero) /\
  isNegative (ear p1 p2 p3 p4 p5 p6) = false /\
  signClear (ear p1 p2 p3 p4 p5 p6) = true /\
  (moderatePoint p1 = true -> moderatePoint p2 = true ->
   moderatePoint p3 = true -> moderatePoint p4 = true ->
   moderatePoint p5 = true -> moderatePoint p6 = true ->
   isFinite (ear p1 p2 p3 p4 p5 p6) = true /\
   valid (ear p1 p2 p3 p4 p5 p6) = true) /\
  (finitePoint p1 = true -> finitePoint p2 = true -> finitePoint p3 = true ->
   finitePoint p4 = true -> finitePoint p5 = true -> finitePoint p6 = true ->
   isFinite (ear p1 p2 p3 p4 p5 p6) = false ->
   ear p1 p2 p3 p4 p5 p6 = pinf \/
   (ear p1 p2 p3 p4 p5 p6 = S754_nan /\
    fadd (dist p2 p6) (dist p3 p5) = pinf /\
    fmul two (dist p1 p4) = pinf)).
Proof.
  split; [| split; [| split; [| split; [| split]]]].
  - intros Hle. unfold ear. rewrite Hle. reflexivity.
  - intros Hp. unfold ear. rewrite (dist_diag _ Hp). reflexivity.
  - apply signClear_not_negative, ear_signClear.
  - apply ear_signClear.
  - apply ear_moderate.
  - apply ear_not_finite.
Qed.

End Engine.

(** C8 (counterexample).  Six points with finite coordinates on which
    [ear] returns NaN: p1 = p2 = (MAX_VALUE, 0), p4 = p6 =
    (-MAX_VALUE, 0), p3 = p5 = (0, 0).  The differences overflow to
    Infinity, [Math.hypot] of an infinite argument is +Infinity, the
    denominator is Infinity (which is not at or below the epsilon), and the
    quotient Infinity / Infinity is NaN.  The engine does not matter
    ([ear_overflow_nan]); it is evaluated here with the textbook one. *)
Lemma ear_finite_points_nan :
  let a := {| x := MAX_VALUE; y := pzero |} in
  let b := {| x := SFopp MAX_VALUE; y := pzero |} in
  let o := {| x := pzero; y := pzero |} in
  finitePoint a = true /\ finitePoint b = true /\ finitePoint o = true /\
  valid MAX_VALUE = true /\
  ear (E := textbookEngine) a a o b o b = S754_nan /\
  isFinite (ear (E := textbookEngine) a a o b o b) = false.
Proof. vm_compute. repeat split; reflexivity. Qed.

Lemma ear_zero_on_small_denominator_witness :
  let p := {| x := two; y := epsilon |} in
  let q := {| x := epsilon; y := two |} in
  ear (E := textbookEngine) p q q p q p = pzero /\
  isNegative (ear (E := textbookEngine) p q p q p q) = false /\
  isFinite (ear (E := textbookEngine) p q p q p q) = true.
Proof.
  intros p q. split; [| split].
  - apply (@ear_zero_on_small_denominator_never_negative
             textbookEngine p q q p q p).
    reflexivity.
  - apply (@ear_zero_on_small_denominator_never_negative
             textbookEngine p q p q p q).
  - apply (@ear_zero_on_small_denominator_never_negative
             textbookEngine p q p q p q); reflexivity.
Defined.

(** An eye two units wide and one unit high has aspect ratio 1/2 (with
    the textbook engine, which is exact here). *)
Example ear_of_a_two_by_one_eye :
  let one := S754_finite false 4503599627370496 (-52) in
  let half := S754_finite false 4503599627370496 (-53) in
  let pt a b := {| x := a; y := b |} in
  ear (E := textbookEngine)
      (pt pzero pzero) (pt half one) (pt one one)
      (pt two pzero) (pt one pzero) (pt half pzero) = half.
Proof. vm_compute. reflexivity. Qed.

End GeometryFacts.

(** ** Comparisons on rationals *)

Lemma Qlt_bool_iff (a b : Q) : Qlt_bool a b = true <-> a < b.
Proof. unfold Qlt_bool, Qlt. apply Z.ltb_lt. Qed.

Lemma Qlt_bool_false_iff (a b : Q) : Qlt_bool a b = false <-> b <= a.
Proof. unfold Qlt_bool, Qle. apply Z.ltb_ge. Qed.

Lemma Qle_bool_false_iff (a b : Q) : Qle_bool a b = false <-> b < a.
Proof.
  rewrite <- not_true_iff_false, Qle_bool_iff. split.
  - apply Qnot_le_lt.
  - apply Qlt_not_le.
Qed.

(** ** Which cells each handler leaves alone *)

Ltac break_cond :=
  match goal with
  | |- context [if ?c then _ else _] => destruct c eqn:?
  | |- context [match ?x with Some _ => _ | None => _ end] => destruct x eqn:?
  end.

Ltac handlers :=
  unfold onResults, calibrationBlock, blinkStateMachine, blinksPerMinute,
    monitorTick, showAlertNotification.

Lemma blinksPerMinute_frame (r : Refs) (now : Q) :
  let r' := fst (blinksPerMinute r now) in
  baselineEarRef r' = baselineEarRef r /\
  eyeStateRef r' = eyeStateRef r /\
  closedFramesRef r' = closedFramesRef r /\
  lastBlinkMsRef r' = lastBlinkMsRef r /\
  lastBlinkAtRef r' = lastBlinkAtRef r /\
  blinkCountRef r' = blinkCountRef r /\
  lastAlertAtRef r' = lastAlertAtRef r /\
  lastNotifAtRef r' = lastNotifAtRef r /\
  existsb isBlinkDispatch (snd (blinksPerMinute r now)) = false.
Proof.
  handlers. repeat break_cond; simpl; repeat split; congruence.
Qed.

Lemma monitorTick_frame (cl : Closure) (r : Refs) (env : TickEnv) :
  let r' := fst (monitorTick cl r env) in
  baselineEarRef r' = baselineEarRef r /\
  calibStartRef r' = calibStartRef r /\
  maxEarRef r' = maxEarRef r /\
  openSamplesRef r' = openSamplesRef r /\
  eyeStateRef r' = eyeStateRef r /\
  closedFramesRef r' = closedFramesRef r /\
  lastBlinkMsRef r' = lastBlinkMsRef r /\
  lastBlinkAtRef r' = lastBlinkAtRef r /\
  blinkCountRef r' = blinkCountRef r /\
  existsb isBlinkDispatch (snd (monitorTick cl r env)) = false.
Proof.
  handlers. repeat break_cond; simpl; repeat split; congruence.
Qed.

Lemma calibrationBlock_frame (r : Refs) (now : Q) (curEar : Geometry.float) :
  let r' := fst (calibrationBlock r now curEar) in
  eyeStateRef r' = eyeStateRef r /\
  closedFramesRef r' = closedFramesRef r /\
  lastBlinkMsRef r' = lastBlinkMsRef r /\
  blinkCountRef r' = blinkCountRef r /\
  lastAlertAtRef r' = lastAlertAtRef r /\
  lastNotifAtRef r' = lastNotifAtRef r /\
  lastAlertOnRef r' = lastAlertOnRef r /\
  existsb isBlinkDispatch (snd (calibrationBlock r now curEar)) = false.
Proof.
  handlers. repeat break_cond; simpl; repeat split; congruence.
Qed.

Lemma blinkStateMachine_frame (r : Refs) (now : Q)
  (curEar baseline : Geometry.float) :
  let r' := fst (blinkStateMachine r now curEar baseline) in
  baselineEarRef r' = baselineEarRef r /\
  calibStartRef r' = calibStartRef r /\
  maxEarRef r' = maxEarRef r /\
  openSamplesRef r' = openSamplesRef r /\
  lastAlertAtRef r' = lastAlertAtRef r /\
  lastNotifAtRef r' = lastNotifAtRef r /\
  lastAlertOnRef r' = lastAlertOnRef r.
Proof.
  handlers. destruct (eyeStateRef r); repeat break_cond; simpl;
    repeat split; congruence.
Qed.

(** Once set, the baseline is never written again. *)
Lemma handle_baseline_stable (cl : Closure) (r : Refs) (ev : Event)
  (b : Geometry.float) :
  baselineEarRef r = Some b -> baselineEarRef (fst (handle cl r ev)) = Some b.
Proof.
  intros Hb. destruct ev as [[f |] | env]; simpl.
  - rewrite Hb.
    destruct (blinkStateMachine r (f_now f) (f_ear f) b) as [r1 effs1] eqn:E1.
    destruct (blinksPerMinute r1 (f_now f)) as [r2 effs2] eqn:E2. simpl.
    pose proof (blinksPerMinute_frame r1 (f_now f)) as H2.
    pose proof (blinkStateMachine_frame r (f_now f) (f_ear f) b) as H1.
    rewrite E2 in H2. rewrite E1 in H1. simpl in H1, H2.
    destruct H2 as [H2 _]. destruct H1 as [H1 _]. congruence.
  - exact Hb.
  - rewrite (proj1 (monitorTick_frame cl r env)). exact Hb.
Qed.

(** A property of every handler call of a run follows from an invariant of
    the session. *)
Lemma run_Forall (cl : Closure) (Inv : Session -> Prop) (P : Step -> Prop) :
  (forall s ev, Inv s ->
     Inv (step cl s ev) /\
     P {| before := s; event := ev; effects := effectsOf cl s ev;
          after := step cl s ev |}) ->
  forall evs s, Inv s -> Forall P (run cl s evs).
Proof.
  intros Hstep evs. induction evs as [| ev rest IH]; intros s Hs; simpl.
  - constructor.
  - destruct (Hstep s ev Hs) as [Hinv HP]. constructor; auto.
Qed.

Lemma refs_step (cl : Closure) (s : Session) (ev : Event) :
  refs (step cl s ev) = fst (handle cl (refs s) ev).
Proof. unfold step. destruct (handle cl (refs s) ev); reflexivity. Qed.

Lemma ui_step (cl : Closure) (s : Session) (ev : Event) :
  ui (step cl s ev) = publish (ui s) (effectsOf cl s ev).
Proof. unfold step, effectsOf. destruct (handle cl (refs s) ev); reflexivity. Qed.

(** ** The blink state machine *)

(** *** The two thresholds are ordered *)

Lemma threshold_signClear (b : Geometry.float) (m : positive) (e : Z) :
  Geometry.signClear b = true ->
  Geometry.signClear (Geometry.fmul b (S754_finite false m e)) = true.
Proof.
  destruct b as [s | s | | s mb eb]; simpl; intros Hb; try reflexivity;
    apply negb_true_iff in Hb; subst; try reflexivity.
  apply GeometryFacts.binary_round_aux_signClear.
Qed.

Lemma thresholds_ordered (b : Geometry.float) :
  Geometry.signClear b = true -> Geometry.is_nan b = false ->
  SFleb (closeThreshold b) (openThreshold b) = true.
Proof.
  intros Hsign Hnan. unfold closeThreshold, openThreshold, CLOSE_RATIO, OPEN_RATIO.
  apply Binary64Order.fmul_mono_r; try assumption.
  - apply Pos.leb_le. reflexivity.
  - apply Z.leb_le. reflexivity.
Qed.

(** With a baseline that is not negative, an EAR above the open threshold
    is not below the close threshold. *)
Lemma above_open_not_below_close (b e : Geometry.float) :
  Geometry.signClear b = true ->
  SFltb (openThreshold b) e = true ->
  SFltb e (closeThreshold b) = false.
Proof.
  intros Hsign Hopen.
  destruct (Geometry.is_nan b) eqn:Hnan.
  - destruct b; try discriminate Hnan. discriminate Hopen.
  - apply (@Binary64Order.above_larger_not_below_smaller
             (closeThreshold b) (openThreshold b) e).
    + apply threshold_signClear, Hsign.
    + apply threshold_signClear, Hsign.
    + apply thresholds_ordered; assumption.
    + exact Hopen.
Qed.

Lemma blinkStateMachine_emits (r : Refs) (now : Q) (curEar b : Geometry.float) :
  blinkEmitted (snd (blinkStateMachine r now curEar b)) = true <->
  qualifies b r {| f_now := now; f_ear := curEar |}.
Proof.
  unfold qualifies, reopens, closedDwell, closeThreshold, openThreshold,
    blinkStateMachine.
  cbn [f_now f_ear].
  destruct (eyeStateRef r) eqn:Heye.
  - destruct (SFltb curEar (Geometry.fmul b CLOSE_RATIO)); simpl;
      (split; [discriminate | intros [[H _] _]; discriminate]).
  - destruct (SFltb curEar (Geometry.fmul b CLOSE_RATIO)) eqn:Hc;
      destruct (SFltb (Geometry.fmul b OPEN_RATIO) curEar) eqn:Ho;
      cbn [closedFramesRef set_closedFrames lastBlinkMsRef];
      try (simpl; split; [discriminate | intros [[_ H] _]; discriminate]);
      match goal with
      | |- context [(MIN_CLOSED_FRAMES <=? ?k)%Z] =>
          destruct (MIN_CLOSED_FRAMES <=? k)%Z eqn:Hlong
      end;
      destruct (Qle_bool MIN_BLINK_GAP_MS (now - lastBlinkMsRef r)) eqn:Hfar;
      simpl;
      try apply Z.leb_le in Hlong; try apply Z.leb_gt in Hlong;
      try apply Qle_bool_iff in Hfar; try apply Qle_bool_false_iff in Hfar;
      try tauto;
      (split; [discriminate | intros [_ [H1 H2]]; try lia; lra]).
Qed.

Lemma blinkStateMachine_reopens (r : Refs) (now : Q) (curEar b : Geometry.float) :
  eyeStateRef r = CLOSED -> SFltb (openThreshold b) curEar = true ->
  let r' := fst (blinkStateMachine r now curEar b) in
  eyeStateRef r' = OPEN /\ closedFramesRef r' = 0%Z.
Proof.
  intros Heye Ho. unfold openThreshold in Ho.
  unfold blinkStateMachine. rewrite Heye.
  destruct (SFltb curEar (Geometry.fmul b CLOSE_RATIO)); simpl; rewrite Ho;
    match goal with
    | |- context [if ?c then _ else _] => destruct c
    end; simpl; split; reflexivity.
Qed.

Lemma blinkEmitted_app (l1 l2 : list Effect) :
  blinkEmitted (l1 ++ l2) = blinkEmitted l1 || blinkEmitted l2.
Proof. apply existsb_app. Qed.

(** What [onResults] does once the baseline is set: the state machine, then
    the rate estimator. *)
Lemma onResults_monitoring (r : Refs) (f : FrameInput) (b : Geometry.float) :
  baselineEarRef r = Some b ->
  let m := blinkStateMachine r (f_now f) (f_ear f) b in
  let e := blinksPerMinute (fst m) (f_now f) in
  onResults r (Some f) = (fst e, snd m ++ snd e).
Proof.
  intros Hb. simpl. rewrite Hb.
  destruct (blinkStateMachine r (f_now f) (f_ear f) b) as [r1 effs1].
  simpl. destruct (blinksPerMinute r1 (f_now f)); reflexivity.
Qed.



(** The scenario of the specification: baseline 0.30 and the EAR sequence
    0.30, 0.15, 0.12, 0.28 at frames 33 ms apart count exactly one blink, at
    the fourth frame, and leave the machine OPEN with a zero count. *)
Example scenario_one_blink :
  let cl := closureOf initialState true in
  let s := {| refs := set_baselineEar (Some ear_0_3) resetRefs;
              ui := ui (startSession initialState) |} in
  let steps :=
    run cl s [Results (Some {| f_now := 1000; f_ear := ear_0_3 |});
              Results (Some {| f_now := 1033; f_ear := ear_0_15 |});
              Results (Some {| f_now := 1066; f_ear := ear_0_12 |});
              Results (Some {| f_now := 1099; f_ear := ear_0_28 |})] in
  map (fun st => blinkEmitted (effects st)) steps = [false; false; false; true] /\
  map (fun st => (eyeStateRef (refs (after st)), closedFramesRef (refs (after st))))
    steps = [(OPEN, 0%Z); (CLOSED, 1%Z); (CLOSED, 2%Z); (OPEN, 0%Z)] /\
  map (fun st => blinks (ui (after st))) steps = [0%Z; 0%Z; 0%Z; 1%Z].
Proof. vm_compute. repeat split; reflexivity. Qed.

(** At the boundary the rounding of the threshold decides.  With the
    baseline 0.154 and the machine CLOSED with a count of 2, a frame
    whose EAR is the double [0.154 * 0.82] rounds to does not exceed the
    open threshold, which is that same double: the machine stays CLOSED
    and no blink is emitted. *)
Example rounded_threshold_decides :
  let b := S754_finite false 5548434740920451 (-55) in
  let e := S754_finite false 4549716487554770 (-55) in
  let r := set_closedFrames 2 (set_eyeState CLOSED
             (set_baselineEar (Some b) resetRefs)) in
  openThreshold b = e /\
  blinkStateMachine r 1000 e b = (r, []).
Proof. vm_compute. split; reflexivity. Qed.

Lemma blinkStateMachine_discipline (r : Refs) (now : Q)
  (curEar b : Geometry.float) :
  (eyeStateRef r = OPEN -> closedFramesRef r = 0%Z) ->
  let r' := fst (blinkStateMachine r now curEar b) in
  (eyeStateRef r' = OPEN -> closedFramesRef r' = 0%Z) /\
  (eyeStateRef r = CLOSED -> eyeStateRef r' = CLOSED ->
   (closedFramesRef r <= closedFramesRef r')%Z).
Proof.
  intros Hinv. unfold blinkStateMachine.
  destruct (eyeStateRef r) eqn:Heye.
  - destruct (SFltb curEar (Geometry.fmul b CLOSE_RATIO)); simpl; split;
      try discriminate; auto.
  - destruct (SFltb curEar (Geometry.fmul b CLOSE_RATIO));
      destruct (SFltb (Geometry.fmul b OPEN_RATIO) curEar); simpl;
      repeat match goal with
             | |- context [if ?c then _ else _] => destruct c; simpl
             end;
      rewrite ?Heye; split; intros; try discriminate; try reflexivity; lia.
Qed.

Lemma handle_discipline (cl : Closure) (r : Refs) (ev : Event) :
  (eyeStateRef r = OPEN -> closedFramesRef r = 0%Z) ->
  let r' := fst (handle cl r ev) in
  (eyeStateRef r' = OPEN -> closedFramesRef r' = 0%Z) /\
  (eyeStateRef r = CLOSED -> eyeStateRef r' = CLOSED ->
   (closedFramesRef r <= closedFramesRef r')%Z).
Proof.
  intros Hinv. destruct ev as [[f |] | env]; cbn [handle].
  - destruct (baselineEarRef r) as [b |] eqn:Hbase.
    + rewrite (onResults_monitoring _ _ Hbase). cbn [fst].
      pose proof (blinksPerMinute_frame
                    (fst (blinkStateMachine r (f_now f) (f_ear f) b))
                    (f_now f)) as Hbpm.
      cbv zeta in Hbpm. destruct Hbpm as (_ & Heye & Hcnt & _).
      cbv zeta. rewrite Heye, Hcnt.
      apply blinkStateMachine_discipline, Hinv.
    + unfold onResults. rewrite Hbase.
      pose proof (calibrationBlock_frame r (f_now f) (f_ear f)) as Hcal.
      cbv zeta in Hcal. destruct Hcal as (Heye & Hcnt & _).
      cbv zeta. rewrite Heye, Hcnt. split; [exact Hinv | intros; lia].
  - simpl. split; [exact Hinv | intros; lia].
  - pose proof (monitorTick_frame cl r env) as Htick.
    cbv zeta in Htick. destruct Htick as (_ & _ & _ & _ & Heye & Hcnt & _).
    cbv zeta. rewrite Heye, Hcnt. split; [exact Hinv | intros; lia].
Qed.

(** C7.  In every run from the start of a session, whatever frames and
    ticks arrive: the closed-frame count is 0 whenever the eye state is
    OPEN (before and after every handler call, so in particular after every
    transition to OPEN), and it does not decrease across a call that finds
    and leaves the state CLOSED. *)
Theorem closed_count_zero_when_open_monotone_when_closed
  (cl : Closure) (u : UiState) (evs : list Event) :
  Forall closedCountDiscipline (run cl (startSession u) evs).
Proof.
  apply (run_Forall cl
           (fun s => eyeStateRef (refs s) = OPEN ->
                     closedFramesRef (refs s) = 0%Z)).
  - intros s ev Hinv.
    pose proof (handle_discipline cl (refs s) ev Hinv) as H.
    cbv zeta in H. rewrite <- refs_step in H. destruct H as [H1 H2].
    split; [exact H1 |].
    unfold closedCountDiscipline; simpl. auto.
  - reflexivity.
Qed.

(** ** A blink event and what it resets *)

Lemma blinkStateMachine_blink (r : Refs) (now : Q) (curEar b : Geometry.float) :
  blinkEmitted (snd (blinkStateMachine r now curEar b)) = true ->
  let m := blinkStateMachine r now curEar b in
  snd m = [Dispatch (SET_BLINKS (blinkCountRef r + 1)%Z);
           Dispatch (SET_SECONDS 0); Dispatch ALERT_OFF] /\
  blinkCountRef (fst m) = (blinkCountRef r + 1)%Z /\
  lastBlinkAtRef (fst m) = Some now /\
  lastBlinkMsRef (fst m) = now.
Proof.
  unfold blinkStateMachine.
  destruct (eyeStateRef r).
  - destruct (SFltb curEar (Geometry.fmul b CLOSE_RATIO)); simpl; discriminate.
  - destruct (SFltb curEar (Geometry.fmul b CLOSE_RATIO));
      destruct (SFltb (Geometry.fmul b OPEN_RATIO) curEar); simpl; try discriminate;
      match goal with
      | |- context [if ?c then _ else _] => destruct c
      end; simpl; try discriminate; intros _; repeat split; reflexivity.
Qed.

Lemma blinksPerMinute_effects (r : Refs) (now : Q) :
  snd (blinksPerMinute r now) = [] \/
  exists bpm, snd (blinksPerMinute r now) = [Dispatch (SET_BPM bpm)].
Proof.
  unfold blinksPerMinute.
  match goal with
  | |- context [if Qle_bool ?a ?b then _ else _] => destruct (Qle_bool a b)
  end; simpl; eauto.
Qed.

Lemma blink_step_resets (cl : Closure) (s : Session) (ev : Event) :
  blinkEmitted (effectsOf cl s ev) = true ->
  blinkResetsMonitor {| before := s; event := ev;
                        effects := effectsOf cl s ev;
                        after := step cl s ev |}.
Proof.
  unfold blinkResetsMonitor; cbn [before after event effects].
  rewrite ui_step, refs_step. unfold effectsOf.
  destruct ev as [[f |] | env]; cbn [handle].
  - destruct (baselineEarRef (refs s)) as [b |] eqn:Hbase.
    + rewrite (onResults_monitoring _ _ Hbase). cbn [fst snd].
      pose proof (blinksPerMinute_frame
                    (fst (blinkStateMachine (refs s) (f_now f) (f_ear f) b))
                    (f_now f)) as Hbpm.
      cbv zeta in Hbpm.
      destruct Hbpm as (_ & _ & _ & Hms & Hat & Hcnt & _ & _ & Hno).
      rewrite blinkEmitted_app. unfold blinkEmitted at 2. rewrite Hno.
      rewrite orb_false_r. intros Hblink.
      destruct (blinkStateMachine_blink _ _ _ _ Hblink)
        as (Heffs & Hcount & Hlast & Hlastms).
      rewrite Hms, Hat, Hcnt, Hlast, Hlastms, Hcount, Heffs.
      assert (Hui : forall tl, tl = [] \/ (exists bpm, tl = [Dispatch (SET_BPM bpm)]) ->
                blinks (publish (ui s)
                  ([Dispatch (SET_BLINKS (blinkCountRef (refs s) + 1)%Z);
                    Dispatch (SET_SECONDS 0); Dispatch ALERT_OFF] ++ tl))
                = (blinkCountRef (refs s) + 1)%Z /\
                secondsSinceBlink (publish (ui s)
                  ([Dispatch (SET_BLINKS (blinkCountRef (refs s) + 1)%Z);
                    Dispatch (SET_SECONDS 0); Dispatch ALERT_OFF] ++ tl)) = 0 /\
                alertOn (publish (ui s)
                  ([Dispatch (SET_BLINKS (blinkCountRef (refs s) + 1)%Z);
                    Dispatch (SET_SECONDS 0); Dispatch ALERT_OFF] ++ tl)) = false).
      { intros tl [-> | [bpm ->]]; simpl; repeat split; reflexivity. }
      destruct (Hui _ (blinksPerMinute_effects
                         (fst (blinkStateMachine (refs s) (f_now f) (f_ear f) b))
                         (f_now f))) as (Hb1 & Hb2 & Hb3).
      rewrite Hb1, Hb2, Hb3.
      repeat split; try reflexivity.
      * exists f. repeat split; reflexivity.
      * symmetry; assumption.
      * symmetry; assumption.
    + unfold onResults. rewrite Hbase.
      pose proof (calibrationBlock_frame (refs s) (f_now f) (f_ear f)) as Hcal.
      cbv zeta in Hcal. destruct Hcal as (_ & _ & _ & _ & _ & _ & _ & Hno).
      unfold blinkEmitted. rewrite Hno. discriminate.
  - simpl. discriminate.
  - pose proof (monitorTick_frame cl (refs s) env) as Htick.
    cbv zeta in Htick.
    destruct Htick as (_ & _ & _ & _ & _ & _ & _ & _ & _ & Hno).
    unfold blinkEmitted. rewrite Hno. discriminate.
Qed.

(** C6.  A handler call that emits a blink event is a frame; it adds
    exactly 1 to [blinkCountRef] and publishes the new count, sets
    [lastBlinkAtRef] to the frame's time, publishes 0 seconds since the
    last blink and clears the alert flag, whatever the state before.  In
    particular, when the published seconds were already 0 and the flag
    already clear, both are unchanged. *)
Theorem blink_event_counts_once_and_resets
  (cl : Closure) (s : Session) (ev : Event) :
  blinkEmitted (effectsOf cl s ev) = true ->
  blinkResetsMonitor {| before := s; event := ev;
                        effects := effectsOf cl s ev;
                        after := step cl s ev |}.
Proof. apply blink_step_resets. Qed.

Lemma blink_event_witness :
  let cl := closureOf initialState true in
  let s := {| refs := set_closedFrames 2%Z
                        (set_eyeState CLOSED
                           (set_baselineEar (Some ear_0_3) resetRefs));
              ui := reducer (reducer (startSession initialState).(ui)
                               (SET_SECONDS 12)) ALERT_ON |} in
  let ev := Results (Some {| f_now := 1099; f_ear := ear_0_28 |}) in
  blinkResetsMonitor {| before := s; event := ev;
                        effects := effectsOf cl s ev;
                        after := step cl s ev |}.
Proof.
  intros cl s ev.
  apply (blink_event_counts_once_and_resets cl s ev).
  reflexivity.
Defined.

(** ** Calibration *)

Lemma exec_snoc (cl : Closure) (s : Session) (evs : list Event) (ev : Event) :
  exec cl s (evs ++ [ev]) = step cl (exec cl s evs) ev.
Proof. unfold exec. rewrite fold_left_app. reflexivity. Qed.

Lemma exec_app (cl : Closure) (s : Session) (evs evs' : list Event) :
  exec cl s (evs ++ evs') = exec cl (exec cl s evs) evs'.
Proof. unfold exec. apply fold_left_app. Qed.

Lemma run_app (cl : Closure) (s : Session) (evs evs' : list Event) :
  run cl s (evs ++ evs') = run cl s evs ++ run cl (exec cl s evs) evs'.
Proof.
  revert s. induction evs as [| ev rest IH]; intros s; simpl.
  - reflexivity.
  - rewrite IH. reflexivity.
Qed.

Lemma exec_baseline_stable (cl : Closure) (evs : list Event) (s : Session) (b : Geometry.float) :
  baselineEarRef (refs s) = Some b ->
  baselineEarRef (refs (exec cl s evs)) = Some b.
Proof.
  revert s. induction evs as [| ev rest IH]; intros s Hb; simpl.
  - exact Hb.
  - apply IH. rewrite refs_step. apply handle_baseline_stable, Hb.
Qed.

Lemma collectFrom_snoc (ears : list Geometry.float) (m e : Geometry.float) :
  collectFrom m (ears ++ [e]) =
  collectFrom m ears ++
  (if SFltb (Geometry.fmul
               (Geometry.Math_max (fold_left Geometry.Math_max ears m) e)
               Geometry.lit_0_8) e
   then [e] else []).
Proof.
  revert m. induction ears as [| a rest IH]; intros m; simpl.
  - rewrite app_nil_r. reflexivity.
  - rewrite IH, app_assoc. reflexivity.
Qed.

Lemma sum_from_fold (l : list Geometry.float) (a : Geometry.float) :
  sum_from a l = fold_left Geometry.fadd l a.
Proof.
  revert a. induction l as [| x rest IH]; intros a; simpl; [reflexivity | apply IH].
Qed.

Lemma reduce_mean (samples : list Geometry.float) :
  Geometry.fdiv (reduce_sum samples) (Geometry.ofLength samples) =
  arithmetic_mean samples.
Proof. unfold reduce_sum, arithmetic_mean. rewrite sum_from_fold. reflexivity. Qed.

(** The calibration block, cell by cell. *)
Lemma calibrationBlock_cells (r : Refs) (now : Q) (curEar : Geometry.float) :
  let r' := fst (calibrationBlock r now curEar) in
  let started := match calibStartRef r with Some c => c | None => now end in
  let expired := Qle_bool CALIBRATION_MS (now - started) in
  calibStartRef r' = Some started /\
  maxEarRef r' = Geometry.Math_max (maxEarRef r) curEar /\
  openSamplesRef r' =
    openSamplesRef r ++
    (if SFltb (Geometry.fmul (Geometry.Math_max (maxEarRef r) curEar)
                 Geometry.lit_0_8) curEar
     then [curEar] else []) /\
  baselineEarRef r' =
    (if expired
     then Some (if (0 <? List.length (openSamplesRef r'))%nat
                then Geometry.fdiv (reduce_sum (openSamplesRef r'))
                                   (Geometry.ofLength (openSamplesRef r'))
                else maxEarRef r')
     else baselineEarRef r) /\
  lastBlinkAtRef r' = (if expired then Some now else lastBlinkAtRef r) /\
  snd (calibrationBlock r now curEar) =
    (if expired
     then [Dispatch CALIBRATION_DONE; Dispatch (SET_SECONDS 0); Dispatch ALERT_OFF]
     else []).
Proof.
  unfold calibrationBlock.
  destruct (calibStartRef r) as [c |] eqn:Hc; simpl;
    destruct (SFltb (Geometry.fmul (Geometry.Math_max (maxEarRef r) curEar)
                       Geometry.lit_0_8) curEar); simpl;
    rewrite ?Hc;
    match goal with
    | |- context [Qle_bool CALIBRATION_MS ?d] => destruct (Qle_bool CALIBRATION_MS d)
    end; simpl; rewrite ?app_nil_r; repeat split; auto.
Qed.

Lemma hd_error_snoc (A : Type) (l : list A) (a : A) :
  hd_error (l ++ [a]) = Some (match hd_error l with Some c => c | None => a end).
Proof. destruct l; reflexivity. Qed.

Lemma faceEars_snoc (evs : list Event) (ev : Event) :
  faceEars (evs ++ [ev]) =
  faceEars evs ++ match ev with Results (Some f) => [f_ear f] | _ => [] end.
Proof. unfold faceEars. rewrite flat_map_app. simpl. rewrite app_nil_r. reflexivity. Qed.

Lemma faceStamps_snoc (evs : list Event) (ev : Event) :
  faceStamps (evs ++ [ev]) =
  faceStamps evs ++ match ev with Results (Some f) => [f_now f] | _ => [] end.
Proof. unfold faceStamps. rewrite flat_map_app. simpl. rewrite app_nil_r. reflexivity. Qed.

Lemma baseline_unset_before (cl : Closure) (s : Session) (ev : Event) :
  baselineEarRef (refs (step cl s ev)) = None -> baselineEarRef (refs s) = None.
Proof.
  intros Hafter. destruct (baselineEarRef (refs s)) as [b |] eqn:Hb; [| reflexivity].
  rewrite refs_step, (handle_baseline_stable cl _ ev Hb) in Hafter. discriminate.
Qed.

(** While the baseline is unset, the calibration cells hold the running
    maximum of the EARs seen, the samples judged open among them, and the
    time of the first frame. *)
Lemma calibration_phase (cl : Closure) (u : UiState) (evs : list Event) :
  let s := exec cl (startSession u) evs in
  baselineEarRef (refs s) = None ->
  maxEarRef (refs s) = running_max (faceEars evs) /\
  openSamplesRef (refs s) = open_samples (faceEars evs) /\
  calibStartRef (refs s) = hd_error (faceStamps evs).
Proof.
  cbv zeta. induction evs as [| ev evs IH] using rev_ind.
  - intros _. repeat split; reflexivity.
  - rewrite exec_snoc. intros Hnone.
    pose proof (baseline_unset_before _ _ _ Hnone) as Hprev.
    destruct (IH Hprev) as (Hmax & Hsamples & Hstart).
    rewrite faceEars_snoc, faceStamps_snoc.
    rewrite refs_step in Hnone |- *.
    destruct ev as [[f |] | env]; cbn [handle] in *.
    + unfold onResults in *. rewrite Hprev in *.
      pose proof (calibrationBlock_cells (refs (exec cl (startSession u) evs))
                    (f_now f) (f_ear f)) as Hcells.
      cbv zeta in Hcells.
      destruct Hcells as (Hc & Hm & Ho & _).
      rewrite Hc, Hm, Ho, Hmax, Hsamples, Hstart.
      unfold running_max, open_samples.
      rewrite fold_left_app, collectFrom_snoc, hd_error_snoc.
      repeat split; reflexivity.
    + rewrite !app_nil_r. simpl. auto.
    + rewrite !app_nil_r.
      pose proof (monitorTick_frame cl (refs (exec cl (startSession u) evs)) env)
        as Htick.
      cbv zeta in Htick. destruct Htick as (_ & Hc & Hm & Ho & _).
      rewrite Hc, Hm, Ho. auto.
Qed.

Lemma handle_calibrationDone (cl : Closure) (r : Refs) (ev : Event) :
  existsb isCalibrationDone (snd (handle cl r ev)) = true ->
  baselineEarRef r = None /\
  exists b, baselineEarRef (fst (handle cl r ev)) = Some b.
Proof.
  destruct ev as [[f |] | env]; cbn [handle].
  - destruct (baselineEarRef r) as [b |] eqn:Hbase.
    + rewrite (onResults_monitoring _ _ Hbase). cbn [snd].
      rewrite existsb_app.
      replace (existsb isCalibrationDone
                 (snd (blinkStateMachine r (f_now f) (f_ear f) b))) with false.
      * destruct (blinksPerMinute_effects
                    (fst (blinkStateMachine r (f_now f) (f_ear f) b)) (f_now f))
          as [-> | [bpm ->]]; simpl; discriminate.
      * unfold blinkStateMachine. destruct (eyeStateRef r);
          repeat match goal with
                 | |- context [if ?c then _ else _] => destruct c; simpl
                 end; reflexivity.
    + unfold onResults. rewrite Hbase.
      pose proof (calibrationBlock_cells r (f_now f) (f_ear f)) as Hcells.
      cbv zeta in Hcells. destruct Hcells as (_ & _ & _ & Hb & _ & Heffs).
      rewrite Heffs, Hb.
      destruct (Qle_bool CALIBRATION_MS _); simpl; [eauto | discriminate].
  - simpl. discriminate.
  - unfold monitorTick, showAlertNotification.
    repeat match goal with
           | |- context [if ?c then _ else _] => destruct c; simpl
           | |- context [match ?x with Some _ => _ | None => _ end] =>
               destruct x; simpl
           end; discriminate.
Qed.

Lemma calibrationsDone_app (l l' : list Step) :
  calibrationsDone (l ++ l') = (calibrationsDone l + calibrationsDone l')%nat.
Proof. unfold calibrationsDone. rewrite filter_app, length_app. reflexivity. Qed.

Lemma calibrationsDone_after_baseline
  (cl : Closure) (evs : list Event) (s : Session) (b : Geometry.float) :
  baselineEarRef (refs s) = Some b -> calibrationsDone (run cl s evs) = 0%nat.
Proof.
  revert s. induction evs as [| ev rest IH]; intros s Hb; [reflexivity |].
  simpl. unfold calibrationsDone in *. simpl.
  destruct (existsb isCalibrationDone (effectsOf cl s ev)) eqn:Hdone.
  - apply handle_calibrationDone in Hdone. destruct Hdone as [Hnone _]. congruence.
  - apply IH. rewrite refs_step. apply handle_baseline_stable, Hb.
Qed.

Lemma calibrationsDone_while_unset
  (cl : Closure) (evs : list Event) (s : Session) :
  baselineEarRef (refs (exec cl s evs)) = None ->
  calibrationsDone (run cl s evs) = 0%nat.
Proof.
  revert s. induction evs as [| ev rest IH]; intros s Hnone; [reflexivity |].
  simpl in *. unfold calibrationsDone in *. simpl.
  destruct (existsb isCalibrationDone (effectsOf cl s ev)) eqn:Hdone.
  - apply handle_calibrationDone in Hdone. destruct Hdone as [_ [b Hb]].
    rewrite <- refs_step in Hb.
    rewrite (exec_baseline_stable cl rest _ Hb) in Hnone. discriminate.
  - apply IH, Hnone.
Qed.

Lemma blinksPerMinute_calibration (r : Refs) (now : Q) :
  let r' := fst (blinksPerMinute r now) in
  calibStartRef r' = calibStartRef r /\
  maxEarRef r' = maxEarRef r /\
  openSamplesRef r' = openSamplesRef r.
Proof.
  unfold blinksPerMinute. repeat break_cond; simpl; repeat split; congruence.
Qed.

(** Once the baseline is set the calibration cells are frozen. *)
Lemma handle_calibration_frozen (cl : Closure) (r : Refs) (ev : Event) (b : Geometry.float) :
  baselineEarRef r = Some b ->
  let r' := fst (handle cl r ev) in
  calibStartRef r' = calibStartRef r /\
  maxEarRef r' = maxEarRef r /\
  openSamplesRef r' = openSamplesRef r.
Proof.
  intros Hb. destruct ev as [[f |] | env]; cbn [handle].
  - rewrite (onResults_monitoring _ _ Hb). cbn [fst].
    pose proof (blinksPerMinute_calibration
                  (fst (blinkStateMachine r (f_now f) (f_ear f) b)) (f_now f))
      as H2.
    pose proof (blinkStateMachine_frame r (f_now f) (f_ear f) b) as H1.
    cbv zeta in *. destruct H2 as (A2 & B2 & C2). destruct H1 as (_ & A1 & B1 & C1 & _).
    rewrite A2, B2, C2. auto.
  - simpl. auto.
  - pose proof (monitorTick_frame cl r env) as H. cbv zeta in *.
    destruct H as (_ & A & B & C & _). auto.
Qed.

Lemma exec_calibration_frozen
  (cl : Closure) (evs : list Event) (s : Session) (b : Geometry.float) :
  baselineEarRef (refs s) = Some b ->
  maxEarRef (refs (exec cl s evs)) = maxEarRef (refs s) /\
  openSamplesRef (refs (exec cl s evs)) = openSamplesRef (refs s).
Proof.
  revert s. induction evs as [| ev rest IH]; intros s Hb; simpl; [auto |].
  pose proof (handle_calibration_frozen cl (refs s) ev Hb) as Hfr.
  cbv zeta in Hfr. rewrite <- refs_step in Hfr. destruct Hfr as (_ & Hm & Ho).
  destruct (IH (step cl s ev)) as [IHm IHo].
  - rewrite refs_step. apply handle_baseline_stable, Hb.
  - rewrite IHm, IHo. auto.
Qed.

Lemma calibration_completes
  (cl : Closure) (u : UiState) (evs evs' : list Event) (f : FrameInput) (c : Q) :
  let s := exec cl (startSession u) evs in
  let s' := step cl s (Results (Some f)) in
  let ears := faceEars evs ++ [f_ear f] in
  let samples := open_samples ears in
  baselineEarRef (refs s) = None ->
  hd_error (faceStamps evs ++ [f_now f]) = Some c ->
  CALIBRATION_MS <= f_now f - c ->
  openSamplesRef (refs s') = samples /\
  maxEarRef (refs s') = running_max ears /\
  (exists b,
     baselineEarRef (refs s') = Some b /\
     (samples <> [] -> b = arithmetic_mean samples) /\
     (samples = [] -> b = running_max ears) /\
     baselineEarRef (refs (exec cl s' evs')) = Some b) /\
  openSamplesRef (refs (exec cl s' evs')) = samples /\
  maxEarRef (refs (exec cl s' evs')) = running_max ears /\
  calibrationsDone
    (run cl (startSession u) (evs ++ Results (Some f) :: evs')) = 1%nat /\
  effectsOf cl s (Results (Some f)) =
    [Dispatch CALIBRATION_DONE; Dispatch (SET_SECONDS 0); Dispatch ALERT_OFF].
Proof.
  cbv zeta. intros Hnone Hfirst Hexpired.
  destruct (calibration_phase cl u evs Hnone) as (Hmax & Hsamples & Hstart).
  pose proof (calibrationBlock_cells (refs (exec cl (startSession u) evs))
                (f_now f) (f_ear f)) as Hcells.
  cbv zeta in Hcells.
  destruct Hcells as (_ & Hm & Ho & Hb & _ & Heffs).
  rewrite Hstart in Hb, Heffs. rewrite hd_error_snoc in Hfirst.
  injection Hfirst as Hfirst. rewrite Hfirst in Hb, Heffs.
  apply Qle_bool_iff in Hexpired. rewrite Hexpired in Hb, Heffs.
  assert (Hhandle : handle cl (refs (exec cl (startSession u) evs))
                      (Results (Some f))
                    = calibrationBlock (refs (exec cl (startSession u) evs))
                        (f_now f) (f_ear f)).
  { cbn [handle]. unfold onResults. rewrite Hnone. reflexivity. }
  rewrite refs_step, Hhandle.
  assert (Hopen : openSamplesRef
                    (fst (calibrationBlock (refs (exec cl (startSession u) evs))
                            (f_now f) (f_ear f)))
                  = open_samples (faceEars evs ++ [f_ear f])).
  { rewrite Ho, Hmax, Hsamples. unfold open_samples, running_max.
    rewrite collectFrom_snoc. reflexivity. }
  assert (Hrun : maxEarRef
                   (fst (calibrationBlock (refs (exec cl (startSession u) evs))
                           (f_now f) (f_ear f)))
                 = running_max (faceEars evs ++ [f_ear f])).
  { rewrite Hm, Hmax. unfold running_max. rewrite fold_left_app. reflexivity. }
  assert (Hset : baselineEarRef
                   (refs (step cl (exec cl (startSession u) evs) (Results (Some f))))
                 = Some (if (0 <? List.length (open_samples (faceEars evs ++ [f_ear f])))%nat
                         then Geometry.fdiv
                                (reduce_sum (open_samples (faceEars evs ++ [f_ear f])))
                                (Geometry.ofLength
                                   (open_samples (faceEars evs ++ [f_ear f])))
                         else running_max (faceEars evs ++ [f_ear f]))).
  { rewrite refs_step, Hhandle, Hb, Hopen, Hrun. reflexivity. }
  destruct (exec_calibration_frozen cl evs' _ Hset) as [Hfm Hfo].
  rewrite refs_step, Hhandle in Hfm, Hfo.
  split; [exact Hopen |]. split; [exact Hrun |].
  split; [| split; [congruence | split; [congruence | split]]].
  - eexists. split; [exact Hb |]. rewrite Hopen, Hrun.
    split; [| split].
    + intros Hne. destruct (open_samples (faceEars evs ++ [f_ear f])) as [| a l];
        [contradiction |]. simpl Nat.ltb. cbv iota. apply reduce_mean.
    + intros ->. reflexivity.
    + apply exec_baseline_stable. rewrite refs_step, Hhandle, Hb.
      rewrite Hopen, Hrun. reflexivity.
  - rewrite run_app. simpl run. rewrite calibrationsDone_app.
    rewrite (calibrationsDone_while_unset cl evs _ Hnone).
    change (?a :: ?l) with ([a] ++ l). rewrite calibrationsDone_app.
    rewrite (calibrationsDone_after_baseline cl evs'
               (step cl (exec cl (startSession u) evs) (Results (Some f)))
               (b := if (0 <? List.length (open_samples (faceEars evs ++ [f_ear f])))%nat
                     then Geometry.fdiv
                            (reduce_sum (open_samples (faceEars evs ++ [f_ear f])))
                            (Geometry.ofLength
                               (open_samples (faceEars evs ++ [f_ear f])))
                     else running_max (faceEars evs ++ [f_ear f]))).
    + unfold calibrationsDone. cbn [filter effects]. unfold effectsOf.
      rewrite Hhandle, Heffs. reflexivity.
    + rewrite refs_step, Hhandle, Hb, Hopen, Hrun. reflexivity.
  - unfold effectsOf. rewrite Hhandle. exact Heffs.
Qed.




(** The mean is the one binary64 gives: three samples of the double 0.1
    have the mean 0.10000000000000002, one unit in the last place above
    the double 0.1. *)
Example mean_of_three_tenths :
  arithmetic_mean [ear_0_1; ear_0_1; ear_0_1] =
  S754_finite false 7205759403792795 (-56).
Proof. vm_compute. reflexivity. Qed.

(** The filter is the one binary64 gives: after a frame of EAR 1 the
    double 0.8 is not above the rounded product [1 * 0.8], which is that
    same double, and is not collected. *)
Example sample_at_the_filter_boundary :
  open_samples [ear_1; Geometry.lit_0_8] = [ear_1].
Proof. vm_compute. reflexivity. Qed.

(** ** The monitor tick *)

Lemma monitorTick_silent (cl : Closure) (r : Refs) (env : TickEnv) :
  falsy (baselineEarRef r) = true -> monitorTick cl r env = (r, []).
Proof. intros H. unfold monitorTick. rewrite H. reflexivity. Qed.

Lemma monitorTick_publish (cl : Closure) (r : Refs) (env : TickEnv) (u : UiState) :
  falsy (baselineEarRef r) = false ->
  let u' := publish u (snd (monitorTick cl r env)) in
  secondsSinceBlink u' = secondsSince r env /\
  alertOn u' = Qle_bool (cl_noBlinkThreshold cl) (secondsSince r env) /\
  In (Dispatch (SET_SECONDS (secondsSince r env))) (snd (monitorTick cl r env)).
Proof.
  intros H. unfold monitorTick, showAlertNotification, secondsSince.
  rewrite H.
  destruct (Qle_bool (cl_noBlinkThreshold cl) _) eqn:Hthr.
  - repeat match goal with
           | |- context [if ?c then _ else _] => destruct c; simpl
           end; auto.
  - simpl. auto.
Qed.





(** ** The alert flag follows the published seconds *)









Lemma sample_chronological : chronological 0 sampleEvents.
Proof. simpl. unfold Qle; simpl. repeat split; lia. Qed.


(** The sample session, evaluated: the flag rises at the tick 5 s after
    the calibration and falls at the frame that counts the blink. *)
Example sample_alert_timeline :
  map (fun st => alertOn (ui (after st)))
    (run sampleClosure (startSession sampleUi) sampleEvents)
  = [false; false; false; false; true; true; true; false; false] /\
  map (fun st => blinkEmitted (effects st))
    (run sampleClosure (startSession sampleUi) sampleEvents)
  = [false; false; false; false; false; false; false; true; false] /\
  map (fun st => existsb isBeep (effects st))
    (run sampleClosure (startSession sampleUi) sampleEvents)
  = [false; false; false; false; true; false; false; false; false].
Proof. vm_compute. repeat split; reflexivity. Qed.

(** ** Beeps and notifications *)

Lemma Qlt_bool_negb (a b : Q) : Qlt_bool a b = negb (Qle_bool b a).
Proof.
  destruct (Qle_bool b a) eqn:H; simpl.
  - apply Qlt_bool_false_iff, Qle_bool_iff, H.
  - apply Qlt_bool_iff, Qle_bool_false_iff, H.
Qed.

(** A tick, effect by effect. *)
Lemma monitorTick_effects (cl : Closure) (r : Refs) (env : TickEnv) :
  let m := monitorTick cl r env in
  existsb isBeep (snd m) = beepDecision cl r env /\
  existsb isNotify (snd m) = notifyDecision cl r env /\
  lastAlertAtRef (fst m) =
    (if beepDecision cl r env then perfNow env else lastAlertAtRef r) /\
  lastNotifAtRef (fst m) =
    (if notifyDecision cl r env then dateNow env else lastNotifAtRef r) /\
  (existsb isBeep (snd m) || existsb isNotify (snd m) = true ->
   exists rest,
     snd m = Dispatch (SET_SECONDS (secondsSince r env)) :: Dispatch ALERT_ON :: rest /\
     existsb isAlertOn rest = false).
Proof.
  unfold monitorTick, showAlertNotification, beepDecision, notifyDecision,
    secondsSince.
  destruct (falsy (baselineEarRef r)); simpl; [repeat split; discriminate |].
  destruct (Qle_bool (cl_noBlinkThreshold cl) _); simpl;
    [| repeat split; discriminate].
  destruct (lastAlertOnRef r), (cl_notifEnabled cl), (cl_mounted cl),
    (notificationInWindow env), (isGranted (permission env)); simpl;
    rewrite ?Qlt_bool_negb;
    try destruct (Qle_bool NOTIF_COOLDOWN_MS (dateNow env - lastNotifAtRef r));
    simpl;
    destruct (Qle_bool ALERT_REPEAT_MS (perfNow env - lastAlertAtRef r));
    simpl; repeat split; try discriminate; eauto.
Qed.

(** Frames neither beep nor notify, and leave both cooldown cells alone. *)
Lemma onResults_no_alarm (r : Refs) (res : option FrameInput) :
  existsb isBeep (snd (onResults r res)) = false /\
  existsb isNotify (snd (onResults r res)) = false /\
  lastAlertAtRef (fst (onResults r res)) = lastAlertAtRef r /\
  lastNotifAtRef (fst (onResults r res)) = lastNotifAtRef r.
Proof.
  destruct res as [f |]; [| simpl; auto].
  destruct (baselineEarRef r) as [b |] eqn:Hbase.
  - rewrite (onResults_monitoring _ _ Hbase). cbn [fst snd].
    pose proof (blinksPerMinute_frame
                  (fst (blinkStateMachine r (f_now f) (f_ear f) b)) (f_now f))
      as Hbpm.
    pose proof (blinkStateMachine_frame r (f_now f) (f_ear f) b) as Hm.
    cbv zeta in Hbpm, Hm.
    destruct Hbpm as (_ & _ & _ & _ & _ & _ & Ha & Hn & _).
    destruct Hm as (_ & _ & _ & _ & Ha' & Hn' & _).
    rewrite Ha, Hn, Ha', Hn', !existsb_app.
    assert (Hq : forall p, p = isBeep \/ p = isNotify ->
                 existsb p (snd (blinkStateMachine r (f_now f) (f_ear f) b)) = false).
    { intros p Hp. unfold blinkStateMachine. destruct (eyeStateRef r);
        repeat match goal with
               | |- context [if ?c then _ else _] => destruct c; simpl
               end; destruct Hp as [-> | ->]; reflexivity. }
    rewrite !Hq by auto.
    destruct (blinksPerMinute_effects
                (fst (blinkStateMachine r (f_now f) (f_ear f) b)) (f_now f))
      as [-> | [bpm ->]]; simpl; auto.
  - unfold onResults. rewrite Hbase.
    pose proof (calibrationBlock_cells r (f_now f) (f_ear f)) as Hcells.
    pose proof (calibrationBlock_frame r (f_now f) (f_ear f)) as Hfr.
    cbv zeta in Hcells, Hfr.
    destruct Hcells as (_ & _ & _ & _ & _ & Heffs).
    destruct Hfr as (_ & _ & _ & _ & Ha & Hn & _).
    rewrite Heffs, Ha, Hn.
    destruct (Qle_bool CALIBRATION_MS _); simpl; auto.
Qed.

Lemma cooldowns_positive : 0 <= NOTIF_COOLDOWN_MS /\ 0 <= ALERT_REPEAT_MS.
Proof. unfold NOTIF_COOLDOWN_MS, ALERT_REPEAT_MS. split; lra. Qed.

(** Every later notification comes at least the cooldown after the time
    recorded in [lastNotifAtRef]. *)
Lemma notifyTimes_after_last (cl : Closure) (evs : list Event) (s : Session) :
  Forall (fun b => NOTIF_COOLDOWN_MS <= b - lastNotifAtRef (refs s))
    (notifyTimes (run cl s evs)).
Proof.
  revert s. induction evs as [| ev rest IH]; intros s; [constructor |].
  simpl. unfold notifyTimes in *. simpl. cbn [event effects].
  specialize (IH (step cl s ev)). rewrite refs_step in IH.
  apply Forall_app. unfold effectsOf.
  destruct ev as [res | env]; cbn [handle] in *.
  - split; [constructor |].
    destruct (onResults_no_alarm (refs s) res) as (_ & _ & _ & Hn).
    rewrite Hn in IH. exact IH.
  - destruct (monitorTick_effects cl (refs s) env) as (_ & Hfire & _ & Hn & _).
    rewrite Hn in IH. rewrite Hfire.
    destruct (notifyDecision cl (refs s) env) eqn:Hd.
    + unfold notifyDecision in Hd. apply andb_true_iff in Hd.
      destruct Hd as [_ Hgap]. apply Qle_bool_iff in Hgap.
      split; [constructor; [exact Hgap | constructor] |].
      eapply Forall_impl; [| exact IH]. simpl. intros b Hb.
      pose proof cooldowns_positive as [Hpos _]. lra.
    + split; [constructor | exact IH].
Qed.

Lemma beepTimes_after_last (cl : Closure) (evs : list Event) (s : Session) :
  Forall (fun b => ALERT_REPEAT_MS <= b - lastAlertAtRef (refs s))
    (beepTimes (run cl s evs)).
Proof.
  revert s. induction evs as [| ev rest IH]; intros s; [constructor |].
  simpl. unfold beepTimes in *. simpl. cbn [event effects].
  specialize (IH (step cl s ev)). rewrite refs_step in IH.
  apply Forall_app. unfold effectsOf.
  destruct ev as [res | env]; cbn [handle] in *.
  - split; [constructor |].
    destruct (onResults_no_alarm (refs s) res) as (_ & _ & Ha & _).
    rewrite Ha in IH. exact IH.
  - destruct (monitorTick_effects cl (refs s) env) as (Hfire & _ & Ha & _).
    rewrite Ha in IH. rewrite Hfire.
    destruct (beepDecision cl (refs s) env) eqn:Hd.
    + unfold beepDecision in Hd. apply andb_true_iff in Hd.
      destruct Hd as [_ Hgap]. apply Qle_bool_iff in Hgap.
      split; [constructor; [exact Hgap | constructor] |].
      eapply Forall_impl; [| exact IH]. simpl. intros b Hb.
      pose proof cooldowns_positive as [_ Hpos]. lra.
    + split; [constructor | exact IH].
Qed.

Lemma notifyTimes_spaced (cl : Closure) (evs : list Event) (s : Session) :
  spaced NOTIF_COOLDOWN_MS (notifyTimes (run cl s evs)).
Proof.
  revert s. induction evs as [| ev rest IH]; intros s; [constructor |].
  pose proof (notifyTimes_after_last cl rest (step cl s ev)) as Hafter.
  specialize (IH (step cl s ev)).
  unfold spaced, notifyTimes in *. simpl. cbn [event effects].
  destruct ev as [res | env]; [exact IH |].
  unfold effectsOf. cbn [handle].
  destruct (monitorTick_effects cl (refs s) env) as (_ & Hfire & _ & Hn & _).
  rewrite Hfire. rewrite refs_step in Hafter. cbn [handle] in Hafter.
  rewrite Hn in Hafter.
  destruct (notifyDecision cl (refs s) env); [| exact IH].
  simpl. constructor; assumption.
Qed.

Lemma beepTimes_spaced (cl : Closure) (evs : list Event) (s : Session) :
  spaced ALERT_REPEAT_MS (beepTimes (run cl s evs)).
Proof.
  revert s. induction evs as [| ev rest IH]; intros s; [constructor |].
  pose proof (beepTimes_after_last cl rest (step cl s ev)) as Hafter.
  specialize (IH (step cl s ev)).
  unfold spaced, beepTimes in *. simpl. cbn [event effects].
  destruct ev as [res | env]; [exact IH |].
  unfold effectsOf. cbn [handle].
  destruct (monitorTick_effects cl (refs s) env) as (Hfire & _ & Ha & _).
  rewrite Hfire. rewrite refs_step in Hafter. cbn [handle] in Hafter.
  rewrite Ha in Hafter.
  destruct (beepDecision cl (refs s) env); [| exact IH].
  simpl. constructor; assumption.
Qed.

Lemma handle_alarm (cl : Closure) (s : Session) (ev : Event) :
  let st := {| before := s; event := ev; effects := effectsOf cl s ev;
               after := step cl s ev |} in
  independentCooldowns cl st /\ alertedFirst st.
Proof.
  unfold independentCooldowns, alertedFirst. cbn [before after event effects].
  rewrite ui_step. unfold effectsOf.
  destruct ev as [res | env]; cbn [handle].
  - destruct (onResults_no_alarm (refs s) res) as (Hb & Hn & _).
    rewrite Hb, Hn. split; [auto | discriminate].
  - destruct (monitorTick_effects cl (refs s) env) as (Hb & Hn & _ & _ & Hshape).
    split; [auto |]. intros Hfire.
    destruct (Hshape Hfire) as [rest [Heffs Hrest]].
    split; [eauto |]. split; [eauto |].
    assert (Hdec : falsy (baselineEarRef (refs s)) = false /\
                   Qle_bool (cl_noBlinkThreshold cl) (secondsSince (refs s) env)
                   = true).
    { rewrite Hb, Hn in Hfire. unfold beepDecision, notifyDecision in Hfire.
      destruct (falsy (baselineEarRef (refs s))); simpl in Hfire;
        [discriminate |].
      destruct (Qle_bool (cl_noBlinkThreshold cl) _); simpl in Hfire;
        [auto | discriminate]. }
    destruct Hdec as [Hfalsy Hthr].
    destruct (monitorTick_publish cl (refs s) env (ui s) Hfalsy) as (_ & Hon & _).
    rewrite Hon. exact Hthr.
Qed.

(** C5.  In every run, from any state of the refs: the notifications that
    fire are pairwise at least NOTIF_COOLDOWN_MS apart (on [Date.now()],
    the clock their cooldown reads), the beeps are pairwise at least
    ALERT_REPEAT_MS apart (on [performance.now()]); whether a tick beeps
    depends on [lastAlertAtRef] only and whether it notifies on
    [lastNotifAtRef] only; and a handler call that beeps or notifies is a
    tick that dispatched ALERT_ON first and leaves the alert flag true. *)
Theorem beeps_and_notifications_respect_cooldowns
  (cl : Closure) (s : Session) (evs : list Event) :
  spaced NOTIF_COOLDOWN_MS (notifyTimes (run cl s evs)) /\
  spaced ALERT_REPEAT_MS (beepTimes (run cl s evs)) /\
  Forall (independentCooldowns cl) (run cl s evs) /\
  Forall alertedFirst (run cl s evs).
Proof.
  split; [apply notifyTimes_spaced |]. split; [apply beepTimes_spaced |].
  split.
  - apply (run_Forall cl (fun _ => True)); [| exact I].
    intros s' ev _. split; [exact I | apply handle_alarm].
  - apply (run_Forall cl (fun _ => True)); [| exact I].
    intros s' ev _. split; [exact I | apply handle_alarm].
Qed.

(** A session with a sustained alert, evaluated: beeps every 2 s,
    notifications every 5 s. *)
Example sustained_alert_times :
  let evs := [sampleFrame 0 ear_0_3; sampleFrame 3000 ear_0_3;
              sampleTick 7900; sampleTick 8000; sampleTick 9000;
              sampleTick 10000; sampleTick 11000; sampleTick 12000;
              sampleTick 13000; sampleTick 14000] in
  let steps := run sampleClosure (startSession sampleUi) evs in
  beepTimes steps = [8000; 10000; 12000; 14000] /\
  notifyTimes steps = [1700000000000 + 8000; 1700000000000 + 13000].
Proof. vm_compute. split; reflexivity. Qed.

(** ** A zero baseline *)

Lemma Math_max_zeros (s : bool) :
  Geometry.Math_max Geometry.pzero (S754_zero s) = Geometry.pzero.
Proof. destruct s; reflexivity. Qed.

Lemma Math_max_signClear (m e : Geometry.float) :
  Geometry.signClear m = true -> Geometry.signClear e = true ->
  Geometry.signClear (Geometry.Math_max m e) = true.
Proof.
  intros Hm He. unfold Geometry.Math_max.
  destruct (Geometry.is_nan m || Geometry.is_nan e); [reflexivity |].
  destruct (SFltb m e); [exact He |].
  destruct (SFltb e m); [exact Hm |].
  destruct m as [sm | sm | | sm mm em], e as [se | se | | se me ee];
    simpl in *; try assumption.
  destruct sm; [discriminate | reflexivity].
Qed.

(** The maximum of two numbers that are not negative is a zero only if
    both are. *)
Lemma Math_max_zero_inv (m e : Geometry.float) :
  Geometry.signClear m = true -> Geometry.signClear e = true ->
  Geometry.is_zero (Geometry.Math_max m e) = true ->
  Geometry.is_zero m = true /\ Geometry.is_zero e = true.
Proof.
  intros Hm He.
  destruct m as [sm | sm | | sm mm em], e as [se | se | | se me ee];
    simpl in Hm, He;
    try (destruct sm; [discriminate |]); try (destruct se; [discriminate |]);
    try (cbv; intros H; discriminate H);
    try (intros _; split; reflexivity).
  unfold Geometry.Math_max. cbn [Geometry.is_nan orb].
  destruct (SFltb (S754_finite false mm em) (S754_finite false me ee));
    [intros H; discriminate H |].
  destruct (SFltb (S754_finite false me ee) (S754_finite false mm em));
    intros H; discriminate H.
Qed.

Lemma Math_max_nan_l (e : Geometry.float) :
  Geometry.Math_max S754_nan e = S754_nan.
Proof. reflexivity. Qed.

Lemma Math_max_nan_r (m : Geometry.float) :
  Geometry.Math_max m S754_nan = S754_nan.
Proof. unfold Geometry.Math_max. destruct m; reflexivity. Qed.

Lemma running_max_nan (ears : list Geometry.float) :
  fold_left Geometry.Math_max ears S754_nan = S754_nan.
Proof. induction ears as [| e rest IH]; simpl; [reflexivity | exact IH]. Qed.

Lemma running_max_signClear (ears : list Geometry.float) (m : Geometry.float) :
  Geometry.signClear m = true ->
  Forall (fun e => Geometry.signClear e = true) ears ->
  Geometry.signClear (fold_left Geometry.Math_max ears m) = true.
Proof.
  revert m. induction ears as [| e rest IH]; intros m Hm Hall; simpl.
  - exact Hm.
  - inversion Hall as [| ? ? He Hrest]; subst.
    apply IH; [apply Math_max_signClear; assumption | assumption].
Qed.

(** A window of zeros: nothing is collected and the running maximum stays
    the zero it started from. *)
Lemma collectFrom_zeros (ears : list Geometry.float) :
  Forall (fun e => Geometry.is_zero e = true) ears ->
  collectFrom Geometry.pzero ears = [] /\
  fold_left Geometry.Math_max ears Geometry.pzero = Geometry.pzero.
Proof.
  induction ears as [| e rest IH]; intros Hall; simpl.
  - auto.
  - inversion Hall as [| ? ? He Hrest]; subst.
    destruct e as [s | | |]; try discriminate He.
    rewrite Math_max_zeros. destruct (IH Hrest) as [Hnil Hfold].
    rewrite Hnil, Hfold. split; [| reflexivity].
    destruct s; reflexivity.
Qed.

(** A running maximum that ends as a zero saw zeros only, when no number
    was negative. *)
Lemma running_max_zero_inv (ears : list Geometry.float) (m : Geometry.float) :
  Geometry.signClear m = true ->
  Forall (fun e => Geometry.signClear e = true) ears ->
  Geometry.is_zero (fold_left Geometry.Math_max ears m) = true ->
  Geometry.is_zero m = true /\ Forall (fun e => Geometry.is_zero e = true) ears.
Proof.
  revert m. induction ears as [| e rest IH]; intros m Hm Hall Hz; simpl in *.
  - auto.
  - inversion Hall as [| ? ? He Hrest]; subst.
    destruct (IH _ (Math_max_signClear _ _ Hm He) Hrest Hz) as [Hz' Hzs].
    destruct (Math_max_zero_inv _ _ Hm He Hz') as [Hzm Hze].
    auto.
Qed.

(** A running maximum that saw a NaN is NaN. *)
Lemma running_max_saw_nan (ears : list Geometry.float) (m : Geometry.float) :
  Exists (fun e => Geometry.is_nan e = true) ears ->
  fold_left Geometry.Math_max ears m = S754_nan.
Proof.
  revert m. induction ears as [| e rest IH]; intros m Hex; simpl.
  - inversion Hex.
  - inversion Hex as [? ? He | ? ? Hrest]; subst.
    + destruct e; try discriminate He.
      rewrite Math_max_nan_r. apply running_max_nan.
    + apply IH, Hrest.
Qed.

Lemma onResults_monitoring_quiet (r : Refs) (f : FrameInput) (b : Geometry.float) :
  baselineEarRef r = Some b ->
  forallb quietEffect (snd (onResults r (Some f))) = true.
Proof.
  intros Hbase. rewrite (onResults_monitoring _ _ Hbase). cbn [snd].
  rewrite forallb_app. apply andb_true_iff. split.
  - unfold blinkStateMachine. destruct (eyeStateRef r);
      repeat match goal with
             | |- context [if ?c then _ else _] => destruct c; simpl
             end; reflexivity.
  - destruct (blinksPerMinute_effects
                (fst (blinkStateMachine r (f_now f) (f_ear f) b)) (f_now f))
      as [-> | [bpm ->]]; reflexivity.
Qed.

Lemma publish_quiet (effs : list Effect) (u : UiState) :
  forallb quietEffect effs = true ->
  calibrating (publish u effs) = calibrating u /\
  (alertOn u = false -> alertOn (publish u effs) = false) /\
  existsb isAlertOn effs = false /\
  existsb isBeep effs = false /\
  existsb isNotify effs = false.
Proof.
  revert u. induction effs as [| e rest IH]; intros u Hq; simpl in *.
  - auto.
  - apply andb_true_iff in Hq. destruct Hq as [He Hrest].
    destruct (IH (applyEffect u e) Hrest) as (Hc & Ha & H1 & H2 & H3).
    unfold publish in *. rewrite Hc, H1, H2, H3.
    destruct e as [[] | |]; try discriminate; simpl in *; auto.
Qed.

(** Once the baseline is a zero or NaN, the monitor stays silent. *)
Lemma falsy_baseline_silent
  (cl : Closure) (b : Geometry.float) (evs : list Event) (s : Session) :
  Geometry.falsyNumber b = true ->
  baselineEarRef (refs s) = Some b /\
  calibrating (ui s) = false /\ alertOn (ui s) = false ->
  Forall monitorSilenced (run cl s evs).
Proof.
  intros Hb. revert s.
  apply (run_Forall cl
           (fun s => baselineEarRef (refs s) = Some b /\
                     calibrating (ui s) = false /\ alertOn (ui s) = false)).
  intros s ev (Hbase & Hcal & Hoff).
  unfold monitorSilenced. cbn [before after event effects].
  rewrite refs_step, ui_step. unfold effectsOf.
  pose proof (handle_baseline_stable cl (refs s) ev Hbase) as Hstable.
  destruct ev as [[f |] | env]; cbn [handle] in *.
  - destruct (publish_quiet _ (ui s) (onResults_monitoring_quiet (refs s) f Hbase))
      as (Hc & Ha & H1 & H2 & H3).
    rewrite Hc, H1, H2, H3, (Ha Hoff).
    repeat split; auto; discriminate.
  - simpl. repeat split; auto; discriminate.
  - assert (Hsilent : monitorTick cl (refs s) env = (refs s, [])).
    { apply monitorTick_silent. rewrite Hbase. exact Hb. }
    rewrite Hsilent in *. simpl.
    repeat split; auto.
    unfold step. cbn [handle]. rewrite Hsilent. destruct s; reflexivity.
Qed.

(** What the expiry of the window leaves, when no EAR of the window was
    negative. *)
Lemma zero_baseline_cases
  (cl : Closure) (u : UiState) (evs evs' : list Event) (f : FrameInput) (c : Q) :
  let s := exec cl (startSession u) evs in
  let s' := step cl s (Results (Some f)) in
  let ears := faceEars evs ++ [f_ear f] in
  baselineEarRef (refs s) = None ->
  hd_error (faceStamps evs ++ [f_now f]) = Some c ->
  CALIBRATION_MS <= f_now f - c ->
  Forall (fun e => Geometry.signClear e = true) ears ->
  exists b,
    baselineEarRef (refs s') = Some b /\
    (open_samples ears = [] /\ Geometry.is_zero b = true
     <-> Forall (fun e => Geometry.is_zero e = true) ears) /\
    (Forall (fun e => Geometry.is_zero e = true) ears -> b = Geometry.pzero) /\
    (open_samples ears = [] ->
     Exists (fun e => Geometry.is_nan e = true) ears -> b = S754_nan) /\
    calibrating (ui s') = false /\
    (Geometry.falsyNumber b = true -> Forall monitorSilenced (run cl s' evs')) /\
    (Geometry.falsyNumber b = false ->
     forall env,
       secondsSinceBlink (ui (step cl s' (Tick env)))
       = secondsSince (refs s') env).
Proof.
  cbv zeta. intros Hnone Hfirst Hexpired Hclear.
  destruct (calibration_completes cl u evs evs' f Hnone Hfirst Hexpired)
    as (_ & _ & (b & Hb & Hmean & Hmax & _) & _ & _ & _ & Heffs).
  assert (Hui : calibrating
                  (ui (step cl (exec cl (startSession u) evs) (Results (Some f))))
                = false /\
                alertOn
                  (ui (step cl (exec cl (startSession u) evs) (Results (Some f))))
                = false).
  { rewrite ui_step, Heffs. split; reflexivity. }
  assert (Hall_zero : Forall (fun e => Geometry.is_zero e = true)
                        (faceEars evs ++ [f_ear f]) ->
                      open_samples (faceEars evs ++ [f_ear f]) = [] /\
                      b = Geometry.pzero).
  { intros Hall. destruct (collectFrom_zeros Hall) as [Hnil Hfold].
    split; [exact Hnil |]. rewrite (Hmax Hnil). exact Hfold. }
  exists b. split; [exact Hb |].
  split; [split |]; [| | split; [| split; [| split; [apply Hui |]]]].
  - intros [Hnil Hz]. rewrite (Hmax Hnil) in Hz.
    apply (@running_max_zero_inv _ Geometry.pzero eq_refl Hclear Hz).
  - intros Hall. destruct (Hall_zero Hall) as [Hnil ->]. split; [exact Hnil | reflexivity].
  - intros Hall. apply Hall_zero, Hall.
  - intros Hnil Hex. rewrite (Hmax Hnil). apply running_max_saw_nan, Hex.
  - split.
    + intros Hf. apply (falsy_baseline_silent cl evs' _ Hf).
      split; [exact Hb | exact Hui].
    + intros Hf env. rewrite ui_step. cbn [handle].
      apply monitorTick_publish. rewrite Hb. exact Hf.
Qed.

(** C10 (counterexample).  A strictly positive sample that is not
    collected: after the EARs 1 and then 0.5, still calibrating, the open
    samples are [1] only, since 0.5 is not above 0.8 times the running
    maximum 1. *)
Lemma positive_sample_not_collected :
  let s := exec sampleClosure (startSession sampleUi)
             [sampleFrame 0 ear_1; sampleFrame 33 ear_0_5] in
  SFltb Geometry.pzero ear_0_5 = true /\
  baselineEarRef (refs s) = None /\
  maxEarRef (refs s) = ear_1 /\
  openSamplesRef (refs s) = [ear_1] /\
  ~ In ear_0_5 (openSamplesRef (refs s)).
Proof.
  vm_compute. repeat split; try reflexivity.
  intros [H | []]. discriminate.
Qed.

(** Not even the first strictly positive sample is always collected: the
    smallest positive double, 5e-324, is not above the rounded product
    [5e-324 * 0.8], which is 5e-324 again.  A window that saw only that
    EAR collects nothing, and the fallback baseline is 5e-324: not a zero,
    so the monitor is not silenced. *)
Example smallest_positive_sample_not_collected :
  let tiny := S754_finite false 1 (-1074) in
  let s := exec sampleClosure (startSession sampleUi)
             [sampleFrame 0 tiny; sampleFrame 3000 tiny] in
  SFltb Geometry.pzero tiny = true /\
  open_samples [tiny; tiny] = [] /\
  baselineEarRef (refs s) = Some tiny /\
  falsy (baselineEarRef (refs s)) = false.
Proof. vm_compute. repeat split; reflexivity. Qed.

(** C10 (amended).  Let the window expire at frame [f] with no observed
    EAR negative (each is NaN or has a clear sign bit, as [ear] returns
    them).  The fallback produces a baseline that is a zero (no sample was
    collected and the baseline is 0) exactly when every EAR of the window
    was a zero, and the baseline is then +0; when no sample was collected
    and some EAR of the window was NaN, the baseline is NaN.  The published
    [calibrating] flag is false from then on; and if the baseline is a zero
    or NaN, every later monitor tick changes nothing and publishes nothing,
    and no later handler call raises the alert flag, beeps or notifies,
    whereas with any other baseline the next tick publishes the seconds
    since the last blink. *)
Theorem zero_baseline_iff_all_zero_then_monitor_silent
  (cl : Closure) (u : UiState) (evs evs' : list Event) (f : FrameInput) (c : Q) :
  let s := exec cl (startSession u) evs in
  let s' := step cl s (Results (Some f)) in
  let ears := faceEars evs ++ [f_ear f] in
  baselineEarRef (refs s) = None ->
  hd_error (faceStamps evs ++ [f_now f]) = Some c ->
  CALIBRATION_MS <= f_now f - c ->
  Forall (fun e => Geometry.signClear e = true) ears ->
  exists b,
    baselineEarRef (refs s') = Some b /\
    (open_samples ears = [] /\ Geometry.is_zero b = true
     <-> Forall (fun e => Geometry.is_zero e = true) ears) /\
    (Forall (fun e => Geometry.is_zero e = true) ears -> b = Geometry.pzero) /\
    (open_samples ears = [] ->
     Exists (fun e => Geometry.is_nan e = true) ears -> b = S754_nan) /\
    calibrating (ui s') = false /\
    (Geometry.falsyNumber b = true -> Forall monitorSilenced (run cl s' evs')) /\
    (Geometry.falsyNumber b = false ->
     forall env,
       secondsSinceBlink (ui (step cl s' (Tick env)))
       = secondsSince (refs s') env).
Proof. apply zero_baseline_cases. Qed.

Lemma zero_baseline_witness :
  let cl := sampleClosure in
  let evs := [sampleFrame 0 Geometry.pzero; sampleTick 100;
              sampleFrame 1500 Geometry.pzero] in
  let f := {| f_now := 3000; f_ear := Geometry.pzero |} in
  let evs' := [sampleTick 9000; sampleFrame 9033 Geometry.pzero;
               sampleTick 20000] in
  let s' := step cl (exec cl (startSession sampleUi) evs) (Results (Some f)) in
  baselineEarRef (refs s') = Some Geometry.pzero /\
  calibrating (ui s') = false /\
  Forall monitorSilenced (run cl s' evs').
Proof.
  intros cl evs f evs' s'.
  destruct (@zero_baseline_iff_all_zero_then_monitor_silent
              cl sampleUi evs evs' f 0)
    as (b & Hb & _ & Hzero & _ & Hcal & Hsilent & _).
  - reflexivity.
  - reflexivity.
  - unfold Qle; simpl; lia.
  - repeat constructor.
  - assert (Hz : b = Geometry.pzero).
    { apply Hzero. repeat constructor. }
    subst b. split; [exact Hb |]. split; [exact Hcal |].
    apply Hsilent. reflexivity.
Defined.

(** ** The monitor guard on a zero baseline *)

(** C4 (failing input).  A session whose calibration window saw only the
    EAR 0: the baseline is established (it is 0, no longer null) and the
    published [calibrating] flag is false, and the time of the last blink is
    3000; yet the tick at 9000, for which the seconds since the last blink
    are 6, changes nothing and dispatches nothing. *)
Lemma tick_on_zero_baseline_publishes_nothing :
  let s := exec sampleClosure (startSession sampleUi)
             [sampleFrame 0 Geometry.pzero; sampleFrame 3000 Geometry.pzero] in
  let env := {| perfNow := 9000; dateNow := 1700000009000;
                notificationInWindow := true; permission := PermGranted |} in
  baselineEarRef (refs s) = Some Geometry.pzero /\
  calibrating (ui s) = false /\
  lastBlinkAtRef (refs s) = Some 3000 /\
  secondsSince (refs s) env == 6 /\
  monitorTick sampleClosure (refs s) env = (refs s, []) /\
  secondsSinceBlink (ui (step sampleClosure s (Tick env))) = 0.
Proof. vm_compute. repeat split; reflexivity. Qed.

(** ** A failed start *)

Lemma stopTracks_incl (stream : MediaStream) (live : list Track) (t : Track) :
  In t (stopTracks stream live) -> In t live.
Proof.
  revert live. induction stream as [| a rest IH]; intros live; simpl.
  - auto.
  - intros Hin. apply IH in Hin. apply in_remove in Hin. tauto.
Qed.

Lemma stopTracks_stops (stream : MediaStream) (live : list Track) (t : Track) :
  In t stream -> ~ In t (stopTracks stream live).
Proof.
  revert live. induction stream as [| a rest IH]; intros live; simpl.
  - contradiction.
  - intros [-> | Hin].
    + intros Hlive. apply stopTracks_incl in Hlive.
      apply (remove_In Nat.eq_dec live t Hlive).
    + apply IH, Hin.
Qed.

Lemma cancelHandle_incl (h : option Z) (live : list Z) :
  incl (cancelHandle h live) live.
Proof.
  unfold cancelHandle. destruct h as [id |]; [| apply incl_refl].
  destruct (truthyHandle (Some id)); [| apply incl_refl].
  intros x Hx. apply in_remove in Hx. tauto.
Qed.

Lemma cancelHandle_cancels (id : Z) (live : list Z) :
  id <> 0%Z -> ~ In id (cancelHandle (Some id) live).
Proof.
  intros Hid. unfold cancelHandle, truthyHandle.
  destruct (id =? 0)%Z eqn:Hz; [apply Z.eqb_eq in Hz; contradiction |].
  simpl. apply remove_In.
Qed.

Lemma cleanup_tornDown (b : Browser) :
  tornDown b b (cleanupLoopsAndStream b).
Proof.
  unfold tornDown, cleanupLoopsAndStream. simpl.
  repeat split; try reflexivity.
  - intros stream t Hs Hin. rewrite Hs. apply stopTracks_stops, Hin.
  - intros id Hid Hnz. rewrite Hid. apply cancelHandle_cancels, Hnz.
  - intros id Hid Hnz. rewrite Hid. apply cancelHandle_cancels, Hnz.
  - apply cancelHandle_incl.
  - apply cancelHandle_incl.
Qed.

(** The [catch] block, whatever was thrown and whatever the page holds. *)
Lemma catch_block (e : Thrown) (p1 : Page) :
  let p' := dispatchPage (ERROR (messageOf e))
              {| p_ui := p_ui p1; p_refs := p_refs p1;
                 p_browser := cleanupLoopsAndStream (p_browser p1) |} in
  running (p_ui p') = false /\
  calibrating (p_ui p') = false /\
  alertOn (p_ui p') = false /\
  error (p_ui p') = Some (messageOf e) /\
  tornDown (p_browser p1) (p_browser p1) (p_browser p').
Proof. simpl. repeat split; try reflexivity; apply cleanup_tornDown. Qed.

Ltac thrown :=
  let H := fresh in
  intros H; injection H as <- _; simpl; repeat split; auto; intros; congruence.

Ltac run_setup :=
  unfold setup, setupWith, whilePending, undisturbed, acquisition, bind,
    await, loadScriptOnce, getUserMedia, modifyBrowser, throw, ret; simpl.

(** The [try] block ends as the acquisition steps do. *)
Lemma setup_acquisition (env : StartEnv) (p0 : Page) :
  snd (setup env p0) = acquisition (scriptTag (p_browser p0)) env.
Proof.
  run_setup.
  destruct (scriptOutcome (scriptTag (p_browser p0)) (scriptEvent env) faceMeshScript)
    as [[] | e |]; simpl; try reflexivity.
  destruct (userMedia env) as [stream | e |]; simpl; try reflexivity.
  destruct (videoReady env), (canvasReady env); simpl; try reflexivity.
  destruct (played env) as [[] | e |]; simpl; try reflexivity.
  destruct (context2d env); simpl; [| reflexivity].
  destruct (faceMeshPresent env); simpl; [| reflexivity].
  destruct (meshCreated env) as [[] | e |]; reflexivity.
Qed.

(** When the [try] block throws it has set no loop and no timer, and if the
    camera had handed out a stream, [streamRef] holds it. *)
Lemma setup_threw (env : StartEnv) (p0 p1 : Page) (e : Thrown) :
  setup env p0 = (p1, Threw e) ->
  p_ui p1 = p_ui p0 /\
  rafRef (p_browser p1) = rafRef (p_browser p0) /\
  timerRef (p_browser p1) = timerRef (p_browser p0) /\
  pendingFrames (p_browser p1) = pendingFrames (p_browser p0) /\
  activeIntervals (p_browser p1) = activeIntervals (p_browser p0) /\
  (forall stream,
     scriptOutcome (scriptTag (p_browser p0)) (scriptEvent env) faceMeshScript
     = Returned tt ->
     userMedia env = Returned stream ->
     streamRef (p_browser p1) = Some stream).
Proof.
  run_setup.
  destruct (scriptOutcome (scriptTag (p_browser p0)) (scriptEvent env) faceMeshScript)
    as [[] | e0 |]; simpl; [| thrown | discriminate].
  destruct (userMedia env) as [stream | e0 |]; simpl; [| thrown | discriminate].
  destruct (videoReady env), (canvasReady env); simpl; try thrown.
  destruct (played env) as [[] | e0 |]; simpl; [| thrown | discriminate].
  destruct (context2d env); simpl; [| thrown].
  destruct (faceMeshPresent env); simpl; [| thrown].
  destruct (meshCreated env) as [[] | e0 |]; simpl; [discriminate | thrown | discriminate].
Qed.

Lemma start_unfold (env : StartEnv) (p : Page) :
  agreed (p_ui p) = true ->
  start env p
  = match setup env (started p) with
    | (p1, Returned _) => p1
    | (p1, Pending) => p1
    | (p1, Threw e) =>
        dispatchPage (ERROR (messageOf e))
          {| p_ui := p_ui p1; p_refs := p_refs p1;
             p_browser := cleanupLoopsAndStream (p_browser p1) |}
    end.
Proof.
  intros Hagreed. unfold start, startWith. rewrite Hagreed. reflexivity.
Qed.

Lemma statusText_error (u : UiState) (msg : string) :
  error u = Some msg -> msg <> EmptyString ->
  statusText u = ("Error: " ++ msg)%string.
Proof.
  intros Herr Hne. unfold statusText. rewrite Herr.
  destruct msg; [contradiction | reflexivity].
Qed.

(** X22.  When consent was given and the first acquisition step that does
    not return throws, [start] ends in its [catch] block: the published
    state has [running], [calibrating] and [alertOn] false and carries as
    error the message of what that step threw (or the default text when it
    has no message), which the status line shows unless it is the empty
    string; the stream ref, the animation-frame ref and the interval ref
    are null, every track of the stream held at that point is stopped (so
    is every track of a stream the camera had just handed out), handles
    the refs held are cancelled, and no loop or timer is left behind. *)
Theorem failed_start_tears_down_and_reports
  (env : StartEnv) (p : Page) (e : Thrown) :
  agreed (p_ui p) = true ->
  acquisition (scriptTag (p_browser p)) env = Threw e ->
  let p' := start env p in
  exists p1,
    setup env (started p) = (p1, Threw e) /\
    running (p_ui p') = false /\
    calibrating (p_ui p') = false /\
    alertOn (p_ui p') = false /\
    error (p_ui p') = Some (messageOf e) /\
    (messageOf e <> EmptyString ->
     statusText (p_ui p') = ("Error: " ++ messageOf e)%string) /\
    tornDown (p_browser p1) (p_browser p) (p_browser p') /\
    (forall stream t,
       scriptOutcome (scriptTag (p_browser p)) (scriptEvent env) faceMeshScript
       = Returned tt ->
       userMedia env = Returned stream ->
       In t stream -> ~ In t (liveTracks (p_browser p'))).
Proof.
  intros Hagreed Hfail. cbv zeta. rewrite (start_unfold env p Hagreed).
  pose proof (setup_acquisition env (started p)) as Hacq.
  simpl p_browser in Hacq. rewrite Hfail in Hacq.
  destruct (setup env (started p)) as [p1 o] eqn:Hsetup.
  simpl in Hacq. subst o.
  destruct (setup_threw env _ Hsetup) as (_ & Hraf & Htimer & Hpend & Hact & Hstream).
  destruct (catch_block e p1) as (Hrun & Hcal & Halert & Herr & Htorn).
  exists p1.
  split; [reflexivity |].
  split; [exact Hrun |]. split; [exact Hcal |]. split; [exact Halert |].
  split; [exact Herr |].
  split; [apply statusText_error; exact Herr |].
  destruct Htorn as (T1 & T2 & T3 & T4 & T5 & T6 & T7 & T8).
  split.
  - simpl in Hpend, Hact. unfold tornDown. repeat split; auto.
    + rewrite <- Hpend. exact T7.
    + rewrite <- Hact. exact T8.
  - intros stream t Hscript Hmedia Hin.
    apply (T4 stream t (Hstream stream Hscript Hmedia) Hin).
Qed.

Lemma failed_start_witness :
  let env := {| scriptEvent := LoadFires;
                userMedia := Returned [7%nat; 8%nat];
                videoReady := true; canvasReady := true;
                played := Returned tt; context2d := true;
                faceMeshPresent := false; meshCreated := Returned tt;
                rafId := 1; timerId := 2 |} in
  running (p_ui (start env consentedPage)) = false /\
  error (p_ui (start env consentedPage))
  = Some "FaceMesh failed to load (window.FaceMesh missing)."%string /\
  statusText (p_ui (start env consentedPage))
  = "Error: FaceMesh failed to load (window.FaceMesh missing)."%string /\
  liveTracks (p_browser (start env consentedPage)) = [3%nat] /\
  ~ In 7%nat (liveTracks (p_browser (start env consentedPage))).
Proof.
  intros env.
  destruct (@failed_start_tears_down_and_reports env consentedPage
              (Error "FaceMesh failed to load (window.FaceMesh missing).")
              eq_refl eq_refl)
    as (p1 & _ & Hrun & _ & _ & Herr & Hshown & _ & Hstopped).
  split; [exact Hrun |].
  split; [exact Herr |].
  split; [apply Hshown; discriminate |]. split; [reflexivity |].
  apply (Hstopped [7%nat; 8%nat] 7%nat eq_refl eq_refl). simpl. auto.
Defined.

(** A refused camera, evaluated: the browser's message is the error
    shown, and nothing was acquired. *)
Example camera_denied :
  let env := {| scriptEvent := LoadFires;
                userMedia := Threw {| message := Some "Permission denied"%string |};
                videoReady := true; canvasReady := true;
                played := Returned tt; context2d := true;
                faceMeshPresent := true; meshCreated := Returned tt;
                rafId := 1; timerId := 2 |} in
  p_ui (start env consentedPage)
  = reducer (reducer (reducer (p_ui consentedPage) CLEAR_ERROR) START)
      (ERROR "Permission denied") /\
  p_browser (start env consentedPage) = assignScriptTag TagLoaded idleBrowser.
Proof. vm_compute. split; reflexivity. Qed.

(** A start that succeeds, evaluated: the session runs, with the stream,
    the frame loop and the monitor interval in place. *)
Example start_succeeds :
  let env := {| scriptEvent := LoadFires;
                userMedia := Returned [7%nat];
                videoReady := true; canvasReady := true;
                played := Returned tt; context2d := true;
                faceMeshPresent := true; meshCreated := Returned tt;
                rafId := 1; timerId := 2 |} in
  running (p_ui (start env consentedPage)) = true /\
  error (p_ui (start env consentedPage)) = None /\
  p_browser (start env consentedPage)
  = {| streamRef := Some [7%nat]; rafRef := Some 1%Z; timerRef := Some 2%Z;
       scriptTag := TagLoaded; liveTracks := [7%nat; 3%nat];
       pendingFrames := [1%Z]; activeIntervals := [2%Z] |}.
Proof. vm_compute. repeat split; reflexivity. Qed.

(** ** A failure that does not abort the start *)

(** On a page whose script tag is left from a failed load, [start] never
    leaves its first await: the listeners it attaches are never called. *)
Lemma start_on_failed_tag (env : StartEnv) (p : Page) :
  agreed (p_ui p) = true ->
  scriptTag (p_browser p) = TagFailed ->
  start env p
  = {| p_ui := reducer (reducer (p_ui p) CLEAR_ERROR) START;
       p_refs := resetRefs;
       p_browser := p_browser p |}.
Proof.
  intros Hagreed Htag. rewrite (start_unfold env p Hagreed).
  unfold started. run_setup. rewrite Htag. simpl.
  destruct (p_browser p) as [s r t tag live pend act]; simpl in *.
  subst tag. reflexivity.
Qed.

(** C9 (failing inputs).  The script fails to load at the first press of
    Start: that start aborts and the page shows the error, but the script
    tag stays in the document.  At the next press of Start, whatever the
    browser would answer, [loadScriptOnce] finds that tag, attaches its
    listeners and waits for an event that has already happened: the start
    is never aborted, nothing is torn down or acquired, no error is
    published, and the page shows a running session that is
    "Calibrating…" for good.  And when the camera fails with an error whose
    message is the empty string, the start aborts but the error published
    is the empty string, which the page shows as no error at all. *)
Theorem retry_after_failed_script_load_never_aborts (env : StartEnv) :
  let p1 := start scriptFailsEnv consentedPage in
  let p2 := start env p1 in
  let p3 := start silentFailureEnv consentedPage in
  running (p_ui p1) = false /\
  statusText (p_ui p1)
  = ("Error: Failed to load " ++ faceMeshScript)%string /\
  scriptTag (p_browser p1) = TagFailed /\
  acquisition (scriptTag (p_browser p1)) env = Pending /\
  running (p_ui p2) = true /\
  calibrating (p_ui p2) = true /\
  error (p_ui p2) = None /\
  statusText (p_ui p2)
  = "Calibrating… keep your eyes open for a few seconds."%string /\
  p_browser p2 = p_browser p1 /\
  running (p_ui p3) = false /\
  error (p_ui p3) = Some EmptyString /\
  statusText (p_ui p3) = "Press Start to begin."%string.
Proof.
  cbv zeta.
  assert (H1 : start scriptFailsEnv consentedPage
               = {| p_ui := reducer (reducer (reducer (p_ui consentedPage)
                                                CLEAR_ERROR) START)
                              (ERROR ("Failed to load " ++ faceMeshScript));
                    p_refs := resetRefs;
                    p_browser := assignScriptTag TagFailed idleBrowser |}).
  { vm_compute. reflexivity. }
  rewrite H1.
  rewrite start_on_failed_tag by reflexivity.
  repeat split; reflexivity.
Qed.

(** * Further properties of the handlers *)

(** ** What a handler call can publish *)

Lemma handle_handlerEffects (cl : Closure) (r : Refs) (ev : Event) :
  forallb handlerEffect (snd (handle cl r ev)) = true.
Proof.
  destruct ev as [[f |] | env]; cbn [handle].
  - destruct (baselineEarRef r) as [b |] eqn:Hbase.
    + rewrite (onResults_monitoring _ _ Hbase). cbn [snd].
      rewrite forallb_app. apply andb_true_iff. split.
      * unfold blinkStateMachine. destruct (eyeStateRef r);
          repeat match goal with
                 | |- context [if ?c then _ else _] => destruct c; simpl
                 end; reflexivity.
      * destruct (blinksPerMinute_effects
                    (fst (blinkStateMachine r (f_now f) (f_ear f) b)) (f_now f))
          as [-> | [bpm ->]]; reflexivity.
    + unfold onResults. rewrite Hbase.
      pose proof (calibrationBlock_cells r (f_now f) (f_ear f)) as Hcells.
      cbv zeta in Hcells. destruct Hcells as (_ & _ & _ & _ & _ & Heffs).
      rewrite Heffs. destruct (Qle_bool CALIBRATION_MS _); reflexivity.
  - reflexivity.
  - unfold monitorTick, showAlertNotification.
    repeat match goal with
           | |- context [if ?c then _ else _] => destruct c; simpl
           | |- context [match ?x with Some _ => _ | None => _ end] =>
               destruct x; simpl
           end; reflexivity.
Qed.

(** The handlers leave the session flags and the settings alone; the
    count changes only with SET_BLINKS and [calibrating] only with
    CALIBRATION_DONE. *)
Lemma publish_handlerEffects (effs : list Effect) (u : UiState) :
  forallb handlerEffect effs = true ->
  running (publish u effs) = running u /\
  error (publish u effs) = error u /\
  noBlinkThreshold (publish u effs) = noBlinkThreshold u /\
  agreed (publish u effs) = agreed u /\
  notifEnabled (publish u effs) = notifEnabled u /\
  notifPermission (publish u effs) = notifPermission u /\
  calibrating (publish u effs)
  = calibrating u && negb (existsb isCalibrationDone effs) /\
  (blinkEmitted effs = false -> blinks (publish u effs) = blinks u) /\
  (bpmPublished effs = [] -> blinksPerMin (publish u effs) = blinksPerMin u).
Proof.
  revert u. induction effs as [| e rest IH]; intros u Hall; simpl in *.
  - rewrite andb_true_r. repeat split; reflexivity.
  - apply andb_true_iff in Hall. destruct Hall as [He Hrest].
    destruct (IH (applyEffect u e) Hrest)
      as (H1 & H2 & H3 & H4 & H5 & H6 & H7 & H8 & H9).
    unfold publish in *. rewrite H1, H2, H3, H4, H5, H6, H7.
    destruct e as [[] | |]; try discriminate; simpl in *;
      rewrite ?andb_false_r, ?andb_true_r;
      repeat split; auto; try discriminate;
      destruct (calibrating u); reflexivity.
Qed.

Lemma exec_invariant (cl : Closure) (Inv : Session -> Prop) :
  (forall s ev, Inv s -> Inv (step cl s ev)) ->
  forall evs s, Inv s -> Inv (exec cl s evs).
Proof.
  intros Hstep evs. induction evs as [| ev rest IH]; intros s Hs; simpl; auto.
Qed.

Lemma handle_baseline_stays_unset (cl : Closure) (r : Refs) (ev : Event) :
  baselineEarRef r = None ->
  existsb isCalibrationDone (snd (handle cl r ev)) = false ->
  baselineEarRef (fst (handle cl r ev)) = None.
Proof.
  intros Hnone. destruct ev as [[f |] | env]; cbn [handle].
  - unfold onResults. rewrite Hnone.
    pose proof (calibrationBlock_cells r (f_now f) (f_ear f)) as Hcells.
    cbv zeta in Hcells. destruct Hcells as (_ & _ & _ & Hb & _ & Heffs).
    rewrite Heffs, Hb. destruct (Qle_bool CALIBRATION_MS _); simpl;
      [discriminate | auto].
  - auto.
  - intros _. rewrite (proj1 (monitorTick_frame cl r env)). exact Hnone.
Qed.

(** ** The published flags of a running session *)

Lemma alertOn_publish_handler (effs : list Effect) (u : UiState) :
  existsb isAlertOn effs = false ->
  forallb handlerEffect effs = true ->
  alertOn u = false -> alertOn (publish u effs) = false.
Proof.
  revert u. induction effs as [| e rest IH]; intros u Hno Hall Hoff; simpl in *.
  - exact Hoff.
  - apply orb_false_iff in Hno. destruct Hno as [He Hrest].
    apply andb_true_iff in Hall. destruct Hall as [Hh Hhr].
    apply IH; auto.
    destruct e as [[] | |]; try discriminate; simpl; auto.
Qed.

Lemma flags_step (cl : Closure) (s : Session) (ev : Event) :
  flagsConsistent s -> flagsConsistent (step cl s ev).
Proof.
  intros (Hrun & Herr & Hcal & Halert). unfold flagsConsistent.
  rewrite ui_step, refs_step. unfold effectsOf.
  pose proof (handle_handlerEffects cl (refs s) ev) as Hall.
  destruct (publish_handlerEffects _ (ui s) Hall)
    as (H1 & H2 & _ & _ & _ & _ & H7 & _).
  rewrite H1, H2, H7.
  split; [exact Hrun |]. split; [exact Herr |].
  destruct (existsb isCalibrationDone (snd (handle cl (refs s) ev))) eqn:Hdone.
  - destruct (handle_calibrationDone cl (refs s) ev Hdone) as [_ [b Hb]].
    rewrite Hb, andb_false_r. split; [split; discriminate | reflexivity].
  - rewrite andb_true_r.
    destruct (baselineEarRef (refs s)) as [b |] eqn:Hbase.
    + rewrite (handle_baseline_stable cl (refs s) ev Hbase).
      assert (Hc : calibrating (ui s) = false).
      { destruct (calibrating (ui s)); [| reflexivity].
        destruct Hcal as [Hcal _]. discriminate (Hcal eq_refl). }
      rewrite Hc. split; [split; discriminate | reflexivity].
    + rewrite (handle_baseline_stays_unset cl (refs s) ev Hbase Hdone).
      assert (Hc : calibrating (ui s) = true) by (apply Hcal; reflexivity).
      rewrite Hc. split; [tauto |].
      intros Hon. exfalso.
      assert (Hoff : alertOn (ui s) = false).
      { destruct (alertOn (ui s)); [| reflexivity].
        specialize (Halert eq_refl). congruence. }
      assert (Hno : existsb isAlertOn (snd (handle cl (refs s) ev)) = false).
      { destruct ev as [[f |] | env]; cbn [handle].
        - unfold onResults. rewrite Hbase.
          pose proof (calibrationBlock_cells (refs s) (f_now f) (f_ear f)) as Hc'.
          cbv zeta in Hc'. destruct Hc' as (_ & _ & _ & _ & _ & Heffs).
          rewrite Heffs. destruct (Qle_bool CALIBRATION_MS _); reflexivity.
        - reflexivity.
        - rewrite monitorTick_silent; [reflexivity |]. rewrite Hbase. reflexivity. }
      rewrite (alertOn_publish_handler _ (ui s) Hno Hall Hoff) in Hon.
      discriminate.
Qed.

(** X1.  At any point of a session, whatever frames and ticks arrived:
    the published state shows it running and without an error, the
    published [calibrating] flag is true exactly while the baseline is
    unset, and the alert flag is never true while calibrating. *)
Theorem calibrating_flag_mirrors_unset_baseline
  (cl : Closure) (u : UiState) (evs : list Event) :
  flagsConsistent (exec cl (startSession u) evs).
Proof.
  apply exec_invariant.
  - apply flags_step.
  - unfold flagsConsistent. simpl. repeat split; auto; discriminate.
Qed.

(** ** Counting blinks *)

Lemma blinkStateMachine_quiet_cells (r : Refs) (now : Q) (curEar b : Geometry.float) :
  blinkEmitted (snd (blinkStateMachine r now curEar b)) = false ->
  blinkCountRef (fst (blinkStateMachine r now curEar b)) = blinkCountRef r /\
  lastBlinkMsRef (fst (blinkStateMachine r now curEar b)) = lastBlinkMsRef r.
Proof.
  unfold blinkStateMachine. destruct (eyeStateRef r);
    repeat match goal with
           | |- context [if ?c then _ else _] => destruct c; simpl
           end; try discriminate; auto.
Qed.

Lemma blinkStateMachine_gap (r : Refs) (now : Q) (curEar b : Geometry.float) :
  blinkEmitted (snd (blinkStateMachine r now curEar b)) = true ->
  MIN_BLINK_GAP_MS <= now - lastBlinkMsRef r.
Proof.
  unfold blinkStateMachine. destruct (eyeStateRef r).
  - destruct (SFltb curEar (Geometry.fmul b CLOSE_RATIO)); simpl; discriminate.
  - destruct (SFltb curEar (Geometry.fmul b CLOSE_RATIO));
      destruct (SFltb (Geometry.fmul b OPEN_RATIO) curEar); simpl; try discriminate;
      match goal with
      | |- context [?a && Qle_bool ?x ?y] =>
          destruct a; destruct (Qle_bool x y) eqn:Hfar
      end; simpl; try discriminate; intros _; apply Qle_bool_iff, Hfar.
Qed.

(** A handler call without a blink leaves the count and the time of the
    last blink alone. *)
Lemma handle_quiet_cells (cl : Closure) (r : Refs) (ev : Event) :
  blinkEmitted (snd (handle cl r ev)) = false ->
  blinkCountRef (fst (handle cl r ev)) = blinkCountRef r /\
  lastBlinkMsRef (fst (handle cl r ev)) = lastBlinkMsRef r.
Proof.
  destruct ev as [[f |] | env]; cbn [handle].
  - destruct (baselineEarRef r) as [b |] eqn:Hbase.
    + rewrite (onResults_monitoring _ _ Hbase). cbn [fst snd].
      rewrite blinkEmitted_app. intros Hq. apply orb_false_iff in Hq.
      destruct Hq as [Hq _].
      pose proof (blinksPerMinute_frame
                    (fst (blinkStateMachine r (f_now f) (f_ear f) b)) (f_now f))
        as Hbpm.
      cbv zeta in Hbpm. destruct Hbpm as (_ & _ & _ & Hms & _ & Hcnt & _).
      rewrite Hms, Hcnt. apply blinkStateMachine_quiet_cells, Hq.
    + intros _. unfold onResults. rewrite Hbase.
      pose proof (calibrationBlock_frame r (f_now f) (f_ear f)) as Hfr.
      cbv zeta in Hfr. destruct Hfr as (_ & _ & Hms & Hcnt & _). auto.
  - auto.
  - intros _. pose proof (monitorTick_frame cl r env) as Hfr.
    cbv zeta in Hfr. destruct Hfr as (_ & _ & _ & _ & _ & _ & Hms & _ & Hcnt & _).
    auto.
Qed.

(** A handler call with a blink is a frame that comes at least
    MIN_BLINK_GAP_MS after the recorded time of the last blink, and records
    its own time. *)
Lemma handle_blink_gap (cl : Closure) (r : Refs) (ev : Event) :
  blinkEmitted (snd (handle cl r ev)) = true ->
  exists f, ev = Results (Some f) /\
            lastBlinkMsRef (fst (handle cl r ev)) = f_now f /\
            MIN_BLINK_GAP_MS <= f_now f - lastBlinkMsRef r.
Proof.
  destruct ev as [[f |] | env]; cbn [handle].
  - destruct (baselineEarRef r) as [b |] eqn:Hbase.
    + rewrite (onResults_monitoring _ _ Hbase). cbn [fst snd].
      rewrite blinkEmitted_app.
      pose proof (blinksPerMinute_frame
                    (fst (blinkStateMachine r (f_now f) (f_ear f) b)) (f_now f))
        as Hbpm.
      cbv zeta in Hbpm. destruct Hbpm as (_ & _ & _ & Hms & _ & _ & _ & _ & Hno).
      unfold blinkEmitted at 2. rewrite Hno, orb_false_r. intros Hblink.
      exists f. split; [reflexivity |]. rewrite Hms. split.
      * apply (blinkStateMachine_blink _ _ _ _ Hblink).
      * apply (blinkStateMachine_gap _ _ _ _ Hblink).
    + unfold onResults. rewrite Hbase.
      pose proof (calibrationBlock_frame r (f_now f) (f_ear f)) as Hfr.
      cbv zeta in Hfr. destruct Hfr as (_ & _ & _ & _ & _ & _ & _ & Hno).
      unfold blinkEmitted. rewrite Hno. discriminate.
  - simpl. discriminate.
  - pose proof (monitorTick_frame cl r env) as Hfr. cbv zeta in Hfr.
    destruct Hfr as (_ & _ & _ & _ & _ & _ & _ & _ & _ & Hno).
    unfold blinkEmitted. rewrite Hno. discriminate.
Qed.

Lemma blink_count_run (cl : Closure) (evs : list Event) (s : Session) :
  blinks (ui s) = blinkCountRef (refs s) ->
  blinkCountRef (refs (exec cl s evs))
  = (blinkCountRef (refs s) + Z.of_nat (blinkEvents (run cl s evs)))%Z /\
  blinks (ui (exec cl s evs)) = blinkCountRef (refs (exec cl s evs)).
Proof.
  revert s. induction evs as [| ev rest IH]; intros s Hpub.
  - simpl. split; [unfold blinkEvents; simpl; lia | exact Hpub].
  - simpl exec. simpl run. unfold blinkEvents in *. cbn [filter effects].
    destruct (blinkEmitted (effectsOf cl s ev)) eqn:Hblink.
    + pose proof (blink_step_resets cl s ev Hblink) as Hres.
      unfold blinkResetsMonitor in Hres. cbn [before after event effects] in Hres.
      destruct Hres as (_ & Hcnt & Hblinks & _).
      destruct (IH (step cl s ev) Hblinks) as [IH1 IH2].
      split; [| exact IH2]. rewrite IH1, Hcnt. cbn [List.length]. lia.
    + unfold effectsOf in Hblink.
      destruct (handle_quiet_cells cl (refs s) ev Hblink) as [Hcnt _].
      destruct (publish_handlerEffects _ (ui s)
                  (handle_handlerEffects cl (refs s) ev))
        as (_ & _ & _ & _ & _ & _ & _ & Hb & _).
      assert (Hpub' : blinks (ui (step cl s ev)) = blinkCountRef (refs (step cl s ev))).
      { rewrite ui_step, refs_step. unfold effectsOf. rewrite (Hb Hblink), Hcnt.
        exact Hpub. }
      destruct (IH (step cl s ev) Hpub') as [IH1 IH2].
      split; [| exact IH2]. rewrite IH1, refs_step, Hcnt. reflexivity.
Qed.

(** X2.  After any events of a session, [blinkCountRef] and the published
    count both equal the number of handler calls that emitted a blink
    event. *)
Theorem blink_count_is_number_of_blink_events
  (cl : Closure) (u : UiState) (evs : list Event) :
  let s := exec cl (startSession u) evs in
  blinkCountRef (refs s) = Z.of_nat (blinkEvents (run cl (startSession u) evs)) /\
  blinks (ui s) = Z.of_nat (blinkEvents (run cl (startSession u) evs)).
Proof.
  cbv zeta.
  destruct (blink_count_run cl evs (startSession u) eq_refl) as [H1 H2].
  rewrite H2, H1. simpl. auto.
Qed.

(** ** The refractory period *)

Lemma blinkTimes_after_last (cl : Closure) (evs : list Event) (s : Session) :
  Forall (fun b => MIN_BLINK_GAP_MS <= b - lastBlinkMsRef (refs s))
    (blinkTimes (run cl s evs)).
Proof.
  revert s. induction evs as [| ev rest IH]; intros s; [constructor |].
  simpl. unfold blinkTimes in *. simpl. cbn [event effects].
  specialize (IH (step cl s ev)). rewrite refs_step in IH.
  apply Forall_app. unfold effectsOf.
  destruct (blinkEmitted (snd (handle cl (refs s) ev))) eqn:Hblink.
  - destruct (handle_blink_gap cl (refs s) ev Hblink) as (f & -> & Hms & Hgap).
    rewrite Hms in IH. split; [constructor; [exact Hgap | constructor] |].
    eapply Forall_impl; [| exact IH]. simpl. intros b Hb.
    unfold MIN_BLINK_GAP_MS in *. lra.
  - destruct (handle_quiet_cells cl (refs s) ev Hblink) as [_ Hms].
    rewrite Hms in IH. split; [| exact IH].
    destruct ev as [[f |] | env]; constructor.
Qed.

(** X3.  In every run, from any state of the refs, the frames that emit
    a blink event are pairwise at least MIN_BLINK_GAP_MS apart; and since
    [lastBlinkMsRef] starts at 0, a session emits none before
    [performance.now()] reaches MIN_BLINK_GAP_MS. *)
Theorem blink_events_respect_refractory_gap
  (cl : Closure) (s : Session) (u : UiState) (evs : list Event) :
  spaced MIN_BLINK_GAP_MS (blinkTimes (run cl s evs)) /\
  Forall (fun t => MIN_BLINK_GAP_MS <= t)
    (blinkTimes (run cl (startSession u) evs)).
Proof.
  split.
  - revert s. induction evs as [| ev rest IH]; intros s; [constructor |].
    pose proof (blinkTimes_after_last cl rest (step cl s ev)) as Hafter.
    specialize (IH (step cl s ev)).
    unfold spaced, blinkTimes in *. simpl. cbn [event effects].
    unfold effectsOf.
    destruct (blinkEmitted (snd (handle cl (refs s) ev))) eqn:Hblink.
    + destruct (handle_blink_gap cl (refs s) ev Hblink) as (f & -> & Hms & _).
      rewrite refs_step, Hms in Hafter. simpl. constructor; assumption.
    + destruct ev as [[f |] | env]; exact IH.
  - pose proof (blinkTimes_after_last cl evs (startSession u)) as H.
    eapply Forall_impl; [| exact H]. simpl. intros t Ht. lra.
Qed.

(** ** The published rate *)

Lemma blinkStateMachine_no_bpm (r : Refs) (now : Q) (curEar b : Geometry.float) :
  bpmPublished (snd (blinkStateMachine r now curEar b)) = [] /\
  lastBpmUpdateRef (fst (blinkStateMachine r now curEar b)) = lastBpmUpdateRef r /\
  forallb handlerEffect (snd (blinkStateMachine r now curEar b)) = true /\
  (0 <= blinkCountRef r ->
   0 <= blinkCountRef (fst (blinkStateMachine r now curEar b)))%Z.
Proof.
  unfold blinkStateMachine. destruct (eyeStateRef r);
    repeat match goal with
           | |- context [if ?c then _ else _] => destruct c; simpl
           end; repeat split; auto; lia.
Qed.

Lemma blinksPerMinute_rate (r : Refs) (now : Q) :
  (0 <= blinkCountRef r)%Z ->
  match snd (blinksPerMinute r now) with
  | [] => lastBpmUpdateRef (fst (blinksPerMinute r now)) = lastBpmUpdateRef r
  | e :: tl =>
      tl = [] /\
      (exists bpm, e = Dispatch (SET_BPM bpm) /\ 0 <= bpm) /\
      lastBpmUpdateRef (fst (blinksPerMinute r now)) = now /\
      BPM_UPDATE_MS <= now - lastBpmUpdateRef r
  end.
Proof.
  intros Hcnt. unfold blinksPerMinute.
  assert (Hrate : forall start,
            0 <= (if Qlt_bool 0 ((now - start) / 60000)
                  then inject_Z (blinkCountRef r) / ((now - start) / 60000)
                  else 0)).
  { intros start.
    destruct (Qlt_bool 0 ((now - start) / 60000)) eqn:Hmin; [| lra].
    apply Qlt_bool_iff in Hmin.
    apply Qle_shift_div_l; [exact Hmin |].
    rewrite Qmult_0_l. unfold Qle; simpl. lia. }
  destruct (sessionStartRef r) as [st |]; simpl;
    match goal with
    | |- context [Qle_bool BPM_UPDATE_MS ?d] =>
        destruct (Qle_bool BPM_UPDATE_MS d) eqn:Hupd
    end; simpl; auto;
    apply Qle_bool_iff in Hupd; repeat split; eauto.
Qed.

(** What a handler call publishes as rate, and when. *)
Lemma handle_rate (cl : Closure) (r : Refs) (ev : Event) (u : UiState) :
  (0 <= blinkCountRef r)%Z ->
  match bpmPublished (snd (handle cl r ev)) with
  | [] =>
      lastBpmUpdateRef (fst (handle cl r ev)) = lastBpmUpdateRef r /\
      blinksPerMin (publish u (snd (handle cl r ev))) = blinksPerMin u
  | bpm :: tl =>
      tl = [] /\ 0 <= bpm /\
      blinksPerMin (publish u (snd (handle cl r ev))) = bpm /\
      exists f, ev = Results (Some f) /\
                lastBpmUpdateRef (fst (handle cl r ev)) = f_now f /\
                BPM_UPDATE_MS <= f_now f - lastBpmUpdateRef r
  end.
Proof.
  intros Hcnt. destruct ev as [[f |] | env]; cbn [handle].
  - destruct (baselineEarRef r) as [b |] eqn:Hbase.
    + rewrite (onResults_monitoring _ _ Hbase). cbn [fst snd].
      destruct (blinkStateMachine_no_bpm r (f_now f) (f_ear f) b)
        as (Hnone & Hupd & Hall & Hpos).
      pose proof (blinksPerMinute_rate
                    (fst (blinkStateMachine r (f_now f) (f_ear f) b)) (f_now f)
                    (Hpos Hcnt)) as Hrate.
      destruct (publish_handlerEffects _ u Hall) as (_ & _ & _ & _ & _ & _ & _ & _ & Hkeep).
      unfold bpmPublished in *. rewrite flat_map_app, Hnone. simpl app.
      unfold publish in *. rewrite fold_left_app.
      destruct (snd (blinksPerMinute
                       (fst (blinkStateMachine r (f_now f) (f_ear f) b)) (f_now f)))
        as [| e tl].
      * simpl. rewrite Hrate, Hupd. auto.
      * destruct Hrate as (-> & (bpm & -> & Hbpm) & Hlast & Hgap).
        simpl. rewrite Hupd in Hgap. repeat split; auto. eauto.
    + unfold onResults. rewrite Hbase.
      pose proof (calibrationBlock_cells r (f_now f) (f_ear f)) as Hcells.
      cbv zeta in Hcells. destruct Hcells as (_ & _ & _ & _ & _ & Heffs).
      rewrite Heffs.
      assert (Hupd : lastBpmUpdateRef (fst (calibrationBlock r (f_now f) (f_ear f)))
                     = lastBpmUpdateRef r).
      { unfold calibrationBlock. repeat break_cond; reflexivity. }
      rewrite Hupd. destruct (Qle_bool CALIBRATION_MS _); simpl; auto.
  - simpl. auto.
  - pose proof (handle_handlerEffects cl r (Tick env)) as Hall.
    cbn [handle] in Hall.
    assert (Hnone : bpmPublished (snd (monitorTick cl r env)) = [] /\
                    lastBpmUpdateRef (fst (monitorTick cl r env))
                    = lastBpmUpdateRef r).
    { unfold monitorTick, showAlertNotification.
      repeat match goal with
             | |- context [if ?c then _ else _] => destruct c; simpl
             | |- context [match ?x with Some _ => _ | None => _ end] =>
                 destruct x; simpl
             end; auto. }
    destruct Hnone as [Hnone Hupd]. rewrite Hnone, Hupd.
    destruct (publish_handlerEffects _ u Hall) as (_ & _ & _ & _ & _ & _ & _ & _ & Hkeep).
    auto.
Qed.

Lemma handle_count_nonneg (cl : Closure) (s : Session) (ev : Event) :
  (0 <= blinkCountRef (refs s))%Z ->
  (0 <= blinkCountRef (refs (step cl s ev)))%Z.
Proof.
  intros Hcnt.
  destruct (blinkEmitted (effectsOf cl s ev)) eqn:Hblink.
  - pose proof (blink_step_resets cl s ev Hblink) as Hres.
    unfold blinkResetsMonitor in Hres. cbn [before after event effects] in Hres.
    destruct Hres as (_ & Hplus & _). lia.
  - rewrite refs_step.
    destruct (handle_quiet_cells cl (refs s) ev Hblink) as [Hsame _]. lia.
Qed.

Lemma bpmTimes_after_last (cl : Closure) (evs : list Event) (s : Session) :
  (0 <= blinkCountRef (refs s))%Z ->
  Forall (fun b => BPM_UPDATE_MS <= b - lastBpmUpdateRef (refs s))
    (bpmTimes (run cl s evs)).
Proof.
  revert s. induction evs as [| ev rest IH]; intros s Hcnt; [constructor |].
  simpl. unfold bpmTimes in *. simpl. cbn [event effects].
  specialize (IH (step cl s ev) (handle_count_nonneg cl s ev Hcnt)).
  rewrite refs_step in IH. apply Forall_app. unfold effectsOf.
  pose proof (handle_rate cl (refs s) ev (ui s) Hcnt) as Hrate.
  destruct (bpmPublished (snd (handle cl (refs s) ev))) as [| bpm tl].
  - destruct Hrate as [Hupd _]. rewrite Hupd in IH.
    split; [| exact IH]. destruct ev as [[f |] | env]; constructor.
  - destruct Hrate as (_ & _ & _ & f & -> & Hupd & Hgap).
    rewrite Hupd in IH. split; [constructor; [exact Hgap | constructor] |].
    eapply Forall_impl; [| exact IH]. simpl. intros b Hb.
    unfold BPM_UPDATE_MS in *. lra.
Qed.

Lemma bpmTimes_spaced (cl : Closure) (evs : list Event) (s : Session) :
  (0 <= blinkCountRef (refs s))%Z ->
  spaced BPM_UPDATE_MS (bpmTimes (run cl s evs)).
Proof.
  revert s. induction evs as [| ev rest IH]; intros s Hcnt; [constructor |].
  pose proof (bpmTimes_after_last cl rest (step cl s ev)
                (handle_count_nonneg cl s ev Hcnt)) as Hafter.
  specialize (IH (step cl s ev) (handle_count_nonneg cl s ev Hcnt)).
  unfold spaced, bpmTimes in *. simpl. cbn [event effects]. unfold effectsOf.
  pose proof (handle_rate cl (refs s) ev (ui s) Hcnt) as Hrate.
  destruct (bpmPublished (snd (handle cl (refs s) ev))) as [| bpm tl].
  - destruct ev as [[f |] | env]; exact IH.
  - destruct Hrate as (_ & _ & _ & f & -> & Hupd & _).
    rewrite refs_step, Hupd in Hafter. simpl. constructor; assumption.
Qed.

(** X4.  In every session the rate is published at most once per
    BPM_UPDATE_MS (the frames that dispatch SET_BPM are pairwise at least
    that far apart), and neither a published rate nor the rate shown is
    ever negative. *)
Theorem rate_is_throttled_and_never_negative
  (cl : Closure) (u : UiState) (evs : list Event) :
  spaced BPM_UPDATE_MS (bpmTimes (run cl (startSession u) evs)) /\
  Forall rateNonNegative (run cl (startSession u) evs).
Proof.
  split.
  - apply bpmTimes_spaced. simpl. lia.
  - apply (run_Forall cl
             (fun s => (0 <= blinkCountRef (refs s))%Z /\
                       0 <= blinksPerMin (ui s))).
    + intros s ev [Hcnt Hshown].
      pose proof (handle_rate cl (refs s) ev (ui s) Hcnt) as Hrate.
      unfold rateNonNegative. cbn [effects after]. rewrite ui_step.
      unfold effectsOf.
      destruct (bpmPublished (snd (handle cl (refs s) ev))) as [| bpm tl].
      * destruct Hrate as [_ Hkeep]. rewrite Hkeep.
        repeat split; auto using handle_count_nonneg.
      * destruct Hrate as (-> & Hbpm & Hnew & _). rewrite Hnew.
        repeat split; auto using handle_count_nonneg.
    + simpl. split; [lia | lra].
Qed.

(** ** When the calibration completes *)





(** ** Where the baseline lies *)

(** Above a number that is not negative lie strictly positive numbers
    only. *)
Lemma above_signClear_positive (x e : Geometry.float) :
  Geometry.signClear x = true -> SFltb x e = true ->
  SFltb Geometry.pzero e = true.
Proof.
  destruct x as [sx | sx | | sx mx ex], e as [se | se | | se me ee];
    simpl; intros Hx Hlt; try discriminate Hlt;
    apply negb_true_iff in Hx; subst; try discriminate Hlt;
    destruct se; try reflexivity; try discriminate Hlt.
Qed.

Lemma positive_signClear (e : Geometry.float) :
  SFltb Geometry.pzero e = true -> Geometry.signClear e = true.
Proof. destruct e as [s | s | | s m x]; try destruct s; simpl; auto. Qed.

Lemma fmul_lit_signClear (m : Geometry.float) :
  Geometry.signClear m = true ->
  Geometry.signClear (Geometry.fmul m Geometry.lit_0_8) = true.
Proof.
  destruct m as [s | s | | s mm em]; simpl; intros Hm; try reflexivity;
    apply negb_true_iff in Hm; subst; try reflexivity.
  apply GeometryFacts.binary_round_aux_signClear.
Qed.

(** The running maximum is never negative, whatever is fed to it. *)
Lemma Math_max_keeps_signClear (m e : Geometry.float) :
  Geometry.signClear m = true ->
  Geometry.signClear (Geometry.Math_max m e) = true.
Proof.
  intros Hm. unfold Geometry.Math_max.
  destruct (Geometry.is_nan m || Geometry.is_nan e); [reflexivity |].
  destruct (SFltb m e) eqn:Hlt.
  - apply positive_signClear, (above_signClear_positive m e Hm Hlt).
  - destruct (SFltb e m); [exact Hm |].
    destruct m as [sm | sm | | sm mm em], e as [se | se | | se me ee];
      simpl in *; try assumption.
    apply negb_true_iff in Hm. subst. reflexivity.
Qed.

Lemma running_max_never_negative (ears : list Geometry.float) (m : Geometry.float) :
  Geometry.signClear m = true ->
  Geometry.signClear (fold_left Geometry.Math_max ears m) = true.
Proof.
  revert m. induction ears as [| e rest IH]; intros m Hm; simpl.
  - exact Hm.
  - apply IH, Math_max_keeps_signClear, Hm.
Qed.

(** Every collected sample is strictly positive. *)
Lemma collectFrom_all_positive (ears : list Geometry.float) (m : Geometry.float) :
  Geometry.signClear m = true ->
  Forall (fun e => SFltb Geometry.pzero e = true) (collectFrom m ears).
Proof.
  revert m. induction ears as [| e rest IH]; intros m Hm; simpl.
  - constructor.
  - pose proof (Math_max_keeps_signClear m e Hm) as Hmax.
    apply Forall_app. split; [| apply IH; assumption].
    destruct (SFltb (Geometry.fmul (Geometry.Math_max m e) Geometry.lit_0_8) e)
      eqn:Hlt; [| constructor].
    constructor; [| constructor].
    apply (above_signClear_positive _ e (fmul_lit_signClear _ Hmax) Hlt).
Qed.

Lemma sum_signClear (l : list Geometry.float) (a : Geometry.float) :
  Geometry.signClear a = true ->
  Forall (fun e => Geometry.signClear e = true) l ->
  Geometry.signClear (sum_from a l) = true.
Proof.
  revert a. induction l as [| x rest IH]; intros a Ha Hall; simpl.
  - exact Ha.
  - inversion Hall as [| ? ? Hx Hrest]; subst.
    apply IH; [| exact Hrest].
    apply GeometryFacts.fadd_signClear; assumption.
Qed.

Lemma ofLength_signClear (A : Type) (l : list A) :
  Geometry.signClear (Geometry.ofLength l) = true.
Proof.
  unfold Geometry.ofLength, binary_normalize.
  destruct (Z.of_nat (List.length l)) as [| p | p] eqn:Hn; [reflexivity | | lia].
  unfold binary_round. destruct (shl_align _ _ _) as [mz ez].
  apply GeometryFacts.binary_round_aux_signClear.
Qed.

Lemma arithmetic_mean_signClear (l : list Geometry.float) :
  Forall (fun e => Geometry.signClear e = true) l ->
  Geometry.signClear (arithmetic_mean l) = true.
Proof.
  intros Hall. unfold arithmetic_mean.
  apply GeometryFacts.fdiv_signClear.
  - apply sum_signClear; [reflexivity | exact Hall].
  - apply ofLength_signClear.
Qed.

Lemma Math_max_nan_inv (m e : Geometry.float) :
  Geometry.is_nan (Geometry.Math_max m e) = true ->
  Geometry.is_nan m = true \/ Geometry.is_nan e = true.
Proof.
  unfold Geometry.Math_max.
  destruct (Geometry.is_nan m) eqn:Hm; [auto |].
  destruct (Geometry.is_nan e) eqn:He; [auto |]. simpl.
  destruct (SFltb m e); [congruence |].
  destruct (SFltb e m); [congruence |].
  destruct m, e; simpl in *; congruence.
Qed.

Lemma running_max_nan_inv (ears : list Geometry.float) (m : Geometry.float) :
  Geometry.is_nan (fold_left Geometry.Math_max ears m) = true ->
  Geometry.is_nan m = true \/ Exists (fun e => Geometry.is_nan e = true) ears.
Proof.
  revert m. induction ears as [| e rest IH]; intros m Hnan; simpl in *.
  - auto.
  - destruct (IH _ Hnan) as [H | H]; [| right; apply Exists_cons_tl, H].
    destruct (Math_max_nan_inv _ _ H) as [Hm | He]; [auto |].
    right. apply Exists_cons_hd, He.
Qed.

Lemma calibrated_baseline_sign
  (cl : Closure) (u : UiState) (evs : list Event) (f : FrameInput) (c : Q) :
  let s := exec cl (startSession u) evs in
  let ears := faceEars evs ++ [f_ear f] in
  baselineEarRef (refs s) = None ->
  hd_error (faceStamps evs ++ [f_now f]) = Some c ->
  CALIBRATION_MS <= f_now f - c ->
  exists b,
    baselineEarRef (refs (step cl s (Results (Some f)))) = Some b /\
    Geometry.signClear b = true /\
    Geometry.isNegative b = false /\
    Forall (fun e => SFltb Geometry.pzero e = true) (open_samples ears) /\
    (open_samples ears = [] ->
     (Geometry.is_nan b = true
      <-> Exists (fun e => Geometry.is_nan e = true) ears)).
Proof.
  cbv zeta. intros Hnone Hfirst Hexpired.
  destruct (calibration_completes cl u evs [] f Hnone Hfirst Hexpired)
    as (_ & _ & (b & Hb & Hmean & Hmax & _) & _).
  pose proof (@collectFrom_all_positive (faceEars evs ++ [f_ear f])
                Geometry.pzero eq_refl) as Hpos.
  fold (open_samples (faceEars evs ++ [f_ear f])) in Hpos.
  assert (Hsign : Geometry.signClear b = true).
  { destruct (open_samples (faceEars evs ++ [f_ear f])) as [| a l] eqn:Hs.
    - rewrite (Hmax eq_refl). apply running_max_never_negative. reflexivity.
    - rewrite Hmean by discriminate.
      apply arithmetic_mean_signClear.
      apply (Forall_impl _ positive_signClear Hpos). }
  exists b. split; [exact Hb |]. split; [exact Hsign |].
  split; [apply GeometryFacts.signClear_not_negative, Hsign |].
  split; [exact Hpos |].
  intros Hnil. rewrite (Hmax Hnil). split.
  - intros Hnan. destruct (running_max_nan_inv _ _ Hnan) as [H | H];
      [discriminate H | exact H].
  - intros Hex. unfold running_max. rewrite (running_max_saw_nan _ Hex).
    reflexivity.
Qed.

(** X6.  When the calibration window closes, whatever EARs were observed
    (negative, infinite and NaN ones included): the baseline is never
    negative (it is NaN or has a clear sign bit, so [baseline < 0] is
    false); every sample collected is strictly positive; and when no
    sample was collected, the baseline is NaN exactly when some EAR of the
    window was. *)
Theorem calibrated_baseline_never_negative
  (cl : Closure) (u : UiState) (evs : list Event) (f : FrameInput) (c : Q) :
  let s := exec cl (startSession u) evs in
  let ears := faceEars evs ++ [f_ear f] in
  baselineEarRef (refs s) = None ->
  hd_error (faceStamps evs ++ [f_now f]) = Some c ->
  CALIBRATION_MS <= f_now f - c ->
  exists b,
    baselineEarRef (refs (step cl s (Results (Some f)))) = Some b /\
    Geometry.signClear b = true /\
    Geometry.isNegative b = false /\
    Forall (fun e => SFltb Geometry.pzero e = true) (open_samples ears) /\
    (open_samples ears = [] ->
     (Geometry.is_nan b = true
      <-> Exists (fun e => Geometry.is_nan e = true) ears)).
Proof. apply calibrated_baseline_sign. Qed.

Lemma calibrated_baseline_sign_witness :
  let evs := [sampleFrame 100 (S754_finite true 4503599627370496 (-52));
              sampleFrame 1600 S754_nan] in
  let f := {| f_now := 3100; f_ear := Geometry.pzero |} in
  exists b,
    baselineEarRef
      (refs (step sampleClosure (exec sampleClosure (startSession sampleUi) evs)
               (Results (Some f)))) = Some b /\
    Geometry.isNegative b = false /\
    Geometry.is_nan b = true.
Proof.
  intros evs f.
  destruct (@calibrated_baseline_never_negative
              sampleClosure sampleUi evs f 100)
    as (b & Hb & _ & Hneg & _ & Hnan).
  - reflexivity.
  - reflexivity.
  - unfold Qle; simpl; lia.
  - exists b. split; [exact Hb |]. split; [exact Hneg |].
    apply Hnan; [reflexivity |].
    apply Exists_cons_tl, Exists_cons_hd. reflexivity.
Defined.

(** ** Hysteresis: a dip of one frame is absorbed *)

(** A frame, once the baseline is set, as the state machine sees it. *)
Lemma frame_step_cells (cl : Closure) (s : Session) (f : FrameInput) (b : Geometry.float) :
  baselineEarRef (refs s) = Some b ->
  let m := blinkStateMachine (refs s) (f_now f) (f_ear f) b in
  let s' := step cl s (Results (Some f)) in
  baselineEarRef (refs s') = Some b /\
  eyeStateRef (refs s') = eyeStateRef (fst m) /\
  closedFramesRef (refs s') = closedFramesRef (fst m) /\
  blinkEmitted (effectsOf cl s (Results (Some f))) = blinkEmitted (snd m).
Proof.
  intros Hbase. cbv zeta. rewrite refs_step. unfold effectsOf. cbn [handle].
  pose proof (handle_baseline_stable cl (refs s) (Results (Some f)) Hbase) as Hst.
  cbn [handle] in Hst. rewrite Hst.
  rewrite (onResults_monitoring _ _ Hbase). cbn [fst snd].
  pose proof (blinksPerMinute_frame
                (fst (blinkStateMachine (refs s) (f_now f) (f_ear f) b))
                (f_now f)) as Hbpm.
  cbv zeta in Hbpm. destruct Hbpm as (_ & Heye & Hcnt & _ & _ & _ & _ & _ & Hno).
  rewrite Heye, Hcnt, blinkEmitted_app. unfold blinkEmitted at 2.
  rewrite Hno, orb_false_r. auto.
Qed.

Lemma blinkStateMachine_closes (r : Refs) (now : Q) (curEar b : Geometry.float) :
  eyeStateRef r = OPEN -> SFltb curEar (closeThreshold b) = true ->
  let m := blinkStateMachine r now curEar b in
  eyeStateRef (fst m) = CLOSED /\ closedFramesRef (fst m) = 1%Z /\
  blinkEmitted (snd m) = false.
Proof.
  intros Heye Hlow. unfold closeThreshold in Hlow.
  unfold blinkStateMachine. rewrite Heye, Hlow. simpl. auto.
Qed.

Lemma blinkStateMachine_band (r : Refs) (now : Q) (curEar b : Geometry.float) :
  eyeStateRef r = CLOSED ->
  SFltb curEar (closeThreshold b) = false ->
  SFltb (openThreshold b) curEar = false ->
  let m := blinkStateMachine r now curEar b in
  eyeStateRef (fst m) = CLOSED /\ closedFramesRef (fst m) = closedFramesRef r /\
  blinkEmitted (snd m) = false.
Proof.
  intros Heye Hlow Hhigh. unfold closeThreshold in Hlow.
  unfold openThreshold in Hhigh.
  unfold blinkStateMachine. rewrite Heye, Hlow, Hhigh. simpl. auto.
Qed.

Lemma blinkStateMachine_short_dip (r : Refs) (now : Q) (curEar b : Geometry.float) :
  eyeStateRef r = CLOSED -> closedFramesRef r = 1%Z ->
  SFltb (openThreshold b) curEar = true ->
  SFltb curEar (closeThreshold b) = false ->
  let m := blinkStateMachine r now curEar b in
  eyeStateRef (fst m) = OPEN /\ closedFramesRef (fst m) = 0%Z /\
  blinkEmitted (snd m) = false.
Proof.
  intros Heye Hone Hopen Hnotlow. cbv zeta.
  destruct (@blinkStateMachine_reopens r now curEar b Heye Hopen) as [H1 H2].
  split; [exact H1 |]. split; [exact H2 |].
  destruct (blinkEmitted (snd (blinkStateMachine r now curEar b))) eqn:Hemit;
    [| reflexivity].
  apply blinkStateMachine_emits in Hemit.
  destruct Hemit as (_ & Hlong & _).
  unfold closedDwell in Hlong. cbn [f_ear] in Hlong.
  rewrite Hnotlow, Hone in Hlong. unfold MIN_CLOSED_FRAMES in Hlong. lia.
Qed.

Lemma blinkEvents_cons (cl : Closure) (s : Session) (ev : Event) (rest : list Event) :
  blinkEvents (run cl s (ev :: rest))
  = ((if blinkEmitted (effectsOf cl s ev) then 1 else 0)
     + blinkEvents (run cl (step cl s ev) rest))%nat.
Proof.
  unfold blinkEvents. simpl. cbn [effects].
  destruct (blinkEmitted (effectsOf cl s ev)); reflexivity.
Qed.

(** Frames in the band keep a CLOSED machine as it is. *)
Lemma band_frames_keep (cl : Closure) (b : Geometry.float) (mid : list FrameInput) (s : Session) :
  baselineEarRef (refs s) = Some b ->
  eyeStateRef (refs s) = CLOSED ->
  Forall (inBand b) mid ->
  let evs := map (fun f => Results (Some f)) mid in
  baselineEarRef (refs (exec cl s evs)) = Some b /\
  eyeStateRef (refs (exec cl s evs)) = CLOSED /\
  closedFramesRef (refs (exec cl s evs)) = closedFramesRef (refs s) /\
  blinkEvents (run cl s evs) = 0%nat.
Proof.
  revert s. induction mid as [| f rest IH]; intros s Hbase Heye Hall; cbv zeta.
  - simpl. auto.
  - inversion Hall as [| ? ? [Hlow Hhigh] Hrest]; subst.
    destruct (@frame_step_cells cl s f b Hbase) as (Hb' & He' & Hc' & Hemit).
    destruct (@blinkStateMachine_band (refs s) (f_now f) (f_ear f) b Heye Hlow Hhigh)
      as (M1 & M2 & M3).
    rewrite M1 in He'. rewrite M2 in Hc'. rewrite M3 in Hemit.
    destruct (IH (step cl s (Results (Some f))) Hb' He' Hrest)
      as (I1 & I2 & I3 & I4).
    cbn [map]. rewrite blinkEvents_cons, Hemit. simpl exec.
    rewrite I1, I2, I3, I4, Hc'. auto.
Qed.

Lemma short_dip (cl : Closure) (s : Session) (b : Geometry.float)
  (f1 f2 : FrameInput) (mid : list FrameInput) :
  baselineEarRef (refs s) = Some b ->
  Geometry.signClear b = true ->
  eyeStateRef (refs s) = OPEN ->
  SFltb (f_ear f1) (closeThreshold b) = true ->
  Forall (inBand b) mid ->
  SFltb (openThreshold b) (f_ear f2) = true ->
  let evs := Results (Some f1)
             :: map (fun f => Results (Some f)) mid ++ [Results (Some f2)] in
  let closed := exec cl s (Results (Some f1)
                           :: map (fun f => Results (Some f)) mid) in
  eyeStateRef (refs closed) = CLOSED /\
  closedFramesRef (refs closed) = 1%Z /\
  blinkEvents (run cl s evs) = 0%nat /\
  eyeStateRef (refs (exec cl s evs)) = OPEN /\
  closedFramesRef (refs (exec cl s evs)) = 0%Z /\
  blinkCountRef (refs (exec cl s evs)) = blinkCountRef (refs s).
Proof.
  intros Hbase Hsign Heye Hlow Hmid Hopen. cbv zeta.
  pose proof (above_open_not_below_close _ _ Hsign Hopen) as Hnotlow.
  assert (Hnone : (eyeStateRef
                     (refs (exec cl (step cl s (Results (Some f1)))
                              (map (fun f => Results (Some f)) mid))) = CLOSED /\
                   closedFramesRef
                     (refs (exec cl (step cl s (Results (Some f1)))
                              (map (fun f => Results (Some f)) mid))) = 1%Z) /\
                  blinkEvents
                    (run cl s (Results (Some f1)
                               :: map (fun f => Results (Some f)) mid
                                  ++ [Results (Some f2)])) = 0%nat /\
                  eyeStateRef
                    (refs (exec cl s (Results (Some f1)
                                      :: map (fun f => Results (Some f)) mid
                                         ++ [Results (Some f2)]))) = OPEN /\
                  closedFramesRef
                    (refs (exec cl s (Results (Some f1)
                                      :: map (fun f => Results (Some f)) mid
                                         ++ [Results (Some f2)]))) = 0%Z).
  { destruct (@frame_step_cells cl s f1 b Hbase) as (Hb1 & He1 & Hc1 & Hemit1).
    destruct (@blinkStateMachine_closes (refs s) (f_now f1) (f_ear f1) b Heye Hlow)
      as (M1 & M2 & M3).
    rewrite M1 in He1. rewrite M2 in Hc1. rewrite M3 in Hemit1.
    destruct (@band_frames_keep cl b mid (step cl s (Results (Some f1))) Hb1 He1 Hmid)
      as (I1 & I2 & I3 & I4).
    rewrite Hc1 in I3.
    set (s2 := exec cl (step cl s (Results (Some f1)))
                 (map (fun f => Results (Some f)) mid)) in *.
    destruct (@frame_step_cells cl s2 f2 b I1) as (_ & He2 & Hc2 & Hemit2).
    destruct (@blinkStateMachine_short_dip (refs s2) (f_now f2) (f_ear f2) b I2 I3
                Hopen Hnotlow)
      as (N1 & N2 & N3).
    rewrite N1 in He2. rewrite N2 in Hc2. rewrite N3 in Hemit2.
    rewrite blinkEvents_cons, Hemit1. simpl exec.
    rewrite run_app, exec_app. fold s2.
    unfold blinkEvents in *. rewrite filter_app, length_app, I4.
    simpl. cbn [effects]. rewrite Hemit2. auto. }
  destruct Hnone as ((Hclosed & Hone) & Hzero & Hopen' & Hcnt').
  split; [exact Hclosed |]. split; [exact Hone |].
  split; [exact Hzero |]. split; [exact Hopen' |]. split; [exact Hcnt' |].
  assert (Hgen : forall evs s0,
            blinkEvents (run cl s0 evs) = 0%nat ->
            blinkCountRef (refs (exec cl s0 evs)) = blinkCountRef (refs s0)).
  { induction evs as [| ev rest IH]; intros s0 H0; [reflexivity |].
    rewrite blinkEvents_cons in H0. simpl exec.
    destruct (blinkEmitted (effectsOf cl s0 ev)) eqn:Hemit; [discriminate |].
    rewrite (IH (step cl s0 ev) H0), refs_step.
    apply (handle_quiet_cells cl (refs s0) ev Hemit). }
  apply Hgen, Hzero.
Qed.

(** X7.  With a baseline that is not negative (as every calibrated
    baseline is): from OPEN, one frame whose EAR is below the close
    threshold, then any number of frames that neither test accepts (not
    below the close threshold, not above the open one), then a frame
    above the open threshold emit no blink event at all: the first frame
    closes the machine with a count of 1, the frames in between leave it
    CLOSED with that count, and the last frame returns it to OPEN with a
    zero count and the blink count unchanged.
    The thresholds are the rounded products [baseline * 0.62] and
    [baseline * 0.82] and the tests are the page's own comparisons. *)
Theorem single_low_frame_is_absorbed
  (cl : Closure) (s : Session) (b : Geometry.float)
  (f1 f2 : FrameInput) (mid : list FrameInput) :
  baselineEarRef (refs s) = Some b ->
  Geometry.signClear b = true ->
  eyeStateRef (refs s) = OPEN ->
  SFltb (f_ear f1) (closeThreshold b) = true ->
  Forall (inBand b) mid ->
  SFltb (openThreshold b) (f_ear f2) = true ->
  let evs := Results (Some f1)
             :: map (fun f => Results (Some f)) mid ++ [Results (Some f2)] in
  let closed := exec cl s (Results (Some f1)
                           :: map (fun f => Results (Some f)) mid) in
  eyeStateRef (refs closed) = CLOSED /\
  closedFramesRef (refs closed) = 1%Z /\
  blinkEvents (run cl s evs) = 0%nat /\
  eyeStateRef (refs (exec cl s evs)) = OPEN /\
  closedFramesRef (refs (exec cl s evs)) = 0%Z /\
  blinkCountRef (refs (exec cl s evs)) = blinkCountRef (refs s).
Proof. apply short_dip. Qed.

Lemma single_low_frame_witness :
  let s := {| refs := set_baselineEar (Some ear_0_3) resetRefs;
              ui := ui (startSession sampleUi) |} in
  let evs := [sampleFrame 1000 ear_0_15; sampleFrame 1033 ear_0_2;
              sampleFrame 1066 ear_0_28] in
  blinkEvents (run sampleClosure s evs) = 0%nat /\
  eyeStateRef (refs (exec sampleClosure s evs)) = OPEN.
Proof.
  intros s evs.
  destruct (@single_low_frame_is_absorbed sampleClosure s ear_0_3
              {| f_now := 1000; f_ear := ear_0_15 |}
              {| f_now := 1066; f_ear := ear_0_28 |}
              [{| f_now := 1033; f_ear := ear_0_2 |}])
    as (_ & _ & H1 & H2 & _).
  - reflexivity.
  - reflexivity.
  - reflexivity.
  - reflexivity.
  - repeat constructor.
  - reflexivity.
  - split; [exact H1 | exact H2].
Defined.

(** At the boundary the machine stays CLOSED: with the baseline 0.154 a
    frame whose EAR is the double [0.154 * 0.82] rounds to is not above
    the open threshold; it is one of the frames neither test accepts. *)
Example boundary_frame_is_in_band :
  let b := S754_finite false 5548434740920451 (-55) in
  inBand b {| f_now := 1066; f_ear := openThreshold b |}.
Proof. split; vm_compute; reflexivity. Qed.

(** ** The monitor's clock *)





(** ** A rising alert beeps at once *)




(** ** The edge marker [lastAlertOnRef] *)

Lemma calibrationBlock_marker (r : Refs) (v : bool) (now : Q) (curEar : Geometry.float) :
  calibrationBlock (set_lastAlertOn v r) now curEar
  = (set_lastAlertOn v (fst (calibrationBlock r now curEar)),
     snd (calibrationBlock r now curEar)).
Proof.
  destruct r as [ba cs mx os ey cf lm la laa ss bc lb ln lo].
  unfold calibrationBlock.
  destruct cs as [c |];
    cbn -[Qle_bool Qminus reduce_sum Nat.ltb CALIBRATION_MS SFltb
          Geometry.Math_max Geometry.fmul Geometry.fdiv Geometry.ofLength];
    destruct (SFltb (Geometry.fmul (Geometry.Math_max mx curEar)
                       Geometry.lit_0_8) curEar);
    cbn -[Qle_bool Qminus reduce_sum Nat.ltb CALIBRATION_MS SFltb
          Geometry.Math_max Geometry.fmul Geometry.fdiv Geometry.ofLength];
    match goal with
    | |- context [Qle_bool CALIBRATION_MS ?d] =>
        destruct (Qle_bool CALIBRATION_MS d)
    end; reflexivity.
Qed.

Lemma blinkStateMachine_marker (r : Refs) (v : bool) (now : Q) (curEar b : Geometry.float) :
  blinkStateMachine (set_lastAlertOn v r) now curEar b
  = (set_lastAlertOn v (fst (blinkStateMachine r now curEar b)),
     snd (blinkStateMachine r now curEar b)).
Proof.
  destruct r as [ba cs mx os ey cf lm la laa ss bc lb ln lo].
  unfold blinkStateMachine.
  cbn [eyeStateRef set_lastAlertOn].
  destruct ey.
  - destruct (SFltb curEar (Geometry.fmul b CLOSE_RATIO)); reflexivity.
  - destruct (SFltb curEar (Geometry.fmul b CLOSE_RATIO));
      destruct (SFltb (Geometry.fmul b OPEN_RATIO) curEar); try reflexivity;
      cbn -[Qle_bool Qlt_bool Qminus Qmult Z.leb Z.add MIN_CLOSED_FRAMES
            MIN_BLINK_GAP_MS];
      match goal with
      | |- context [(MIN_CLOSED_FRAMES <=? ?k)%Z] =>
          destruct (MIN_CLOSED_FRAMES <=? k)%Z
      end;
      destruct (Qle_bool MIN_BLINK_GAP_MS (now - lm)); reflexivity.
Qed.

Lemma blinksPerMinute_marker (r : Refs) (v : bool) (now : Q) :
  blinksPerMinute (set_lastAlertOn v r) now
  = (set_lastAlertOn v (fst (blinksPerMinute r now)),
     snd (blinksPerMinute r now)).
Proof.
  destruct r as [ba cs mx os ey cf lm la laa ss bc lb ln lo].
  unfold blinksPerMinute.
  destruct ss as [s0 |];
    cbn -[Qle_bool Qlt_bool Qminus Qmult Qdiv inject_Z BPM_UPDATE_MS];
    destruct (Qle_bool BPM_UPDATE_MS (now - lb)); reflexivity.
Qed.

Lemma onResults_marker (r : Refs) (v : bool) (res : option FrameInput) :
  onResults (set_lastAlertOn v r) res
  = (set_lastAlertOn v (fst (onResults r res)), snd (onResults r res)).
Proof.
  destruct res as [f |]; [| reflexivity].
  unfold onResults.
  replace (baselineEarRef (set_lastAlertOn v r)) with (baselineEarRef r)
    by reflexivity.
  destruct (baselineEarRef r) as [b |].
  - rewrite blinkStateMachine_marker.
    destruct (blinkStateMachine r (f_now f) (f_ear f) b) as [r1 e1].
    cbn [fst snd]. rewrite blinksPerMinute_marker.
    destruct (blinksPerMinute r1 (f_now f)) as [r2 e2]. reflexivity.
  - apply calibrationBlock_marker.
Qed.

Lemma showAlertNotification_marker (cl : Closure) (r : Refs) (v : bool)
  (env : TickEnv) :
  showAlertNotification cl (set_lastAlertOn v r) env
  = (set_lastAlertOn v (fst (showAlertNotification cl r env)),
     snd (showAlertNotification cl r env)).
Proof.
  destruct r as [ba cs mx os ey cf lm la laa ss bc lb ln lo].
  unfold showAlertNotification.
  cbn [lastNotifAtRef set_lastAlertOn].
  destruct (negb (cl_notifEnabled cl)), (negb (cl_mounted cl)),
    (negb (notificationInWindow env)), (negb (isGranted (permission env))),
    (Qlt_bool (dateNow env - ln) NOTIF_COOLDOWN_MS); reflexivity.
Qed.

Lemma set_lastAlertOn_twice (v w : bool) (r : Refs) :
  set_lastAlertOn v (set_lastAlertOn w r) = set_lastAlertOn v r.
Proof. reflexivity. Qed.

Lemma monitorTick_marker (cl : Closure) (r : Refs) (v : bool) (env : TickEnv) :
  snd (monitorTick cl (set_lastAlertOn v r) env) = snd (monitorTick cl r env) /\
  exists v',
    fst (monitorTick cl (set_lastAlertOn v r) env)
    = set_lastAlertOn v' (fst (monitorTick cl r env)).
Proof.
  unfold monitorTick.
  replace (baselineEarRef (set_lastAlertOn v r)) with (baselineEarRef r)
    by reflexivity.
  replace (lastBlinkAtRef (set_lastAlertOn v r)) with (lastBlinkAtRef r)
    by reflexivity.
  replace (lastAlertOnRef (set_lastAlertOn v r)) with v by reflexivity.
  destruct (falsy (baselineEarRef r)).
  { split; [reflexivity | exists v; reflexivity]. }
  match goal with
  | |- context [Qle_bool (cl_noBlinkThreshold cl) ?d] =>
      destruct (Qle_bool (cl_noBlinkThreshold cl) d)
  end.
  2:{ split; [reflexivity | exists false; reflexivity]. }
  assert (Hshape : forall w : bool,
            (if negb w
             then showAlertNotification cl (set_lastAlertOn true r) env
             else showAlertNotification cl (set_lastAlertOn w r) env)
            = (set_lastAlertOn true (fst (showAlertNotification cl r env)),
               snd (showAlertNotification cl r env))).
  { intros [|]; cbn [negb]; apply showAlertNotification_marker. }
  assert (Hleft :
            (if negb v
             then showAlertNotification cl
                    (set_lastAlertOn true (set_lastAlertOn v r)) env
             else showAlertNotification cl (set_lastAlertOn v r) env)
            = (set_lastAlertOn true (fst (showAlertNotification cl r env)),
               snd (showAlertNotification cl r env))).
  { rewrite set_lastAlertOn_twice. destruct v; cbn [negb];
      apply showAlertNotification_marker. }
  rewrite Hleft.
  assert (Hright :
            exists w,
              (if negb (lastAlertOnRef r)
               then showAlertNotification cl (set_lastAlertOn true r) env
               else showAlertNotification cl r env)
              = (set_lastAlertOn w (fst (showAlertNotification cl r env)),
                 snd (showAlertNotification cl r env))).
  { destruct (lastAlertOnRef r) eqn:Hlo; cbn [negb].
    - exists true.
      replace (set_lastAlertOn true (fst (showAlertNotification cl r env)))
        with (fst (showAlertNotification cl r env)); [apply surjective_pairing |].
      pose proof (showAlertNotification_marker cl r true env) as Hm.
      replace (set_lastAlertOn true r) with r in Hm
        by (destruct r; simpl in Hlo; subst; reflexivity).
      rewrite Hm at 1. reflexivity.
    - exists true. apply showAlertNotification_marker. }
  destruct Hright as [w Hright]. rewrite Hright.
  clear Hshape Hleft Hright.
  destruct (showAlertNotification cl r env) as [rn notif]. cbn [fst snd].
  replace (lastAlertAtRef (set_lastAlertOn true rn)) with (lastAlertAtRef rn)
    by reflexivity.
  replace (lastAlertAtRef (set_lastAlertOn w rn)) with (lastAlertAtRef rn)
    by reflexivity.
  destruct (Qle_bool ALERT_REPEAT_MS (perfNow env - lastAlertAtRef rn));
    (split; [reflexivity |]); destruct w; exists true; reflexivity.
Qed.

Lemma handle_ignores_marker (cl : Closure) (r : Refs) (v : bool) (ev : Event) :
  snd (handle cl (set_lastAlertOn v r) ev) = snd (handle cl r ev) /\
  exists v',
    fst (handle cl (set_lastAlertOn v r) ev)
    = set_lastAlertOn v' (fst (handle cl r ev)).
Proof.
  destruct ev as [res | env]; cbn [handle].
  - rewrite onResults_marker. cbn [fst snd].
    split; [reflexivity | exists v; reflexivity].
  - apply monitorTick_marker.
Qed.

Lemma run_ignores_marker (cl : Closure) (evs : list Event) (s : Session) (v : bool) :
  map effects (run cl {| refs := set_lastAlertOn v (refs s); ui := ui s |} evs)
  = map effects (run cl s evs) /\
  ui (exec cl {| refs := set_lastAlertOn v (refs s); ui := ui s |} evs)
  = ui (exec cl s evs).
Proof.
  revert s v. induction evs as [| ev rest IH]; intros s v; [auto |].
  destruct (handle_ignores_marker cl (refs s) v ev) as [Heffs [v' Hrefs]].
  assert (Hstep : step cl {| refs := set_lastAlertOn v (refs s); ui := ui s |} ev
                  = {| refs := set_lastAlertOn v' (refs (step cl s ev));
                       ui := ui (step cl s ev) |}).
  { unfold step. cbn [refs ui].
    destruct (handle cl (set_lastAlertOn v (refs s)) ev) as [r1 e1].
    destruct (handle cl (refs s) ev) as [r2 e2].
    simpl in *. subst. reflexivity. }
  simpl run. simpl exec. cbn [map effects]. rewrite Hstep.
  destruct (IH (step cl s ev) v') as [IH1 IH2].
  rewrite IH1, IH2. unfold effectsOf. cbn [refs]. rewrite Heffs. auto.
Qed.

(** X10.  The edge marker [lastAlertOnRef] decides nothing: with either
    value of the marker a run performs the same effects, call by call, and
    publishes the same state. *)
Theorem alert_edge_marker_is_never_decisive
  (cl : Closure) (evs : list Event) (s : Session) (v : bool) :
  map effects (run cl {| refs := set_lastAlertOn v (refs s); ui := ui s |} evs)
  = map effects (run cl s evs) /\
  ui (exec cl {| refs := set_lastAlertOn v (refs s); ui := ui s |} evs)
  = ui (exec cl s evs).
Proof. apply run_ignores_marker. Qed.

(** * The reducer and what is rendered from it *)

Lemma errorMeansStopped_reducer (u : UiState) (a : Action) :
  errorMeansStopped u -> errorMeansStopped (reducer u a).
Proof.
  unfold errorMeansStopped.
  destruct a; simpl; intros H He; auto; congruence.
Qed.

Lemma errorMeansStopped_dispatchAll (acts : list Action) (u : UiState) :
  errorMeansStopped u -> errorMeansStopped (dispatchAll u acts).
Proof.
  revert u. induction acts as [| a rest IH]; intros u Hu; simpl; auto.
  apply IH, errorMeansStopped_reducer, Hu.
Qed.

Lemma statusText_blink (u : UiState) :
  errorMeansStopped u ->
  (overlayShown u = true
   <-> statusText u = "BLINK! (alert repeats until you blink)"%string).
Proof.
  unfold errorMeansStopped, overlayShown, statusText. intros Hinv.
  destruct (error u) as [[| c e] |].
  - rewrite Hinv by discriminate. simpl. split; discriminate.
  - rewrite Hinv by discriminate. simpl. split; discriminate.
  - destruct (running u), (calibrating u), (alertOn u); simpl;
      split; try discriminate; reflexivity.
Qed.

(** X11.  Whatever was dispatched since the page was loaded, the alarm
    overlay is rendered exactly when the status line reads "BLINK! (alert
    repeats until you blink)", and an error is only ever shown on a page
    that does not run. *)
Theorem overlay_shown_iff_status_says_blink (acts : list Action) :
  (overlayShown (dispatchAll initialState acts) = true
   <-> statusText (dispatchAll initialState acts)
       = "BLINK! (alert repeats until you blink)"%string) /\
  errorMeansStopped (dispatchAll initialState acts).
Proof.
  assert (Hinv : errorMeansStopped (dispatchAll initialState acts)).
  { apply errorMeansStopped_dispatchAll.
    intros H. exfalso. apply H. reflexivity. }
  split; [apply statusText_blink, Hinv | exact Hinv].
Qed.

(** X12.  Over any sequence of dispatches the threshold, the notification
    switch and the notification permission hold what their own action
    wrote last (or what they held before), and consent, once given, stays:
    no other action, START, STOP and ERROR included, touches them. *)
Theorem settings_change_only_by_their_own_action
  (acts : list Action) (u : UiState) :
  noBlinkThreshold (dispatchAll u acts)
  = lastSet thresholdSet acts (noBlinkThreshold u) /\
  notifEnabled (dispatchAll u acts)
  = lastSet notifEnabledSet acts (notifEnabled u) /\
  notifPermission (dispatchAll u acts)
  = lastSet notifPermissionSet acts (notifPermission u) /\
  agreed (dispatchAll u acts) = agreed u || existsb isAgree acts.
Proof.
  revert u. induction acts as [| a rest IH]; intros u.
  - simpl. rewrite orb_false_r. repeat split; reflexivity.
  - unfold dispatchAll in *. cbn [fold_left lastSet existsb].
    destruct (IH (reducer u a)) as (H1 & H2 & H3 & H4).
    rewrite H1, H2, H3, H4.
    destruct a; simpl; rewrite ?orb_true_r; repeat split; reflexivity.
Qed.

Lemma step_keeps_settings (cl : Closure) (s : Session) (ev : Event) :
  noBlinkThreshold (ui (step cl s ev)) = noBlinkThreshold (ui s) /\
  notifEnabled (ui (step cl s ev)) = notifEnabled (ui s) /\
  notifPermission (ui (step cl s ev)) = notifPermission (ui s) /\
  agreed (ui (step cl s ev)) = agreed (ui s).
Proof.
  rewrite ui_step.
  destruct (publish_handlerEffects (snd (handle cl (refs s) ev)) (ui s)
              (handle_handlerEffects cl (refs s) ev))
    as (_ & _ & H3 & H4 & H5 & H6 & _).
  auto.
Qed.

Lemma exec_keeps_settings (cl : Closure) (evs : list Event) (s : Session) :
  noBlinkThreshold (ui (exec cl s evs)) = noBlinkThreshold (ui s) /\
  notifEnabled (ui (exec cl s evs)) = notifEnabled (ui s) /\
  notifPermission (ui (exec cl s evs)) = notifPermission (ui s) /\
  agreed (ui (exec cl s evs)) = agreed (ui s).
Proof.
  revert s. induction evs as [| ev rest IH]; intros s; [simpl; auto |].
  simpl exec.
  destruct (IH (step cl s ev)) as (H1 & H2 & H3 & H4).
  destruct (step_keeps_settings cl s ev) as (K1 & K2 & K3 & K4).
  rewrite H1, H2, H3, H4. auto.
Qed.

(** What the handlers do depends on the ref cells and on the values
    their closures captured, not on the published state. *)
Lemma run_ignores_published (cl : Closure) (evs : list Event) (s : Session)
  (u' : UiState) :
  map effects (run cl {| refs := refs s; ui := u' |} evs)
  = map effects (run cl s evs) /\
  refs (exec cl {| refs := refs s; ui := u' |} evs) = refs (exec cl s evs).
Proof.
  revert s u'. induction evs as [| ev rest IH]; intros s u'; [simpl; auto |].
  assert (Hstep : step cl {| refs := refs s; ui := u' |} ev
                  = {| refs := refs (step cl s ev);
                       ui := publish u' (effectsOf cl s ev) |}).
  { unfold step, effectsOf. cbn [refs ui].
    destruct (handle cl (refs s) ev) as [r effs]. reflexivity. }
  simpl run. simpl exec. cbn [map effects]. rewrite Hstep.
  destruct (IH (step cl s ev) (publish u' (effectsOf cl s ev))) as [IH1 IH2].
  rewrite IH1, IH2. auto.
Qed.

(** X13.  The two handlers never dispatch a setting: every effect of a
    handler call is one of the six session dispatches, a beep or a
    notification, so across any frames and ticks the published threshold,
    notification switch, permission and consent stay as they were (the
    controls of the page can still change them).  And the handlers do not
    read the published state: with any other published state the same
    frames and ticks have the same effects, call by call. *)
Theorem handlers_never_dispatch_settings
  (cl : Closure) (s : Session) (evs : list Event) (u' : UiState) :
  Forall (fun st => forallb handlerEffect (effects st) = true) (run cl s evs) /\
  noBlinkThreshold (ui (exec cl s evs)) = noBlinkThreshold (ui s) /\
  notifEnabled (ui (exec cl s evs)) = notifEnabled (ui s) /\
  notifPermission (ui (exec cl s evs)) = notifPermission (ui s) /\
  agreed (ui (exec cl s evs)) = agreed (ui s) /\
  map effects (run cl {| refs := refs s; ui := u' |} evs)
  = map effects (run cl s evs).
Proof.
  split.
  - apply (run_Forall cl (fun _ => True)); [| exact I].
    intros s0 ev _. split; [exact I |]. apply handle_handlerEffects.
  - destruct (exec_keeps_settings cl evs s) as (H1 & H2 & H3 & H4).
    repeat split; try assumption.
    apply run_ignores_published.
Qed.

(** The notification switch turned off during a session does not reach
    the session: the tick still notifies, by the value captured at
    start. *)
Example switch_off_during_session_still_notifies :
  let s := exec sampleClosure (startSession sampleUi)
             [sampleFrame 0 ear_0_3; sampleFrame 3000 ear_0_3] in
  let s' := {| refs := refs s;
               ui := reducer (ui s) (SET_NOTIF_ENABLED false) |} in
  notifEnabled (ui s') = false /\
  existsb isNotify (effectsOf sampleClosure s' (sampleTick 8000)) = true.
Proof. vm_compute. split; reflexivity. Qed.

(** * Starting, stopping and sound *)

(** ** Sound *)

Lemma audioDiscipline_app (l1 l2 : list AudioEvent) (o : option nat) :
  audioDiscipline o (l1 ++ l2)
  = match audioDiscipline o l1 with
    | Some o' => audioDiscipline o' l2
    | None => None
    end.
Proof.
  revert o. induction l1 as [| e rest IH]; intros o; [reflexivity |].
  destruct e, o as [c0 |]; simpl; try reflexivity;
    try (destruct (c =? c0)%nat; [apply IH | reflexivity]); apply IH.
Qed.

Lemma audioStep_discipline (a : Audio) (op : AudioOp) :
  audioDiscipline None (rev (audioLog a)) = Some (audioCtxRef a) ->
  audioDiscipline None (rev (audioLog (audioStep a op)))
  = Some (audioCtxRef (audioStep a op)).
Proof.
  intros Hinv. destruct a as [ref n log]. simpl in Hinv.
  destruct op as [env |]; cbn [audioStep].
  - unfold beep. destruct (audioCtxAvailable env); [| exact Hinv].
    cbn [negb audioCtxRef constructed audioLog].
    destruct ref as [c |], (ctxSuspended env);
      cbn [audioCtxRef constructed audioLog rev];
      rewrite ?audioDiscipline_app, Hinv; simpl;
      rewrite ?Nat.eqb_refl; reflexivity.
  - unfold closeAudio. cbn [audioCtxRef constructed audioLog].
    destruct ref as [c |]; [| exact Hinv].
    cbn [audioCtxRef audioLog rev].
    rewrite audioDiscipline_app, Hinv. simpl.
    rewrite Nat.eqb_refl. reflexivity.
Qed.

Lemma audioSteps_discipline (ops : list AudioOp) (a : Audio) :
  audioDiscipline None (rev (audioLog a)) = Some (audioCtxRef a) ->
  audioDiscipline None (rev (audioLog (fold_left audioStep ops a)))
  = Some (audioCtxRef (fold_left audioStep ops a)).
Proof.
  revert a. induction ops as [| op rest IH]; intros a Ha; [exact Ha |].
  simpl. apply IH, audioStep_discipline, Ha.
Qed.

Lemma audioStep_tones (a : Audio) (op : AudioOp) :
  tonesStarted (audioLog (audioStep a op))
  = (tonesStarted (audioLog a) + audibleBeeps [op])%nat.
Proof.
  destruct a as [ref n log]. destruct op as [env |]; cbn [audioStep].
  - unfold beep, audibleBeeps, tonesStarted.
    destruct (audioCtxAvailable env) eqn:Hav; simpl; rewrite Hav; simpl;
      [| apply plus_n_O].
    destruct ref as [c |], (ctxSuspended env); simpl; lia.
  - unfold closeAudio, audibleBeeps, tonesStarted.
    destruct ref as [c |]; simpl; lia.
Qed.

(** X14.  Whatever the alarm and the Stop button do in whatever order, the
    page keeps to one audio context at a time: a context is constructed
    only when none is open, every resume and every tone goes to the open
    context, only the open context is closed, and [audioCtxRef] holds
    exactly the open context.  Every beep that finds the constructor
    starts one tone. *)
Theorem one_audio_context_at_a_time (ops : list AudioOp) :
  audioDiscipline None (rev (audioLog (fold_left audioStep ops initialAudio)))
  = Some (audioCtxRef (fold_left audioStep ops initialAudio)) /\
  tonesStarted (audioLog (fold_left audioStep ops initialAudio))
  = audibleBeeps ops.
Proof.
  split.
  - apply audioSteps_discipline. reflexivity.
  - change (audibleBeeps ops)
      with (tonesStarted (audioLog initialAudio) + audibleBeeps ops)%nat.
    generalize initialAudio as a.
    induction ops as [| op rest IH]; intros a.
    + simpl. unfold audibleBeeps. simpl. apply plus_n_O.
    + simpl fold_left. rewrite IH, audioStep_tones.
      unfold audibleBeeps. simpl.
      destruct op as [env |]; [destruct (audioCtxAvailable env) |]; simpl; lia.
Qed.

(** ** Stop *)

Lemma cleanup_idempotent (b : Browser) :
  cleanupLoopsAndStream (cleanupLoopsAndStream b) = cleanupLoopsAndStream b.
Proof. reflexivity. Qed.

Lemma closeAudio_idempotent (a : Audio) :
  closeAudio (closeAudio a) = closeAudio a.
Proof. destruct a as [[c |] n log]; reflexivity. Qed.

(** X15.  [stop] is idempotent: a second call cancels nothing, stops no
    track, closes no context and leaves the published state as it is; and
    on a stopped page the visibility listener does nothing. *)
Theorem stop_is_idempotent (a : App) (hidden : bool) :
  stop (stop a) = stop a /\ onVis hidden (stop a) = stop a.
Proof.
  split.
  - unfold stop, stopPage. cbn [page audio p_ui p_refs p_browser].
    rewrite cleanup_idempotent, closeAudio_idempotent. reflexivity.
  - unfold onVis. cbn [stop stopPage page p_ui reducer running].
    rewrite andb_false_r. reflexivity.
Qed.

(** ** A start that goes through, and its stop *)

Lemma setup_returned (env : StartEnv) (p0 : Page) (stream : MediaStream) :
  acquisition (scriptTag (p_browser p0)) env = Returned tt ->
  userMedia env = Returned stream ->
  setup env p0
  = ({| p_ui := p_ui p0; p_refs := p_refs p0;
        p_browser := runningBrowser env stream (p_browser p0) |}, Returned tt).
Proof.
  run_setup. unfold runningBrowser. intros Hacq Hmedia.
  rewrite Hmedia in *.
  destruct (scriptOutcome (scriptTag (p_browser p0)) (scriptEvent env) faceMeshScript)
    as [[] | e |] eqn:Hscript; simpl in *; try discriminate.
  assert (Htag : match scriptTag (p_browser p0), scriptEvent env with
                 | TagLoaded, _ => TagLoaded
                 | TagFailed, _ => TagFailed
                 | _, LoadFires => TagLoaded
                 | _, ErrorFires => TagFailed
                 | _, NothingFires => TagUnsettled
                 end = TagLoaded).
  { destruct (scriptTag (p_browser p0)), (scriptEvent env);
      simpl in Hscript; try discriminate; reflexivity. }
  destruct (videoReady env), (canvasReady env); simpl in *; try discriminate.
  destruct (played env) as [[] | e |]; simpl in *; try discriminate.
  destruct (context2d env); simpl in *; try discriminate.
  destruct (faceMeshPresent env); simpl in *; try discriminate.
  destruct (meshCreated env) as [[] | e |]; simpl in *; try discriminate.
  rewrite Htag. reflexivity.
Qed.

Lemma start_returned (env : StartEnv) (p : Page) (stream : MediaStream) :
  agreed (p_ui p) = true ->
  acquisition (scriptTag (p_browser p)) env = Returned tt ->
  userMedia env = Returned stream ->
  start env p
  = {| p_ui := reducer (reducer (p_ui p) CLEAR_ERROR) START;
       p_refs := resetRefs;
       p_browser := runningBrowser env stream (p_browser p) |}.
Proof.
  intros Hagreed Hacq Hmedia. rewrite (start_unfold env p Hagreed).
  rewrite (@setup_returned env _ stream); [reflexivity | exact Hacq | exact Hmedia].
Qed.

(** X16.  When consent was given and every acquisition step returns,
    [start] leaves a fresh session: the published state is the reset one
    (running, calibrating, counters at zero, no error) with the settings
    and consent kept, the detector cells are reset, the stream ref holds
    the camera's stream with its tracks live, and the frame loop and the
    monitor interval are installed under the handles the browser gave,
    which the two refs hold. *)
Theorem successful_start_installs_stream_and_loops
  (env : StartEnv) (p : Page) (stream : MediaStream) :
  agreed (p_ui p) = true ->
  acquisition (scriptTag (p_browser p)) env = Returned tt ->
  userMedia env = Returned stream ->
  start env p
  = {| p_ui := reducer (reducer (p_ui p) CLEAR_ERROR) START;
       p_refs := resetRefs;
       p_browser := runningBrowser env stream (p_browser p) |} /\
  closureOf (p_ui (start env p)) true = closureOf (p_ui p) true /\
  statusText (p_ui (start env p))
  = "Calibrating… keep your eyes open for a few seconds."%string.
Proof.
  intros Hagreed Hacq Hmedia.
  rewrite (@start_returned env p stream Hagreed Hacq Hmedia).
  repeat split.
Qed.

Lemma successful_start_witness :
  start goodEnv consentedPage
  = {| p_ui := reducer (reducer (p_ui consentedPage) CLEAR_ERROR) START;
       p_refs := resetRefs;
       p_browser := runningBrowser goodEnv [7%nat; 8%nat] (p_browser consentedPage) |} /\
  closureOf (p_ui (start goodEnv consentedPage)) true
  = closureOf (p_ui consentedPage) true /\
  statusText (p_ui (start goodEnv consentedPage))
  = "Calibrating… keep your eyes open for a few seconds."%string.
Proof.
  apply (@successful_start_installs_stream_and_loops
           goodEnv consentedPage [7%nat; 8%nat]); reflexivity.
Defined.

Lemma stopTracks_own_stream (stream pre live : list Track) :
  (forall t, In t pre -> In t stream) ->
  (forall t, In t stream -> ~ In t live) ->
  stopTracks stream (pre ++ live) = live.
Proof.
  unfold stopTracks. revert pre.
  induction stream as [| t0 rest IH]; intros pre Hpre Hfresh.
  - destruct pre as [| t pre']; [reflexivity |].
    destruct (Hpre t (or_introl eq_refl)).
  - cbn [fold_left]. rewrite remove_app.
    rewrite (@notin_remove Track Nat.eq_dec live t0) by (apply Hfresh; left; reflexivity).
    apply IH.
    + intros t Ht. apply in_remove in Ht. destruct Ht as [Hin Hne].
      destruct (Hpre t Hin) as [Heq | Hrest]; [congruence | exact Hrest].
    + intros t Ht. apply Hfresh. right. exact Ht.
Qed.

Lemma cancel_own_handle (id : Z) (live : list Z) :
  id <> 0%Z -> ~ In id live -> cancelHandle (Some id) (id :: live) = live.
Proof.
  intros Hid Hfresh. unfold cancelHandle, truthyHandle.
  destruct (id =? 0)%Z eqn:Hz; [apply Z.eqb_eq in Hz; contradiction |].
  cbn [negb]. simpl. destruct (Z.eq_dec id id) as [_ | Hne]; [| contradiction].
  apply notin_remove. exact Hfresh.
Qed.

(** ** The loop, and a Stop during a send *)

Lemma remove_own_handle (h : Z) (live : list Z) :
  ~ In h live -> remove Z.eq_dec h (h :: live) = live.
Proof.
  intros Hfresh. simpl. destruct (Z.eq_dec h h) as [_ | Hne]; [| contradiction].
  apply notin_remove. exact Hfresh.
Qed.

Lemma cancel_fired_handle (id : Z) (live : list Z) :
  ~ In id live -> cancelHandle (Some id) live = live.
Proof.
  intros Hfresh. unfold cancelHandle.
  destruct (truthyHandle (Some id)); [| reflexivity].
  apply notin_remove. exact Hfresh.
Qed.

Lemma loopInv_step (env : StartEnv) (stream : MediaStream) (p : Page)
  (l : Looping) (op : LoopOp) :
  freshHandles (pendingFrames (p_browser p)) (handlesOf [op]) ->
  loopInv env stream p l -> loopInv env stream p (loopStep l op).
Proof.
  intros Hfresh (Hui & Hs & Ht & Hl & Ha & h & Hr & Hnz & Hnew & Hpend).
  inversion Hfresh as [| ? ? [Hnext0 Hnextnew] _]; subst.
  destruct l as [[u r b] n]. cbn [l_page p_browser p_ui sending] in *.
  destruct op as [fenv | resolved next]; cbn [loopStep].
  - unfold frameFires. cbn [l_page p_browser sending]. rewrite Hr.
    destruct (in_dec Z.eq_dec h (pendingFrames b)) as [Hin | Hout].
    + destruct Hpend as [[Hp Hn] | [Hp Hn]];
        [| rewrite Hp in Hin; contradiction].
      assert (Hfired : remove Z.eq_dec h (pendingFrames b)
                       = pendingFrames (p_browser p)).
      { rewrite Hp. apply remove_own_handle, Hnew. }
      destruct (elementsPresent fenv); cbn [negb];
        [destruct (haveData fenv) |];
        unfold loopInv, onBrowser, fireFrame, requestAnimationFrame;
        cbn [l_page p_browser p_ui sending streamRef rafRef timerRef
             liveTracks pendingFrames activeIntervals];
        rewrite ?Hfired; repeat (split; [assumption |]).
      * exists h. repeat (split; [assumption |]). right. split; [reflexivity | lia].
      * exists (nextRaf fenv). split; [reflexivity |].
        split; [exact Hnext0 |]. split; [exact Hnextnew |]. left. auto.
      * exists h. repeat (split; [assumption |]). right. split; [reflexivity | lia].
    + unfold loopInv. cbn [l_page p_browser p_ui sending].
      repeat (split; [assumption |]). exists h. auto.
  - unfold sendSettles. cbn [sending l_page].
    destruct n as [| n'].
    + unfold loopInv. cbn [l_page p_browser p_ui sending].
      repeat (split; [assumption |]). exists h. auto.
    + destruct Hpend as [[_ Hn] | [Hp Hn]]; [discriminate |].
      destruct resolved;
        unfold loopInv, onBrowser, requestAnimationFrame;
        cbn [l_page p_browser p_ui sending streamRef rafRef timerRef
             liveTracks pendingFrames activeIntervals];
        repeat (split; [assumption |]).
      * exists next. split; [reflexivity |]. split; [exact Hnext0 |].
        split; [exact Hnextnew |]. left. rewrite Hp. split; [reflexivity | lia].
      * exists h. repeat (split; [assumption |]). right. split; [exact Hp | lia].
Qed.

Lemma loopInv_run (env : StartEnv) (stream : MediaStream) (p : Page)
  (ops : list LoopOp) (l : Looping) :
  freshHandles (pendingFrames (p_browser p)) (handlesOf ops) ->
  loopInv env stream p l -> loopInv env stream p (runLoop ops l).
Proof.
  revert l. induction ops as [| op rest IH]; intros l Hfresh Hinv; [exact Hinv |].
  inversion Hfresh as [| ? ? Hop Hrest]; subst.
  cbn [runLoop fold_left]. apply IH; [exact Hrest |].
  apply loopInv_step; [| exact Hinv]. constructor; [exact Hop | constructor].
Qed.

(** Once Stop was pressed with no call suspended, the loop is over. *)
Lemma loop_over (ops : list LoopOp) (l : Looping) :
  rafRef (p_browser (l_page l)) = None -> sending l = 0%nat ->
  runLoop ops l = l.
Proof.
  intros Hraf Hsend. induction ops as [| op rest IH]; [reflexivity |].
  cbn [runLoop fold_left].
  replace (loopStep l op) with l; [exact IH |].
  destruct op as [fenv | resolved next]; cbn [loopStep].
  - unfold frameFires. rewrite Hraf. reflexivity.
  - unfold sendSettles. rewrite Hsend. reflexivity.
Qed.

Lemma stop_after_loop
  (env : StartEnv) (p : Page) (stream : MediaStream) (ops : list LoopOp) :
  agreed (p_ui p) = true ->
  acquisition (scriptTag (p_browser p)) env = Returned tt ->
  userMedia env = Returned stream ->
  freshHandles (pendingFrames (p_browser p)) (rafId env :: handlesOf ops) ->
  timerId env <> 0%Z ->
  ~ In (timerId env) (activeIntervals (p_browser p)) ->
  (forall t, In t stream -> ~ In t (liveTracks (p_browser p))) ->
  let l := runLoop ops {| l_page := start env p; sending := 0 |} in
  let l' := stopLooping l in
  liveTracks (p_browser (l_page l')) = liveTracks (p_browser p) /\
  pendingFrames (p_browser (l_page l')) = pendingFrames (p_browser p) /\
  activeIntervals (p_browser (l_page l')) = activeIntervals (p_browser p) /\
  streamRef (p_browser (l_page l')) = None /\
  rafRef (p_browser (l_page l')) = None /\
  timerRef (p_browser (l_page l')) = None /\
  statusText (p_ui (l_page l')) = "Press Start to begin."%string /\
  (sending l <= 1)%nat /\
  (sending l = 0%nat -> forall ops', runLoop ops' l' = l') /\
  (sending l = 1%nat -> forall next,
     let l'' := sendSettles true next l' in
     rafRef (p_browser (l_page l'')) = Some next /\
     pendingFrames (p_browser (l_page l''))
     = next :: pendingFrames (p_browser p) /\
     statusText (p_ui (l_page l'')) = "Press Start to begin."%string).
Proof.
  intros Hagreed Hacq Hmedia Hfresh Htimer Hftimer Hftracks.
  inversion Hfresh as [| ? ? [Hraf0 Hrafnew] Hrest]; subst.
  assert (Hinv0 : loopInv env stream p {| l_page := start env p; sending := 0 |}).
  { rewrite (@start_returned env p stream Hagreed Hacq Hmedia).
    unfold loopInv, runningBrowser.
    cbn [l_page p_browser p_ui sending streamRef rafRef timerRef
         liveTracks pendingFrames activeIntervals].
    repeat (split; [reflexivity |]).
    exists (rafId env). repeat (split; [auto |]). left. auto. }
  pose proof (loopInv_run ops Hrest Hinv0) as Hinv.
  cbv zeta.
  set (l := runLoop ops {| l_page := start env p; sending := 0 |}) in *.
  destruct Hinv as (Hui & Hs & Ht & Hl & Ha & h & Hr & Hnz & Hnew & Hpend).
  assert (Hcancel : cancelHandle (Some h) (pendingFrames (p_browser (l_page l)))
                    = pendingFrames (p_browser p)).
  { destruct Hpend as [[Hp _] | [Hp _]]; rewrite Hp.
    - apply cancel_own_handle; assumption.
    - apply cancel_fired_handle; assumption. }
  assert (Hle : (sending l <= 1)%nat).
  { destruct Hpend as [[_ Hn] | [_ Hn]]; lia. }
  unfold stopLooping, stopPage, cleanupLoopsAndStream.
  cbn [l_page p_browser p_ui sending streamRef rafRef timerRef
       liveTracks pendingFrames activeIntervals].
  rewrite Hs, Ht, Hl, Ha, Hr, Hcancel, Hui.
  split; [apply stopTracks_own_stream; auto |].
  split; [reflexivity |].
  split; [apply cancel_own_handle; assumption |].
  repeat (split; [reflexivity |]).
  split; [exact Hle |].
  split.
  - intros Hzero ops'. apply loop_over; [reflexivity | exact Hzero].
  - intros Hone next. unfold sendSettles. cbn [sending l_page]. rewrite Hone.
    cbn [l_page p_browser p_ui onBrowser requestAnimationFrame rafRef
         pendingFrames].
    repeat split; reflexivity.
Qed.

(** X17.  After a [start] that went through (the handles the browser hands
    out being non-zero and new, the tracks of the stream new) and any
    number of turns of the FaceMesh loop, a press of Stop leaves the
    browser as it was before the start: the live tracks, the pending frame
    requests and the active intervals are exactly those from before, the
    three resource refs are null, and the page shows "Press Start to
    begin."  At most one call of the loop is suspended in [mesh.send] at
    that point.  If none is, the loop is over: nothing it could do changes
    the page any more.  If one is, the Stop did not end the loop: when the
    send resolves, the call requests the next frame, [rafRef] holds the
    new handle and the request is pending, on a page that reads "Press
    Start to begin." *)
Theorem stop_undoes_start_unless_sending
  (env : StartEnv) (p : Page) (stream : MediaStream) (ops : list LoopOp) :
  agreed (p_ui p) = true ->
  acquisition (scriptTag (p_browser p)) env = Returned tt ->
  userMedia env = Returned stream ->
  freshHandles (pendingFrames (p_browser p)) (rafId env :: handlesOf ops) ->
  timerId env <> 0%Z ->
  ~ In (timerId env) (activeIntervals (p_browser p)) ->
  (forall t, In t stream -> ~ In t (liveTracks (p_browser p))) ->
  let l := runLoop ops {| l_page := start env p; sending := 0 |} in
  let l' := stopLooping l in
  liveTracks (p_browser (l_page l')) = liveTracks (p_browser p) /\
  pendingFrames (p_browser (l_page l')) = pendingFrames (p_browser p) /\
  activeIntervals (p_browser (l_page l')) = activeIntervals (p_browser p) /\
  streamRef (p_browser (l_page l')) = None /\
  rafRef (p_browser (l_page l')) = None /\
  timerRef (p_browser (l_page l')) = None /\
  statusText (p_ui (l_page l')) = "Press Start to begin."%string /\
  (sending l <= 1)%nat /\
  (sending l = 0%nat -> forall ops', runLoop ops' l' = l') /\
  (sending l = 1%nat -> forall next,
     let l'' := sendSettles true next l' in
     rafRef (p_browser (l_page l'')) = Some next /\
     pendingFrames (p_browser (l_page l''))
     = next :: pendingFrames (p_browser p) /\
     statusText (p_ui (l_page l'')) = "Press Start to begin."%string).
Proof. apply stop_after_loop. Qed.

Lemma stop_during_send_witness :
  let ops := [FrameFires {| elementsPresent := true; haveData := false;
                            nextRaf := 5 |};
              FrameFires {| elementsPresent := true; haveData := true;
                            nextRaf := 6 |}] in
  let l := runLoop ops {| l_page := start goodEnv consentedPage; sending := 0 |} in
  let l'' := sendSettles true 9 (stopLooping l) in
  pendingFrames (p_browser (l_page (stopLooping l))) = [] /\
  liveTracks (p_browser (l_page (stopLooping l))) = [3%nat] /\
  sending l = 1%nat /\
  rafRef (p_browser (l_page l'')) = Some 9%Z /\
  pendingFrames (p_browser (l_page l'')) = [9%Z] /\
  running (p_ui (l_page l'')) = false.
Proof.
  intros ops l l''.
  destruct (@stop_undoes_start_unless_sending goodEnv consentedPage
              [7%nat; 8%nat] ops)
    as (H1 & H2 & _ & _ & _ & _ & _ & _ & _ & Hsend).
  - reflexivity.
  - reflexivity.
  - reflexivity.
  - unfold freshHandles. simpl. repeat constructor; simpl; try lia; tauto.
  - simpl. lia.
  - simpl. tauto.
  - simpl. intros t [<- | [<- | []]] [H | []]; discriminate.
  - split; [exact H2 |]. split; [exact H1 |].
    split; [reflexivity |].
    destruct (Hsend eq_refl 9%Z) as (K1 & K2 & _).
    split; [exact K1 |]. split; [exact K2 |]. reflexivity.
Defined.

(** A Stop between two frames, evaluated: the pending request is
    cancelled and nothing the loop could do follows. *)
Example stop_between_frames :
  let ops := [FrameFires {| elementsPresent := true; haveData := true;
                            nextRaf := 5 |};
              SendSettles true 6] in
  let l := runLoop ops {| l_page := start goodEnv consentedPage; sending := 0 |} in
  pendingFrames (p_browser (l_page l)) = [6%Z] /\
  sending l = 0%nat /\
  pendingFrames (p_browser (l_page (stopLooping l))) = [] /\
  runLoop [FrameFires {| elementsPresent := true; haveData := true;
                         nextRaf := 7 |}; SendSettles true 8]
    (stopLooping l) = stopLooping l.
Proof. vm_compute. repeat split; reflexivity. Qed.

(** ** A start that is left waiting *)

Ltac suspended :=
  let H := fresh in
  intros H; injection H as <-; simpl; repeat split; auto.

Lemma setup_pending (env : StartEnv) (p0 p1 : Page) :
  setup env p0 = (p1, Pending) ->
  p_ui p1 = p_ui p0 /\
  p_refs p1 = p_refs p0 /\
  rafRef (p_browser p1) = rafRef (p_browser p0) /\
  timerRef (p_browser p1) = timerRef (p_browser p0) /\
  pendingFrames (p_browser p1) = pendingFrames (p_browser p0) /\
  activeIntervals (p_browser p1) = activeIntervals (p_browser p0).
Proof.
  run_setup.
  destruct (scriptOutcome (scriptTag (p_browser p0)) (scriptEvent env) faceMeshScript)
    as [[] | e0 |]; simpl; [| discriminate | suspended].
  destruct (userMedia env) as [stream | e0 |]; simpl; [| discriminate | suspended].
  destruct (videoReady env), (canvasReady env); simpl; try discriminate.
  destruct (played env) as [[] | e0 |]; simpl; [| discriminate | suspended].
  destruct (context2d env); simpl; [| discriminate].
  destruct (faceMeshPresent env); simpl; [| discriminate].
  destruct (meshCreated env) as [[] | e0 |]; simpl;
    [discriminate | discriminate | suspended].
Qed.

(** X18.  When consent was given and the first acquisition step that does
    not return never settles (a script tag that fires no event, a camera
    prompt left unanswered), [start] stays suspended: no error is
    reported, nothing is torn down, neither the frame loop nor the
    monitor interval is installed, and the page keeps reading
    "Calibrating…" with the detector cells reset. *)
Theorem suspended_start_stays_calibrating (env : StartEnv) (p : Page) :
  agreed (p_ui p) = true ->
  acquisition (scriptTag (p_browser p)) env = Pending ->
  p_ui (start env p) = reducer (reducer (p_ui p) CLEAR_ERROR) START /\
  statusText (p_ui (start env p))
  = "Calibrating… keep your eyes open for a few seconds."%string /\
  p_refs (start env p) = resetRefs /\
  rafRef (p_browser (start env p)) = rafRef (p_browser p) /\
  timerRef (p_browser (start env p)) = timerRef (p_browser p) /\
  pendingFrames (p_browser (start env p)) = pendingFrames (p_browser p) /\
  activeIntervals (p_browser (start env p)) = activeIntervals (p_browser p).
Proof.
  intros Hagreed Hacq. rewrite (start_unfold env p Hagreed). unfold started.
  pose proof (setup_acquisition env
                {| p_ui := reducer (reducer (p_ui p) CLEAR_ERROR) START;
                   p_refs := resetRefs; p_browser := p_browser p |}) as Hsnd.
  cbn [p_browser] in Hsnd. rewrite Hacq in Hsnd.
  destruct (setup env _) as [p1 o] eqn:Hsetup. cbn [snd] in Hsnd. subst o.
  destruct (setup_pending _ _ Hsetup) as (Hui & Hrefs & H1 & H2 & H3 & H4).
  cbn [p_ui p_refs p_browser] in *.
  rewrite Hui. repeat split; assumption.
Qed.

Lemma suspended_start_witness :
  p_ui (start promptIgnoredEnv consentedPage)
  = reducer (reducer (p_ui consentedPage) CLEAR_ERROR) START /\
  statusText (p_ui (start promptIgnoredEnv consentedPage))
  = "Calibrating… keep your eyes open for a few seconds."%string /\
  p_refs (start promptIgnoredEnv consentedPage) = resetRefs /\
  rafRef (p_browser (start promptIgnoredEnv consentedPage))
  = rafRef (p_browser consentedPage) /\
  timerRef (p_browser (start promptIgnoredEnv consentedPage))
  = timerRef (p_browser consentedPage) /\
  pendingFrames (p_browser (start promptIgnoredEnv consentedPage))
  = pendingFrames (p_browser consentedPage) /\
  activeIntervals (p_browser (start promptIgnoredEnv consentedPage))
  = activeIntervals (p_browser consentedPage).
Proof.
  apply (@suspended_start_stays_calibrating promptIgnoredEnv consentedPage);
    reflexivity.
Defined.

(** ** A Stop while [start] waits *)

Lemma startWith_unfold (m : Meanwhile) (env : StartEnv) (p : Page) :
  agreed (p_ui p) = true ->
  startWith m env p
  = match setupWith m env (started p) with
    | (p1, Returned _) => p1
    | (p1, Pending) => p1
    | (p1, Threw e) =>
        dispatchPage (ERROR (messageOf e))
          {| p_ui := p_ui p1; p_refs := p_refs p1;
             p_browser := cleanupLoopsAndStream (p_browser p1) |}
    end.
Proof. intros Hagreed. unfold startWith. rewrite Hagreed. reflexivity. Qed.

Lemma stop_overrun (m : Meanwhile) (env : StartEnv) (p : Page)
  (stream : MediaStream) :
  agreed (p_ui p) = true ->
  acquisition (scriptTag (p_browser p)) env = Returned tt ->
  userMedia env = Returned stream ->
  stopPressed m (scriptTag (p_browser p)) = true ->
  let p' := startWith m env p in
  running (p_ui p') = false /\
  statusText (p_ui p') = "Press Start to begin."%string /\
  rafRef (p_browser p') = Some (rafId env) /\
  In (rafId env) (pendingFrames (p_browser p')) /\
  timerRef (p_browser p') = Some (timerId env) /\
  In (timerId env) (activeIntervals (p_browser p')) /\
  (stopWhilePlaying m = false ->
   streamRef (p_browser p') = Some stream /\
   forall t, In t stream -> In t (liveTracks (p_browser p'))).
Proof.
  intros Hagreed Hacq Hmedia Hpressed. cbv zeta.
  rewrite (startWith_unfold m env p Hagreed).
  unfold started, stopPressed in *.
  unfold setupWith, whilePending, acquisition, bind, await, loadScriptOnce,
    getUserMedia, modifyBrowser, throw, ret in *.
  cbn [p_browser p_ui p_refs] in *.
  rewrite Hmedia in *.
  destruct (scriptOutcome (scriptTag (p_browser p)) (scriptEvent env)
              faceMeshScript) as [[] | e |] eqn:Hscript; try discriminate.
  destruct (videoReady env), (canvasReady env); simpl in Hacq;
    try discriminate.
  destruct (played env) as [[] | e |]; simpl in Hacq; try discriminate.
  destruct (context2d env); simpl in Hacq; try discriminate.
  destruct (faceMeshPresent env); simpl in Hacq; try discriminate.
  destruct (meshCreated env) as [[] | e |]; try discriminate.
  destruct m as [sl sa sp]. cbn [stopWhileLoading stopWhileAsking stopWhilePlaying] in *.
  destruct (settlesAtOnce (scriptTag (p_browser p))), sl, sa, sp;
    try discriminate Hpressed;
    cbn -[remove];
    rewrite ?Hscript; cbn -[remove];
    repeat split; auto using in_eq; try discriminate;
    intros; apply in_or_app; auto.
Qed.

(** X23.  [start] and Stop are not atomic.  When Stop is pressed while
    [start] waits for the script, for the camera or for [video.play()],
    the press tears down what is held at that moment and publishes STOP,
    but [start] resumes afterwards as if nothing had happened: if its
    remaining steps go through, the frame loop and the monitor interval
    are installed (and, unless the press came during [video.play()], the
    camera stream is held with its tracks live) on a page that is
    published as not running and reads "Press Start to begin." *)
Theorem stop_while_start_waits_is_overrun
  (m : Meanwhile) (env : StartEnv) (p : Page) (stream : MediaStream) :
  agreed (p_ui p) = true ->
  acquisition (scriptTag (p_browser p)) env = Returned tt ->
  userMedia env = Returned stream ->
  stopPressed m (scriptTag (p_browser p)) = true ->
  let p' := startWith m env p in
  running (p_ui p') = false /\
  statusText (p_ui p') = "Press Start to begin."%string /\
  rafRef (p_browser p') = Some (rafId env) /\
  In (rafId env) (pendingFrames (p_browser p')) /\
  timerRef (p_browser p') = Some (timerId env) /\
  In (timerId env) (activeIntervals (p_browser p')) /\
  (stopWhilePlaying m = false ->
   streamRef (p_browser p') = Some stream /\
   forall t, In t stream -> In t (liveTracks (p_browser p'))).
Proof. apply stop_overrun. Qed.

Lemma stop_while_asking_witness :
  let m := {| stopWhileLoading := false; stopWhileAsking := true;
              stopWhilePlaying := false |} in
  let p' := startWith m goodEnv consentedPage in
  running (p_ui p') = false /\
  statusText (p_ui p') = "Press Start to begin."%string /\
  p_browser p' = runningBrowser goodEnv [7%nat; 8%nat] idleBrowser.
Proof.
  intros m p'.
  destruct (@stop_while_start_waits_is_overrun m goodEnv consentedPage
              [7%nat; 8%nat] eq_refl eq_refl eq_refl eq_refl)
    as (H1 & H2 & _).
  split; [exact H1 |]. split; [exact H2 |]. reflexivity.
Defined.

(** With no press of Stop, [startWith] is [start]. *)
Example undisturbed_start :
  startWith undisturbed goodEnv consentedPage = start goodEnv consentedPage.
Proof. reflexivity. Qed.

(** * Geometry: symmetries of [dist] and [ear] *)

Module GeometrySymmetry.
Import Geometry.

Section Engine.
Context {E : HypotEngine}.

(** [Math.hypot] does not look at the signs of its arguments. *)
Lemma Math_hypot_abs (u u' v v' : float) :
  SFabs u = SFabs u' -> SFabs v = SFabs v' ->
  Math_hypot u v = Math_hypot u' v'.
Proof.
  intros Hu Hv. unfold Math_hypot.
  destruct (GeometryFacts.classes_abs _ _ Hu) as (-> & -> & ->).
  destruct (GeometryFacts.classes_abs _ _ Hv) as (-> & -> & ->).
  rewrite (hypot_abs u v), (hypot_abs u' v'), Hu, Hv. reflexivity.
Qed.

Lemma dist_sym (a b : Point) : dist a b = dist b a.
Proof. unfold dist. apply Math_hypot_abs; apply GeometryFacts.fsub_swap_abs. Qed.

(** X19.  Whatever the engine's [Math.hypot] computes in its general case,
    as long as it depends on the magnitudes of its two arguments only:
    [dist] is symmetric on all points, also those with infinite or NaN
    coordinates; the distance from [a] to [b] is, bit for bit, the
    distance from [b] to [a]. *)
Theorem dist_is_symmetric (a b : Point) : dist a b = dist b a.
Proof. apply dist_sym. Qed.

(** X20.  Whatever the engine's [Math.hypot] computes in its general case,
    as long as it depends on the magnitudes of its two arguments only:
    [ear] does not depend on the direction in which the contour of the eye
    is listed; listing the six landmarks from the other corner (corners
    swapped, the two upper and the two lower points swapped) or with upper
    and lower lid exchanged gives the same value, bit for bit. *)
Theorem ear_invariant_under_reflection (p1 p2 p3 p4 p5 p6 : Point) :
  ear p4 p3 p2 p1 p6 p5 = ear p1 p2 p3 p4 p5 p6 /\
  ear p1 p6 p5 p4 p3 p2 = ear p1 p2 p3 p4 p5 p6.
Proof.
  unfold ear. split.
  - rewrite (dist_sym p4 p1),
      (GeometryFacts.fadd_comm (dist p3 p5) (dist p2 p6)).
    reflexivity.
  - rewrite (dist_sym p6 p2), (dist_sym p5 p3). reflexivity.
Qed.

(** X21.  The EAR of a frame, the mean of the two eyes, is never negative
    whatever the landmarks are (it is NaN or has a clear sign bit); and it
    is exactly +0 when in both eyes the two corner landmarks are one and
    the same finite point. *)
Theorem frame_ear_never_negative_zero_on_collapsed_eyes (lm : nat -> Point) :
  isNegative (curEar lm) = false /\
  signClear (curEar lm) = true /\
  (finitePoint (lm 33%nat) = true -> lm 133%nat = lm 33%nat ->
   finitePoint (lm 362%nat) = true -> lm 263%nat = lm 362%nat ->
   curEar lm = pzero).
Proof.
  split; [| split].
  - apply GeometryFacts.signClear_not_negative, GeometryFacts.curEar_signClear.
  - apply GeometryFacts.curEar_signClear.
  - intros Hl Hleft Hr Hright. unfold curEar, ear.
    rewrite Hleft, Hright.
    rewrite (GeometryFacts.dist_diag _ Hl), (GeometryFacts.dist_diag _ Hr).
    reflexivity.
Qed.

End Engine.

(** The textbook formula is one such engine. *)
Lemma dist_symmetric_witness :
  dist (E := GeometryFacts.textbookEngine)
    {| x := two; y := epsilon |} {| x := pzero; y := two |}
  = dist (E := GeometryFacts.textbookEngine)
      {| x := pzero; y := two |} {| x := two; y := epsilon |}.
Proof.
  apply (dist_is_symmetric (E := GeometryFacts.textbookEngine)).
Defined.

Lemma ear_reflection_witness :
  let p1 := {| x := pzero; y := pzero |} in
  let p2 := {| x := epsilon; y := two |} in
  let p3 := {| x := two; y := two |} in
  let p4 := {| x := MAX_VALUE; y := pzero |} in
  let p5 := {| x := two; y := epsilon |} in
  let p6 := {| x := epsilon; y := epsilon |} in
  ear (E := GeometryFacts.textbookEngine) p4 p3 p2 p1 p6 p5
  = ear (E := GeometryFacts.textbookEngine) p1 p2 p3 p4 p5 p6.
Proof.
  intros p1 p2 p3 p4 p5 p6.
  apply (ear_invariant_under_reflection
           (E := GeometryFacts.textbookEngine) p1 p2 p3 p4 p5 p6).
Defined.

Lemma frame_ear_collapsed_witness :
  curEar (E := GeometryFacts.textbookEngine)
    (fun _ => {| x := two; y := epsilon |}) = pzero.
Proof.
  apply (frame_ear_never_negative_zero_on_collapsed_eyes
           (E := GeometryFacts.textbookEngine)
           (fun _ => {| x := two; y := epsilon |})); reflexivity.
Defined.

End GeometrySymmetry.
